(** * torch-mlir: com.microsoft ONNX rewrite rules and backend type finalization

    A shallow embedding of
    - [lib/Conversion/TorchOnnxToTorch/ComMicrosoftDomain.cpp]: the rewrite
      rules registered by [populateComMicrosoftDomain], written in a small
      rewriter monad that records the operations a rule creates and the
      replacement it installs;
    - [lib/Dialect/TorchConversion/Transforms/BackendTypeConversionPasses.cpp]:
      the finalizing backend type conversion pass.

    C++ behaviour that has no defined result (an out-of-range [operator[]],
    a failed [cast<>], [getSizes()] on an unranked type) is modelled as an
    explicit abort of the computation. *)

From Stdlib Require Import Ascii String ZArith List Bool Lia QArith Qround.
Import ListNotations.
Local Open Scope string_scope.
Local Open Scope list_scope.
Local Open Scope Z_scope.

(* ===================================================================== *)
(** * Part I. The Torch dialect data model                                *)
(* ===================================================================== *)

(** Element types of tensors. *)
Inductive Dtype : Type :=
| SignedInt (width : Z)
| UnsignedInt (width : Z)
| SignlessInt (width : Z)
| FloatTy (width : Z)
| QInt8Type
| QUInt8Type
| QInt16Type
| QInt32Type.

Definition si64 : Dtype := SignedInt 64.
Definition i1 : Dtype := SignlessInt 1.
Definition f32 : Dtype := FloatTy 32.

(** [Torch::kUnknownSize]. *)
Definition kUnknownSize : Z := -1.

(** [Torch::ValueTensorType]: optional sizes and optional dtype. *)
Record ValueTensorType : Type := mkVTT {
  getOptionalSizes : option (list Z);
  getOptionalDtype : option Dtype
}.

Definition hasSizes (t : ValueTensorType) : bool :=
  match getOptionalSizes t with Some _ => true | None => false end.

Definition areAllSizesKnown (t : ValueTensorType) : bool :=
  match getOptionalSizes t with
  | Some sizes => forallb (fun d => negb (d =? kUnknownSize)) sizes
  | None => false
  end.

Definition getWithSizesAndDtype (_ : ValueTensorType)
    (sizes : option (list Z)) (dtype : option Dtype) : ValueTensorType :=
  mkVTT sizes dtype.

(** Types of SSA values. *)
Inductive Ty : Type :=
| ValueTensorTy (t : ValueTensorType)
| IntType
| FloatType
| BoolType
| NoneType
| ListType (elem : Ty)
| OtherType (name : string).

(** An SSA value is either an operand of the operation being rewritten or
    the result of an operation created by the rule. *)
Inductive ValueDef : Type :=
| OperandOf (index : nat)
| ResultOf (opIndex : nat).

Record Value : Type := mkValue {
  valueDef : ValueDef;
  getType : Ty
}.

(** Floating constants are kept as data: an IEEE-754 binary32 bit pattern,
    that pattern extended to binary64, or a binary64 literal. *)
Inductive APFloat : Type :=
| F32Bits (bits : Z)
| F64Ext (bits : Z)
| F64Lit (q : Q).

Inductive Attribute : Type :=
| IntegerAttr (ty : Dtype) (value : Z)
| FloatAttr (value : APFloat)
| StringAttr (value : string)
| BoolAttr (value : bool).

Definition NamedAttribute : Type := (string * Attribute)%type.

(** [x != 0.0f] on a binary32 bit pattern: both zeros compare equal to 0. *)
Definition f32_ne_zero (bits : Z) : bool :=
  negb (Z.land bits 2147483647 =? 0).

Definition f32_one : Z := 1065353216.   (* 0x3F800000 *)
Definition f32_zero : Z := 0.

(** Operations of the Torch dialect that the rules create. *)
Inductive OpName : Type :=
| ConstantIntOp | ConstantFloatOp | ConstantBoolOp | ConstantNoneOp
| PrimListConstructOp
| OnnxVariantRotaryEmbeddingOp
| AtenReshapeOp | AtenItemOp | AtenGtIntOp | AtenNeIntOp | Aten__And__BoolOp
| AtenZerosOp | AtenToDtypeOp | AtenAddScalarOp | AtenSubScalarOp
| AtenArangeOp | AtenRepeatOp | AtenViewOp | AtenAddTensorOp
| AtenLtTensorOp | AtenTensorOp | AtenWhereSelfOp | AtenIntBoolOp
| AtenFullOp | AtenScaledDotProductAttentionOp | AtenCatOp
| AtenQuantizePerTensorOp | AtenIntReprOp | AtenLeakyReluOp
| AtenSizeIntOp | AtenAvgPool1dOp | AtenAvgPool2dOp | AtenAvgPool3dOp
| AtenSigmoidOp | OperatorOp | AtenMatmulOp | AtenMulTensorOp
| Aten_MakePerTensorQuantizedTensorOp | AtenDequantizeSelfOp
| AtenTransposeIntOp.

Record Operation : Type := mkOp {
  opName : OpName;
  opResultType : Ty;
  opOperands : list Value;
  opAttrs : list NamedAttribute;
  opNumRegions : nat
}.

Definition OpName_eq_dec (a b : OpName) : {a = b} + {a <> b}.
Proof. decide equality. Defined.

Definition OpName_eqb (a b : OpName) : bool :=
  if OpName_eq_dec a b then true else false.

(** [LogicalResult], with the diagnostic handed to [notifyMatchFailure]
    kept alongside a failure. *)
Inductive LogicalResult : Type :=
| Success
| Failure (diagnostic : option string).

Definition success : LogicalResult := Success.
Definition failure : LogicalResult := Failure None.
Definition notifyMatchFailure (msg : string) : LogicalResult :=
  Failure (Some msg).

Definition failed (r : LogicalResult) : bool :=
  match r with Success => false | Failure _ => true end.

(* --------------------------------------------------------------------- *)
(** ** The rewriter                                                       *)
(* --------------------------------------------------------------------- *)

(** What a [ConversionPatternRewriter] has done on behalf of one rule:
    the operations created so far, in creation order, and the replacement
    installed for the matched operation, if any. *)
Record RewriterState : Type := mkState {
  created : list Operation;
  replacement : option (list Value)
}.

Definition initialState : RewriterState := mkState [] None.

(** A rewriter computation; [None] is an abort. *)
Definition Rewriter (A : Type) : Type :=
  RewriterState -> option (A * RewriterState).

Definition ret {A} (a : A) : Rewriter A := fun s => Some (a, s).

Definition bind {A B} (m : Rewriter A) (k : A -> Rewriter B) : Rewriter B :=
  fun s => match m s with
           | Some (a, s') => k a s'
           | None => None
           end.

Definition abort {A} : Rewriter A := fun _ => None.

Declare Scope rewriter_scope.
Delimit Scope rewriter_scope with rw.
Notation "x <- m ;; k" := (bind m (fun x => k))
  (at level 61, m at next level, right associativity) : rewriter_scope.
Notation "' p <- m ;; k" := (bind m (fun x => let p := x in k))
  (at level 61, p pattern, m at next level, right associativity)
  : rewriter_scope.
Notation "m ;;; k" := (bind m (fun _ => k))
  (at level 61, right associativity) : rewriter_scope.
Local Open Scope rewriter_scope.

(** A value that C++ takes without a check; using it when absent aborts. *)
Definition orAbort {A} (o : option A) : Rewriter A :=
  match o with Some a => ret a | None => abort end.

(** [v[i]] on a [SmallVector] or [ArrayRef]. *)
Definition at_ {A} (v : list A) (i : nat) : Rewriter A :=
  orAbort (nth_error v i).

(** [rewriter.create<OpTy>(loc, resultType, operands...)]. *)
Definition createOp (name : OpName) (ty : Ty) (operands : list Value)
    (attrs : list NamedAttribute) (regions : nat) : Rewriter Value :=
  fun s =>
    Some (mkValue (ResultOf (length (created s))) ty,
          mkState (created s ++ [mkOp name ty operands attrs regions])
                  (replacement s)).

Definition create (name : OpName) (ty : Ty) (operands : list Value)
    : Rewriter Value :=
  createOp name ty operands [] 0.

(** [rewriter.replaceOp(binder.op, values)]. *)
Definition replaceOp (values : list Value) : Rewriter unit :=
  fun s => Some (tt, mkState (created s) (Some values)).

(** [rewriter.replaceOpWithNewOp<OpTy>(binder.op, resultType, operands...)]. *)
Definition replaceOpWithNewOp (name : OpName) (ty : Ty)
    (operands : list Value) : Rewriter unit :=
  v <- create name ty operands ;; replaceOp [v].

Definition getI64IntegerAttr (v : Z) : Attribute :=
  IntegerAttr (SignlessInt 64) v.

(** [rewriter.create<Torch::ConstantIntOp>(loc, getI64IntegerAttr(v))]. *)
Definition createConstantInt (v : Z) : Rewriter Value :=
  createOp ConstantIntOp IntType [] [("value", getI64IntegerAttr v)] 0.

Definition createConstantFloat (v : APFloat) : Rewriter Value :=
  createOp ConstantFloatOp FloatType [] [("value", FloatAttr v)] 0.

Definition createConstantBool (b : bool) : Rewriter Value :=
  createOp ConstantBoolOp BoolType [] [("value", BoolAttr b)] 0.

Definition createConstantNone : Rewriter Value :=
  createOp ConstantNoneOp NoneType [] [] 0.

(** [cast<Torch::ValueTensorType>(type)]. *)
Definition castValueTensorType (t : Ty) : Rewriter ValueTensorType :=
  match t with
  | ValueTensorTy vt => ret vt
  | _ => abort
  end.

(** [dyn_cast<Torch::ValueTensorType>(type)]. *)
Definition dyn_castValueTensorType (t : Ty) : option ValueTensorType :=
  match t with
  | ValueTensorTy vt => Some vt
  | _ => None
  end.

(** [type.getSizes()], which requires the type to have sizes. *)
Definition getSizes (t : ValueTensorType) : Rewriter (list Z) :=
  orAbort (getOptionalSizes t).

(** [type.getDtype()], which requires the type to have a dtype. *)
Definition getDtype (t : ValueTensorType) : Rewriter Dtype :=
  orAbort (getOptionalDtype t).

(** [llvm::equal] on two size lists. *)
Fixpoint equal (a b : list Z) : bool :=
  match a, b with
  | [], [] => true
  | x :: a', y :: b' => (x =? y) && equal a' b'
  | _, _ => false
  end.

(** [torch_upstream::ScalarType]. *)
Definition ScalarType_Long : Z := 4.
Definition ScalarType_Bool : Z := 11.

(** Wrap-around of machine integers. *)
Definition wrapU (w : Z) (x : Z) : Z := x mod 2 ^ w.
Definition wrapS (w : Z) (x : Z) : Z :=
  (x + 2 ^ (w - 1)) mod 2 ^ w - 2 ^ (w - 1).

(* --------------------------------------------------------------------- *)
(** ** The operator record                                                *)
(* --------------------------------------------------------------------- *)

(** The operation a rule is invoked on: its operand types (operand [i] is
    the value [OperandOf i]), its attribute dictionary, its result types
    and the number of its regions. *)
Record OpBinder : Type := mkBinder {
  operandTypes : list Ty;
  attrDictionary : list NamedAttribute;
  resultTypes : list Ty;
  numRegions : nat
}.

Fixpoint operandsFrom (i : nat) (tys : list Ty) : list Value :=
  match tys with
  | [] => []
  | t :: rest => mkValue (OperandOf i) t :: operandsFrom (S i) rest
  end.

Definition getOperands (b : OpBinder) : list Value :=
  operandsFrom 0 (operandTypes b).

Definition isTensor (t : Ty) : bool :=
  match t with ValueTensorTy _ => true | _ => false end.

Fixpoint getAttr (name : string) (attrs : list NamedAttribute)
    : option Attribute :=
  match attrs with
  | [] => None
  | (n, a) :: rest => if String.eqb n name then Some a else getAttr name rest
  end.

(** Modelled from the spec: the binder methods of [Patterns.h], which is
    not part of the sources at hand.  A method returns [None] where the
    C++ method returns a failed [ParseResult]. *)

(** Modelled from the spec: [binder.tensorOperandsList(operands)] binds the
    whole ordered operand list and fails when an operand is not a tensor. *)
Definition tensorOperandsList (b : OpBinder) : option (list Value) :=
  if forallb isTensor (operandTypes b) then Some (getOperands b) else None.

(** Modelled from the spec: [binder.tensorOperands(operands, n)] binds
    exactly [n] tensor operands. *)
Definition tensorOperands (b : OpBinder) (n : nat) : option (list Value) :=
  if (length (operandTypes b) =? n)%nat then tensorOperandsList b else None.

(** Modelled from the spec: [binder.tensorOperands(lhs, rhs)] binds exactly
    two tensor operands. *)
Definition tensorOperands2 (b : OpBinder) : option (Value * Value) :=
  match tensorOperands b 2 with
  | Some [lhs; rhs] => Some (lhs, rhs)
  | _ => None
  end.

(** Modelled from the spec: [binder.tensorOperandAtIndex(v, i)] binds the
    [i]-th operand, which must exist and be a tensor. *)
Definition tensorOperandAtIndex (b : OpBinder) (i : nat) : option Value :=
  match nth_error (getOperands b) i with
  | Some v => if isTensor (getType v) then Some v else None
  | None => None
  end.

(** Modelled from the spec: [binder.tensorResultType(t)] binds the type of
    the single result, which must be a tensor type. *)
Definition tensorResultType (b : OpBinder) : option ValueTensorType :=
  match resultTypes b with
  | [ValueTensorTy t] => Some t
  | _ => None
  end.

(** Modelled from the spec: [binder.tensorResultTypes(types)] binds all the
    result types, which must be tensor types. *)
Definition tensorResultTypes (b : OpBinder) : option (list Ty) :=
  if forallb isTensor (resultTypes b) then Some (resultTypes b) else None.

(** Modelled from the spec: [binder.s64IntegerAttr(v, name, default)] reads
    the attribute ["torch.onnx." ++ name]; an absent attribute yields the
    default, an attribute that is not a signed 64-bit integer fails. *)
Definition s64IntegerAttr (b : OpBinder) (name : string) (default : Z)
    : option Z :=
  match getAttr ("torch.onnx." ++ name)%string (attrDictionary b) with
  | None => Some default
  | Some (IntegerAttr (SignedInt 64) v) => Some v
  | Some _ => None
  end.

(** Modelled from the spec: [binder.f32FloatAttr(v, name, default)], the
    same for a binary32 attribute; the value is its bit pattern. *)
Definition f32FloatAttr (b : OpBinder) (name : string) (default : Z)
    : option Z :=
  match getAttr ("torch.onnx." ++ name)%string (attrDictionary b) with
  | None => Some default
  | Some (FloatAttr (F32Bits bits)) => Some bits
  | Some _ => None
  end.

(** Modelled from the spec: [Torch::getTensorRank(v)], the number of
    dimensions when the type has sizes. *)
Definition getTensorRank (v : Value) : Rewriter (option Z) :=
  t <- castValueTensorType (getType v) ;;
  ret (option_map (fun s => Z.of_nat (length s)) (getOptionalSizes t)).

(** A helper that only creates operations: given the index the next
    created operation gets, it yields its outcome and the operations it
    created, or aborts. *)
Definition Builder (A : Type) : Type := nat -> option (A * list Operation).

Definition runBuilder {A} (b : Builder A) : Rewriter A :=
  fun s => match b (length (created s)) with
           | Some (a, ops) =>
               Some (a, mkState (created s ++ ops) (replacement s))
           | None => None
           end.

(** The helpers of [Utils.h] that the rules call and whose definitions are
    not part of the sources at hand.  An outcome [None] is a failed
    [LogicalResult]. *)
Record Utils : Type := mkUtils {
  extractPerTensorQuantizationArguments :
    Value -> Value -> Builder (option (Value * Value));
  createDequantizeTensor :
    Value -> Value -> Value -> Builder (option Value);
  createTorchTransposeOp :
    Value -> Z -> Z -> Builder (option Value);
  getQTorchTypeFromTorchIntType : ValueTensorType -> option ValueTensorType;
  getScalarTypeForType : Dtype -> Z
}.

(** Short-circuit binding of operands and attributes: the first failed
    bind makes the whole [a || b || ...] condition true. *)
Declare Scope bind_scope.
Delimit Scope bind_scope with bnd.
Notation "x <-? m ;; k" :=
  (match m with Some x => k | None => None end)
  (at level 61, m at next level, right associativity) : bind_scope.

(* ===================================================================== *)
(** * Part II. The rewrite rules of [populateComMicrosoftDomain]          *)
(* ===================================================================== *)

Section Rules.

Variable U : Utils.

Definition listOfInt : Ty := ListType IntType.

(** ["RotaryEmbedding", 1]. *)
Definition RotaryEmbedding (binder : OpBinder) : Rewriter LogicalResult :=
  match
    (input <-? tensorOperandAtIndex binder 0 ;;
     positionIds <-? tensorOperandAtIndex binder 1 ;;
     cosCache <-? tensorOperandAtIndex binder 2 ;;
     sinCache <-? tensorOperandAtIndex binder 3 ;;
     interleaved <-? s64IntegerAttr binder "interleaved" 0 ;;
     isPackedBatching <-? s64IntegerAttr binder "is_packed_batching" 0 ;;
     numHeads <-? s64IntegerAttr binder "num_heads" 0 ;;
     rotaryEmbeddingDim <-? s64IntegerAttr binder "rotary_embedding_dim" 0 ;;
     scale <-? f32FloatAttr binder "scale" f32_one ;;
     Some (input, positionIds, cosCache, sinCache, interleaved,
           isPackedBatching, numHeads, rotaryEmbeddingDim, scale))%bnd
  with
  | None => ret (notifyMatchFailure "Failed to get required inputs")
  | Some (input, positionIds, cosCache, sinCache, interleaved,
          isPackedBatching, numHeads, rotaryEmbeddingDim, scale) =>
    match tensorResultType binder with
    | None => ret (notifyMatchFailure "result type bind failure")
    | Some resultType =>
      cstInterleaved <- createConstantInt interleaved ;;
      cstIsPackedBatching <- createConstantInt isPackedBatching ;;
      cstNumHeads <- createConstantInt numHeads ;;
      cstRotaryEmbeddingDim <- createConstantInt rotaryEmbeddingDim ;;
      cstScale <- createConstantFloat (F64Ext scale) ;;
      replaceOpWithNewOp OnnxVariantRotaryEmbeddingOp
        (ValueTensorTy resultType)
        [input; positionIds; cosCache; sinCache; cstInterleaved;
         cstIsPackedBatching; cstNumHeads; cstRotaryEmbeddingDim; cstScale] ;;;
      ret success
    end
  end.

(** The attributes bound by ["GroupQueryAttention"]. *)
Record GQAAttrs : Type := mkGQAAttrs {
  doRotary : Z;
  kvNumHeads : Z;
  localWindowSize : Z;
  numHeads : Z;
  rotaryInterleaved : Z;
  scale : Z;
  smoothSoftmax : Z;
  softcap : Z
}.

Definition bindGQAAttrs (binder : OpBinder) : option GQAAttrs :=
  (doRotary <-? s64IntegerAttr binder "do_rotary" 0 ;;
   kvNumHeads <-? s64IntegerAttr binder "kv_num_heads" 0 ;;
   localWindowSize <-? s64IntegerAttr binder "local_window_size" (-1) ;;
   numHeads <-? s64IntegerAttr binder "num_heads" 0 ;;
   rotaryInterleaved <-? s64IntegerAttr binder "rotary_interleaved" 0 ;;
   scale <-? f32FloatAttr binder "scale" f32_zero ;;
   smoothSoftmax <-? s64IntegerAttr binder "smooth_softmax" 0 ;;
   softcap <-? f32FloatAttr binder "softcap" f32_zero ;;
   Some (mkGQAAttrs doRotary kvNumHeads localWindowSize numHeads
                    rotaryInterleaved scale smoothSoftmax softcap))%bnd.

(** The [if (doRotary) { ... }] block of ["GroupQueryAttention"]: creates
    the position ids and the two rotary embeddings, and yields
    [(qRotary, kRotary)]. *)
Definition rotaryBlock (rotaryInterleaved batchSize sequenceLength : Z)
    (seqlensK totalSequenceLength cosCache sinCache : Value)
    (cstBatchSize cstSequenceLength cstNone cstFalse qInput kInput : Value)
    : Rewriter (Value * Value) :=
  (* `totalSequenceLength` is a scalar tensor. *)
  scalarTotalSeqLens <- create AtenItemOp IntType [totalSequenceLength] ;;
  cstIntOne <- createConstantInt 1 ;;
  let boolTy := BoolType in
  condA <- create AtenGtIntOp boolTy [cstSequenceLength; cstIntOne] ;;
  condB <- create AtenNeIntOp boolTy [cstSequenceLength; scalarTotalSeqLens] ;;
  isSubsequentPrompt <- create Aten__And__BoolOp boolTy [condA; condB] ;;
  let positionIdsSizeInt := [batchSize; sequenceLength] in
  let positionIdsType := mkVTT (Some positionIdsSizeInt) (Some si64) in
  cstInt64Dtype <- createConstantInt ScalarType_Long ;;
  cstInterleaved <- createConstantInt rotaryInterleaved ;;
  cstIntZero <- createConstantInt 0 ;;
  cstFloatOne <- createConstantFloat (F64Lit 1) ;;
  posIdsSizeList <- create PrimListConstructOp listOfInt
                      [cstBatchSize; cstSequenceLength] ;;
  positionIdsA <- create AtenZerosOp (ValueTensorTy positionIdsType)
                    [posIdsSizeList; cstInt64Dtype; cstNone; cstNone;
                     cstNone] ;;
  (* Convert seqlens_k which is a tensor of type si32 to si64. *)
  seqLensKType <- castValueTensorType (getType seqlensK) ;;
  seqlensK <- create AtenToDtypeOp
                (ValueTensorTy
                   (getWithSizesAndDtype seqLensKType None (Some si64)))
                [seqlensK; cstInt64Dtype; cstFalse; cstFalse; cstNone] ;;
  totalSeqLens <- create AtenAddScalarOp (getType seqlensK)
                    [seqlensK; cstIntOne; cstIntOne] ;;
  pastSeqLens <- create AtenSubScalarOp (getType totalSeqLens)
                   [totalSeqLens; cstSequenceLength; cstIntOne] ;;
  let initPosIdsType := mkVTT (Some [sequenceLength]) (Some si64) in
  initPosIds <- create AtenArangeOp (ValueTensorTy initPosIdsType)
                  [cstSequenceLength; cstInt64Dtype; cstNone; cstNone;
                   cstNone] ;;
  repeatValuesList <- create PrimListConstructOp listOfInt
                        [cstBatchSize; cstIntOne] ;;
  positionIdsB <- create AtenRepeatOp (ValueTensorTy positionIdsType)
                    [initPosIds; repeatValuesList] ;;
  cstIntMinusOne <- createConstantInt 1 ;;
  viewSizeList <- create PrimListConstructOp listOfInt
                    [cstIntMinusOne; cstIntOne] ;;
  let seqLensViewType := mkVTT (Some [batchSize; 1]) (Some si64) in
  pastSeqLens <- create AtenViewOp (ValueTensorTy seqLensViewType)
                   [pastSeqLens; viewSizeList] ;;
  positionIdsB <- create AtenAddTensorOp (ValueTensorTy positionIdsType)
                    [positionIdsB; pastSeqLens; cstIntOne] ;;
  totalSeqLens <- create AtenViewOp (ValueTensorTy seqLensViewType)
                    [totalSeqLens; viewSizeList] ;;
  positionIdsSizes <- getSizes positionIdsType ;;
  cond <- create AtenLtTensorOp
            (ValueTensorTy
               (getWithSizesAndDtype positionIdsType (Some positionIdsSizes)
                                     (Some i1)))
            [positionIdsB; totalSeqLens] ;;
  cstOneTensorDataList <- create PrimListConstructOp listOfInt [cstIntOne] ;;
  cstOneTensor <- create AtenTensorOp
                    (ValueTensorTy (mkVTT (Some []) (Some si64)))
                    [cstOneTensorDataList; cstInt64Dtype; cstNone;
                     cstFalse] ;;
  positionIdsB <- create AtenWhereSelfOp (ValueTensorTy positionIdsType)
                    [cond; positionIdsB; cstOneTensor] ;;
  isSubsequentPrompt <- create AtenIntBoolOp IntType [isSubsequentPrompt] ;;
  cstBoolDtype <- createConstantInt ScalarType_Bool ;;
  isSubsequentPrompt <- create AtenFullOp
                          (ValueTensorTy
                             (mkVTT (Some positionIdsSizeInt) (Some i1)))
                          [posIdsSizeList; isSubsequentPrompt; cstBoolDtype;
                           cstNone; cstNone; cstNone] ;;
  positionIds <- create AtenWhereSelfOp (ValueTensorTy positionIdsType)
                   [isSubsequentPrompt; positionIdsB; positionIdsA] ;;
  (* Performing RotaryEmbedding over Query and Key. *)
  qRotary <- create OnnxVariantRotaryEmbeddingOp (getType qInput)
               [qInput; positionIds; cosCache; sinCache; cstInterleaved;
                cstIntZero; cstIntZero; cstIntZero; cstFloatOne] ;;
  kRotary <- create OnnxVariantRotaryEmbeddingOp (getType qInput)
               [kInput; positionIds; cosCache; sinCache; cstInterleaved;
                cstIntZero; cstIntZero; cstIntZero; cstFloatOne] ;;
  ret (qRotary, kRotary).

(** ["GroupQueryAttention", 1]. *)
Definition GroupQueryAttention (binder : OpBinder) : Rewriter LogicalResult :=
  match tensorOperandsList binder with
  | None => ret (notifyMatchFailure "operands bind failure")
  | Some operands =>
  match tensorResultTypes binder with
  | None => ret (notifyMatchFailure "result types bind failure")
  | Some resultTypes =>
  if negb (length resultTypes =? 3)%nat then
    ret (notifyMatchFailure "expected 3 result types")
  else
  match bindGQAAttrs binder with
  | None => ret (notifyMatchFailure "op attributes bind failure")
  | Some a =>
  if negb ((length operands =? 9)%nat
           || ((doRotary a =? 0) && (length operands =? 7)%nat)) then
    ret (notifyMatchFailure
           "Unimplemented:  excepted input operands to be either 7 or 9 based on the `do_rotary` attribute")
  else if kvNumHeads a =? 0 then
    ret (notifyMatchFailure
           "kv_num_heads is a required attribute and should be non-zero")
  else if negb (localWindowSize a =? -1) then
    ret (notifyMatchFailure
           "Unimplemented: local_window_size attribute is not supported, hence it should have default value equal to -1")
  else if numHeads a =? 0 then
    ret (notifyMatchFailure
           "num_heads is a required attribute and should be non-zero")
  else if negb (smoothSoftmax a =? 0) then
    ret (notifyMatchFailure
           "Unimplemented: smooth_softmax attribute is not supported, hence it should have default value equal to 0")
  else if f32_ne_zero (softcap a) then
    ret (notifyMatchFailure
           "Unimplemented: softcap attribute is not supported, hence it should have default value equal to 0.0")
  else
  (* TODO: Add support for packed_qkv. *)
  query <- at_ operands 0 ;;
  key <- at_ operands 1 ;;
  value <- at_ operands 2 ;;
  pastKey <- at_ operands 3 ;;
  pastValue <- at_ operands 4 ;;
  seqlensK <- at_ operands 5 ;;
  totalSequenceLength <- at_ operands 6 ;;
  cosSinCache <- (if negb (doRotary a =? 0) then
                    cosCache <- at_ operands 7 ;;
                    sinCache <- at_ operands 8 ;;
                    ret (Some (cosCache, sinCache))
                  else ret None) ;;
  queryType <- castValueTensorType (getType query) ;;
  if negb (hasSizes queryType && areAllSizesKnown queryType) then
    ret (notifyMatchFailure
           "Expected `query` input to have statically known sizes")
  else
  queryDims <- getSizes queryType ;;
  batchSize <- at_ queryDims 0 ;;
  sequenceLength <- at_ queryDims 1 ;;
  hiddenSize <- at_ queryDims 2 ;;
  let headSize := Z.quot hiddenSize (numHeads a) in
  cstBatchSize <- createConstantInt batchSize ;;
  cstSequenceLength <- createConstantInt sequenceLength ;;
  cstHiddenSize <- createConstantInt hiddenSize ;;
  cstHeadSize <- createConstantInt headSize ;;
  cstNumHeads <- createConstantInt (numHeads a) ;;
  cstKVNumHeads <- createConstantInt (kvNumHeads a) ;;
  (* Reshaping query. *)
  let queryReshapeSizesInt :=
    [batchSize; numHeads a; sequenceLength; headSize] in
  queryReshapeSizesList <- create PrimListConstructOp listOfInt
                             [cstBatchSize; cstNumHeads; cstSequenceLength;
                              cstHeadSize] ;;
  qInput <- create AtenReshapeOp
              (ValueTensorTy
                 (getWithSizesAndDtype queryType (Some queryReshapeSizesInt)
                                       (getOptionalDtype queryType)))
              [query; queryReshapeSizesList] ;;
  (* Reshaping key. *)
  let kvReshapeSizesInt :=
    [batchSize; kvNumHeads a; sequenceLength; headSize] in
  kvReshapeSizesList <- create PrimListConstructOp listOfInt
                          [cstBatchSize; cstKVNumHeads; cstSequenceLength;
                           cstHeadSize] ;;
  keyType <- castValueTensorType (getType key) ;;
  kInput <- create AtenReshapeOp
              (ValueTensorTy
                 (getWithSizesAndDtype keyType (Some kvReshapeSizesInt)
                                       (getOptionalDtype keyType)))
              [key; kvReshapeSizesList] ;;
  (* Reshaping value. *)
  valueType <- castValueTensorType (getType value) ;;
  vInput <- create AtenReshapeOp
              (ValueTensorTy
                 (getWithSizesAndDtype valueType (Some kvReshapeSizesInt)
                                       (getOptionalDtype valueType)))
              [value; kvReshapeSizesList] ;;
  cstNone <- createConstantNone ;;
  cstFalse <- createConstantBool false ;;
  '(qRotary, kRotary) <-
    (match cosSinCache with
     | Some (cosCache, sinCache) =>
         rotaryBlock (rotaryInterleaved a) batchSize sequenceLength
           seqlensK totalSequenceLength cosCache sinCache
           cstBatchSize cstSequenceLength cstNone cstFalse qInput kInput
     | None => ret (qInput, kInput)
     end) ;;
  (* Do attention. *)
  cstEnableGQA <- createConstantBool true ;;
  cstFloatZero <- createConstantFloat (F64Lit 0) ;;
  cstScale <- (if f32_ne_zero (scale a)
               then createConstantFloat (F64Ext (scale a))
               else ret cstNone) ;;
  attention <- create AtenScaledDotProductAttentionOp (getType qRotary)
                 [qRotary; kRotary; vInput; cstNone; cstFloatZero; cstFalse;
                  cstScale; cstEnableGQA] ;;
  attentionResultSizesList <- create PrimListConstructOp listOfInt
                                [cstBatchSize; cstSequenceLength;
                                 cstHiddenSize] ;;
  resultType0 <- at_ resultTypes 0 ;;
  attention <- create AtenReshapeOp resultType0
                 [attention; attentionResultSizesList] ;;
  (* Compute 2nd and 3rd result: present_key, present_value. *)
  pastKeyType <- castValueTensorType (getType pastKey) ;;
  pastKeySizes <- getSizes pastKeyType ;;
  resultType1 <- at_ resultTypes 1 ;;
  resultTensorType1 <- castValueTensorType resultType1 ;;
  resultSizes1 <- getSizes resultTensorType1 ;;
  presentKey <-
    (if negb (equal pastKeySizes resultSizes1) then
       cstConcatDim <- createConstantInt 2 ;;
       let kvListElemType := getWithSizesAndDtype keyType None None in
       let kvListType := ListType (ValueTensorTy kvListElemType) in
       keyList <- create PrimListConstructOp kvListType [pastKey; kRotary] ;;
       create AtenCatOp resultType1 [keyList; cstConcatDim]
     else ret pastKey) ;;
  pastValueType <- castValueTensorType (getType pastValue) ;;
  pastValueSizes <- getSizes pastValueType ;;
  resultType2 <- at_ resultTypes 2 ;;
  resultTensorType2 <- castValueTensorType resultType2 ;;
  resultSizes2 <- getSizes resultTensorType2 ;;
  presentValue <-
    (if negb (equal pastValueSizes resultSizes2) then
       cstConcatDim <- createConstantInt 2 ;;
       let kvListElemType := getWithSizesAndDtype keyType None None in
       let kvListType := ListType (ValueTensorTy kvListElemType) in
       valueList <- create PrimListConstructOp kvListType
                      [pastValue; vInput] ;;
       create AtenCatOp resultType2 [valueList; cstConcatDim]
     else ret pastValue) ;;
  replaceOp [attention; presentKey; presentValue] ;;;
  ret success
  end end end.

(** The tail shared by the quantized rules, "Quantizing the result of
    ... op": the quantized result type from [getQTorchTypeFromTorchIntType],
    the dtype constant, [AtenQuantizePerTensorOp], and the replacement of
    the matched operation by [AtenIntReprOp]. *)
Definition quantizeAndReplace (resultType : ValueTensorType)
    (y yScale yZp : Value) : Rewriter LogicalResult :=
  yTy <- orAbort (getQTorchTypeFromTorchIntType U resultType) ;;
  dty <- getDtype yTy ;;
  dtyVal <- createConstantInt (getScalarTypeForType U dty) ;;
  y <- create AtenQuantizePerTensorOp (ValueTensorTy yTy)
         [y; yScale; yZp; dtyVal] ;;
  replaceOpWithNewOp AtenIntReprOp (ValueTensorTy resultType) [y] ;;;
  ret success.

(** [extractPerTensorQuantizationArguments(rewriter, loc, operands[i],
    operands[j], scale, zp)]. *)
Definition extractAt (operands : list Value) (i j : nat)
    : Rewriter (option (Value * Value)) :=
  scale <- at_ operands i ;;
  zeroPoint <- at_ operands j ;;
  runBuilder (extractPerTensorQuantizationArguments U scale zeroPoint).

(** [createDequantizeTensor(rewriter, loc, operands[i], scale, zp, out)]. *)
Definition dequantizeAt (operands : list Value) (i : nat)
    (scale zeroPoint : Value) : Rewriter (option Value) :=
  input <- at_ operands i ;;
  runBuilder (createDequantizeTensor U input scale zeroPoint).

Definition f32TensorLike (resultType : ValueTensorType) : Ty :=
  ValueTensorTy (mkVTT (getOptionalSizes resultType) (Some f32)).

(** ["QLinearAdd", 1]. *)
Definition QLinearAdd (binder : OpBinder) : Rewriter LogicalResult :=
  match (operands <-? tensorOperandsList binder ;;
         resultType <-? tensorResultType binder ;;
         Some (operands, resultType))%bnd with
  | None => ret failure
  | Some (operands, resultType) =>
  if negb (length operands =? 8)%nat then
    ret (notifyMatchFailure "Unimplemented: expected 8 input operands")
  else
  r <- extractAt operands 1 2 ;;
  match r with
  | None => ret (notifyMatchFailure
                   "Incompatible arguments for per-tensor quantization")
  | Some (aScale, aZp) =>
  r <- extractAt operands 4 5 ;;
  match r with
  | None => ret (notifyMatchFailure
                   "Incompatible arguments for per-tensor quantization")
  | Some (bScale, bZp) =>
  r <- extractAt operands 6 7 ;;
  match r with
  | None => ret (notifyMatchFailure
                   "Incompatible arguments for per-tensor quantization")
  | Some (cScale, cZp) =>
  r <- dequantizeAt operands 0 aScale aZp ;;
  match r with
  | None => ret (notifyMatchFailure
                   "Failed to dequantize the input tensor `a` because of missing sizes")
  | Some a =>
  r <- dequantizeAt operands 3 bScale bZp ;;
  match r with
  | None => ret (notifyMatchFailure
                   "Failed to dequantize the input tensor `b` because of missing sizes")
  | Some b =>
  (* Computing the result of "Add". *)
  let cTy := f32TensorLike resultType in
  alpha <- createConstantFloat (F64Lit 1) ;;
  c <- create AtenAddTensorOp cTy [a; b; alpha] ;;
  (* Quantizing the result of "Add" operation. *)
  quantizeAndReplace resultType c cScale cZp
  end end end end end end.

(** ["QLinearLeakyRelu", 1]. *)
Definition QLinearLeakyRelu (binder : OpBinder) : Rewriter LogicalResult :=
  match (operands <-? tensorOperandsList binder ;;
         resultType <-? tensorResultType binder ;;
         alpha <-? f32FloatAttr binder "alpha" f32_zero ;;
         Some (operands, resultType, alpha))%bnd with
  | None => ret failure
  | Some (operands, resultType, alpha) =>
  if negb (length operands =? 5)%nat then
    ret (notifyMatchFailure "Unimplemented: expected 5 input operands")
  else
  r <- extractAt operands 1 2 ;;
  match r with
  | None => ret (notifyMatchFailure
                   "Incompatible arguments for per-tensor quantization")
  | Some (xScale, xZp) =>
  r <- extractAt operands 3 4 ;;
  match r with
  | None => ret (notifyMatchFailure
                   "Incompatible arguments for per-tensor quantization")
  | Some (yScale, yZp) =>
  r <- dequantizeAt operands 0 xScale xZp ;;
  match r with
  | None => ret (notifyMatchFailure
                   "Failed to dequantize the input tensor `x` because of missing sizes")
  | Some x =>
  (* Computing the LeakyRelu result. *)
  constAlpha <- createConstantFloat (F64Ext alpha) ;;
  let yTy := f32TensorLike resultType in
  y <- create AtenLeakyReluOp yTy [x; constAlpha] ;;
  (* Quantizing the result of LeakyRelu op. *)
  quantizeAndReplace resultType y yScale yZp
  end end end end.

(** The first loop of ["QLinearConcat"]:
    [for (unsigned i = 2; i < operands.size(); i = i + 3)], pushing
    [operands[i]], [operands[i + 1]] and [operands[i + 2]]. *)
Fixpoint collectConcatInputs (fuel : nat) (operands : list Value) (i : nat)
    (inputs inputScales inputZeroPoints : list Value)
    : Rewriter (list Value * list Value * list Value) :=
  match fuel with
  | O => ret (inputs, inputScales, inputZeroPoints)
  | S fuel' =>
      if (i <? length operands)%nat then
        x <- at_ operands i ;;
        xScale <- at_ operands (i + 1) ;;
        xZp <- at_ operands (i + 2) ;;
        collectConcatInputs fuel' operands (i + 3)
          (inputs ++ [x]) (inputScales ++ [xScale])
          (inputZeroPoints ++ [xZp])
      else ret (inputs, inputScales, inputZeroPoints)
  end.

(** The second loop of ["QLinearConcat"], "Preparing the dequantized
    inputs": [n] iterations starting at index [i]; a failed helper leaves
    the loop with the diagnostic. *)
Fixpoint dequantizeConcatInputs (n : nat) (i : nat)
    (inputs inputScales inputZeroPoints dequantizedInputs : list Value)
    : Rewriter (LogicalResult + list Value) :=
  match n with
  | O => ret (inr dequantizedInputs)
  | S n' =>
      inScale <- at_ inputScales i ;;
      inZp <- at_ inputZeroPoints i ;;
      r <- runBuilder (extractPerTensorQuantizationArguments U inScale inZp) ;;
      match r with
      | None => ret (inl (notifyMatchFailure
                 "Incompatible scale and zero-points argument for per-tensor quantization"))
      | Some (scale, zeroPoint) =>
      input <- at_ inputs i ;;
      r <- runBuilder (createDequantizeTensor U input scale zeroPoint) ;;
      match r with
      | None => ret (inl (notifyMatchFailure
                 "Failed to dequantize the input tensor because of missing sizes"))
      | Some dequantizedInput =>
      dequantizeConcatInputs n' (S i) inputs inputScales inputZeroPoints
        (dequantizedInputs ++ [dequantizedInput])
      end end
  end.

(** [unsigned numInputs = (operands.size() - 2) / 3;] the subtraction is
    on [size_t], the result is narrowed to [unsigned]. *)
Definition concatNumInputs (operands : list Value) : Z :=
  wrapU 32 (wrapU 64 (Z.of_nat (length operands) - 2) / 3).

(** ["QLinearConcat", 1]. *)
Definition QLinearConcat (binder : OpBinder) : Rewriter LogicalResult :=
  match (operands <-? tensorOperandsList binder ;;
         axis <-? s64IntegerAttr binder "axis" 0 ;;
         resultType <-? tensorResultType binder ;;
         Some (operands, axis, resultType))%bnd with
  | None => ret failure
  | Some (operands, axis, resultType) =>
  '(inputs, inputScales, inputZeroPoints) <-
    collectConcatInputs (length operands) operands 2 [] [] [] ;;
  let numInputs := concatNumInputs operands in
  if negb (((length inputs =? length inputScales)%nat
            && (length inputScales =? length inputZeroPoints)%nat)
           && (Z.of_nat (length inputs) =? numInputs)) then
    ret (notifyMatchFailure
           "Incompatible number of input operands, scales and/or zero-points")
  else
  (* Preparing the dequantized inputs. *)
  r <- dequantizeConcatInputs (Z.to_nat numInputs) 0
         inputs inputScales inputZeroPoints [] ;;
  match r with
  | inl diag => ret diag
  | inr dequantizedInputs =>
  (* Concatenating the inputs. *)
  first <- at_ dequantizedInputs 0 ;;
  firstType <- castValueTensorType (getType first) ;;
  let listElemType := getWithSizesAndDtype firstType None None in
  let listType := ListType (ValueTensorTy listElemType) in
  tensorList <- create PrimListConstructOp listType dequantizedInputs ;;
  cstAxis <- createConstantInt axis ;;
  let concatTy := f32TensorLike resultType in
  concat <- create AtenCatOp concatTy [tensorList; cstAxis] ;;
  (* Quantizing the result of concatenated inputs. *)
  r <- extractAt operands 0 1 ;;
  match r with
  | None => ret (notifyMatchFailure
                   "Incompatible scale and zero-points argument for per-tensor quantization")
  | Some (yScale, yZp) =>
  quantizeAndReplace resultType concat yScale yZp
  end end end.

(** The kernel loop of ["QLinearGlobalAveragePool"]:
    [for (unsigned i = 2; i < inputRank; i++)], here over the input sizes
    from index [i] on.  [kernelSize] is an [int64_t]: the subtraction and
    the addition are written with their two's-complement wrap-around. *)
Fixpoint globalPoolKernel (dims : list Z) (i : nat) (resultShape : list Z)
    (x cstZero cstOne : Value) (cstKernel cstPadding cstStrides : list Value)
    : Rewriter (list Value * list Value * list Value) :=
  match dims with
  | [] => ret (cstKernel, cstPadding, cstStrides)
  | d :: rest =>
      k <- (if d =? kUnknownSize then
              dim <- createConstantInt (Z.of_nat i) ;;
              create AtenSizeIntOp IntType [x; dim]
            else
              r <- at_ resultShape i ;;
              let kernelSize := wrapS 64 (wrapS 64 (d - r) + 1) in
              createConstantInt kernelSize) ;;
      globalPoolKernel rest (S i) resultShape x cstZero cstOne
        (cstKernel ++ [k]) (cstPadding ++ [cstZero]) (cstStrides ++ [cstOne])
  end.

(** ["QLinearGlobalAveragePool", 1]. *)
Definition QLinearGlobalAveragePool (binder : OpBinder)
    : Rewriter LogicalResult :=
  match (operands <-? tensorOperands binder 5 ;;
         resultType <-? tensorResultType binder ;;
         channelsLast <-? s64IntegerAttr binder "channels_last" 0 ;;
         Some (operands, resultType, channelsLast))%bnd with
  | None => ret failure
  | Some (operands, resultType, channelsLast) =>
  (* TODO: Add support for channels_last attribute. *)
  if negb (channelsLast =? 0) then
    ret (notifyMatchFailure
           "Unimplemented: support not present for channels_last attribute")
  else
  operand0 <- at_ operands 0 ;;
  match dyn_castValueTensorType (getType operand0) with
  | None => ret (notifyMatchFailure
                   "Expected input argument `x` to have sizes")
  | Some xTy =>
  match getOptionalSizes xTy with
  | None => ret (notifyMatchFailure
                   "Expected input argument `x` to have sizes")
  | Some inputShape =>
  match getOptionalSizes resultType with
  | None => ret (notifyMatchFailure "Expected result type having sizes")
  | Some resultShape =>
  r <- extractAt operands 1 2 ;;
  match r with
  | None => ret (notifyMatchFailure
                   "Incompatible arguments for per-tensor quantization")
  | Some (xScale, xZp) =>
  r <- extractAt operands 3 4 ;;
  match r with
  | None => ret (notifyMatchFailure
                   "Incompatible arguments for per-tensor quantization")
  | Some (yScale, yZp) =>
  r <- dequantizeAt operands 0 xScale xZp ;;
  match r with
  | None => ret (notifyMatchFailure
                   "Failed to dequantize the input tensor `x` because of missing sizes")
  | Some x =>
  (* Computing the AvgPool result. *)
  cstZero <- createConstantInt 0 ;;
  cstOne <- createConstantInt 1 ;;
  let inputRank := length inputShape in
  '(cstKernel, cstPadding, cstStrides) <-
    globalPoolKernel (skipn 2 inputShape) 2 resultShape x cstZero cstOne
      [] [] [] ;;
  kernelSizeList <- create PrimListConstructOp listOfInt cstKernel ;;
  paddingList <- create PrimListConstructOp listOfInt cstPadding ;;
  stridesList <- create PrimListConstructOp listOfInt cstStrides ;;
  cstFalse <- createConstantBool false ;;
  let cstCeilMode := cstFalse in
  let cstCountIncludePad := cstFalse in
  cstNone <- createConstantNone ;;
  let yTy := ValueTensorTy (mkVTT (Some resultShape) (Some f32)) in
  if (inputRank =? 3)%nat then
    avgpool <- create AtenAvgPool1dOp yTy
                 [x; kernelSizeList; stridesList; paddingList; cstCeilMode;
                  cstCountIncludePad] ;;
    quantizeAndReplace resultType avgpool yScale yZp
  else if (inputRank =? 4)%nat then
    avgpool <- create AtenAvgPool2dOp yTy
                 [x; kernelSizeList; stridesList; paddingList; cstCeilMode;
                  cstCountIncludePad; cstNone] ;;
    quantizeAndReplace resultType avgpool yScale yZp
  else if (inputRank =? 5)%nat then
    avgpool <- create AtenAvgPool3dOp yTy
                 [x; kernelSizeList; stridesList; paddingList; cstCeilMode;
                  cstCountIncludePad; cstNone] ;;
    quantizeAndReplace resultType avgpool yScale yZp
  else
    ret failure
  end end end end end end end.

(** ["QLinearSigmoid", 1]. *)
Definition QLinearSigmoid (binder : OpBinder) : Rewriter LogicalResult :=
  match (operands <-? tensorOperandsList binder ;;
         resultType <-? tensorResultType binder ;;
         Some (operands, resultType))%bnd with
  | None => ret failure
  | Some (operands, resultType) =>
  if negb (length operands =? 5)%nat then
    ret (notifyMatchFailure "Unimplemented: expected 5 input operands")
  else
  r <- extractAt operands 1 2 ;;
  match r with
  | None => ret (notifyMatchFailure
                   "Incompatible arguments for per-tensor quantization")
  | Some (xScale, xZp) =>
  r <- extractAt operands 3 4 ;;
  match r with
  | None => ret (notifyMatchFailure
                   "Incompatible arguments for per-tensor quantization")
  | Some (yScale, yZp) =>
  r <- dequantizeAt operands 0 xScale xZp ;;
  match r with
  | None => ret (notifyMatchFailure
                   "Failed to dequantize the input tensor `x` because of missing sizes")
  | Some x =>
  (* Computing the Sigmoid result. *)
  let yTy := f32TensorLike resultType in
  y <- create AtenSigmoidOp yTy [x] ;;
  (* Quantizing the result of Sigmoid op. *)
  quantizeAndReplace resultType y yScale yZp
  end end end end.

(** ["QLinearAveragePool", 1]. *)
Definition QLinearAveragePool (binder : OpBinder) : Rewriter LogicalResult :=
  match (operands <-? tensorOperandsList binder ;;
         resultType <-? tensorResultType binder ;;
         channelsLast <-? s64IntegerAttr binder "channels_last" 0 ;;
         Some (operands, resultType, channelsLast))%bnd with
  | None => ret failure
  | Some (operands, resultType, channelsLast) =>
  (* TODO: Add support for channels_last attribute. *)
  if negb (channelsLast =? 0) then
    ret (notifyMatchFailure
           "Unimplemented: support not present for channels_last attribute")
  else if negb (length operands =? 5)%nat then
    ret (notifyMatchFailure "Unimplemented: expected 5 input operands")
  else
  r <- extractAt operands 1 2 ;;
  match r with
  | None => ret (notifyMatchFailure
                   "Incompatible arguments for per-tensor quantization")
  | Some (xScale, xZp) =>
  r <- extractAt operands 3 4 ;;
  match r with
  | None => ret (notifyMatchFailure
                   "Incompatible arguments for per-tensor quantization")
  | Some (yScale, yZp) =>
  r <- dequantizeAt operands 0 xScale xZp ;;
  match r with
  | None => ret (notifyMatchFailure
                   "Failed to dequantize the input tensor `x` because of missing sizes")
  | Some x =>
  (* Creating Onnx.AveragePool op. *)
  let newOperands := [x] in
  let newAttributes :=
    ("name", StringAttr "onnx.AveragePool")
      :: filter (fun namedAttr => negb (String.eqb (fst namedAttr) "name"))
                (attrDictionary binder) in
  let yTy := f32TensorLike resultType in
  averagePool <- createOp OperatorOp yTy newOperands newAttributes
                   (numRegions binder) ;;
  (* Quantizing the result of AveragePool op. *)
  quantizeAndReplace resultType averagePool yScale yZp
  end end end end.

(** The operands, attributes and result type bound by ["FusedMatMul"]. *)
Definition bindFusedMatMul (binder : OpBinder)
    : option (Value * Value * Z * Z * Z * Z * ValueTensorType) :=
  (operands <-? tensorOperands2 binder ;;
   transA <-? s64IntegerAttr binder "transA" 0 ;;
   transB <-? s64IntegerAttr binder "transB" 0 ;;
   transBatchA <-? s64IntegerAttr binder "transBatchA" 0 ;;
   transBatchB <-? s64IntegerAttr binder "transBatchB" 0 ;;
   resultType <-? tensorResultType binder ;;
   Some (operands, transA, transB, transBatchA, transBatchB,
         resultType))%bnd.

(** ["FusedMatMul", 1]. *)
Definition FusedMatMul (binder : OpBinder) : Rewriter LogicalResult :=
  match bindFusedMatMul binder with
  | None => ret failure
  | Some (lhs, rhs, transA, transB, transBatchA, transBatchB, resultType) =>
  (* Transposing the LHS argument. *)
  r <- (if negb (transA =? 0) then
          (* Determine the rank of lhs tensor. *)
          maybeRank <- getTensorRank lhs ;;
          match maybeRank with
          | None => ret (inl (notifyMatchFailure
                                "Unimplemented: unranked lhs tensor"))
          | Some lhsRank =>
              t <- runBuilder
                     (createTorchTransposeOp U lhs (wrapU 32 (lhsRank - 2))
                                             (wrapU 32 (lhsRank - 1))) ;;
              match t with
              | None => ret (inl (notifyMatchFailure
                                    "Failed to create TorchTranspose op for lhs"))
              | Some transposedLhs => ret (inr transposedLhs)
              end
          end
        else ret (inr lhs)) ;;
  match r with
  | inl diag => ret diag
  | inr transposedLhs =>
  (* Transposing the RHS argument. *)
  r <- (if negb (transB =? 0) then
          maybeRank <- getTensorRank rhs ;;
          match maybeRank with
          | None => ret (inl (notifyMatchFailure
                                "Unimplemented: unranked rhs tensor"))
          | Some rhsRank =>
              t <- runBuilder
                     (createTorchTransposeOp U rhs (wrapU 32 (rhsRank - 2))
                                             (wrapU 32 (rhsRank - 1))) ;;
              match t with
              | None => ret (inl (notifyMatchFailure
                                    "Failed to create TorchTranspose op for rhs"))
              | Some transposedRhs => ret (inr transposedRhs)
              end
          end
        else ret (inr rhs)) ;;
  match r with
  | inl diag => ret diag
  | inr transposedRhs =>
  (* TODO: Add support for `transBatchA` and `transBatchB` attribute. *)
  if negb (transBatchA =? 0) || negb (transBatchB =? 0) then
    ret (notifyMatchFailure
           "Unimplemented: support not present for transBatchA and transBatchB attribute")
  else
  replaceOpWithNewOp AtenMatmulOp (ValueTensorTy resultType)
    [transposedLhs; transposedRhs] ;;;
  ret success
  end end end.

(** ["QLinearMul", 1]. *)
Definition QLinearMul (binder : OpBinder) : Rewriter LogicalResult :=
  match (operands <-? tensorOperandsList binder ;;
         resultType <-? tensorResultType binder ;;
         Some (operands, resultType))%bnd with
  | None => ret failure
  | Some (operands, resultType) =>
  if negb (length operands =? 8)%nat then
    ret (notifyMatchFailure "Unimplemented: expected 8 input operands")
  else
  r <- extractAt operands 1 2 ;;
  match r with
  | None => ret (notifyMatchFailure
                   "Incompatible arguments for per-tensor quantization")
  | Some (aScale, aZp) =>
  r <- extractAt operands 4 5 ;;
  match r with
  | None => ret (notifyMatchFailure
                   "Incompatible arguments for per-tensor quantization")
  | Some (bScale, bZp) =>
  r <- extractAt operands 6 7 ;;
  match r with
  | None => ret (notifyMatchFailure
                   "Incompatible arguments for per-tensor quantization")
  | Some (cScale, cZp) =>
  r <- dequantizeAt operands 0 aScale aZp ;;
  match r with
  | None => ret (notifyMatchFailure
                   "Failed to dequantize the input tensor `a` because of missing sizes")
  | Some a =>
  r <- dequantizeAt operands 3 bScale bZp ;;
  match r with
  | None => ret (notifyMatchFailure
                   "Failed to dequantize the input tensor `b` because of missing sizes")
  | Some b =>
  (* Computing the Mul result. *)
  let cTy := f32TensorLike resultType in
  c <- create AtenMulTensorOp cTy [a; b] ;;
  (* Quantizing the result of Mul operation. *)
  quantizeAndReplace resultType c cScale cZp
  end end end end end end.

(** [populateComMicrosoftDomain]: the rules in registration order, each
    under its operator name and minimum opset version. *)
Definition Rule : Type := OpBinder -> Rewriter LogicalResult.

Definition populateComMicrosoftDomain : list (string * Z * Rule) :=
  [ ("RotaryEmbedding", 1, RotaryEmbedding);
    ("GroupQueryAttention", 1, GroupQueryAttention);
    ("QLinearAdd", 1, QLinearAdd);
    ("QLinearLeakyRelu", 1, QLinearLeakyRelu);
    ("QLinearConcat", 1, QLinearConcat);
    ("QLinearGlobalAveragePool", 1, QLinearGlobalAveragePool);
    ("QLinearSigmoid", 1, QLinearSigmoid);
    ("QLinearAveragePool", 1, QLinearAveragePool);
    ("FusedMatMul", 1, FusedMatMul);
    ("QLinearMul", 1, QLinearMul) ].

End Rules.

(* --------------------------------------------------------------------- *)
(** ** A concrete instance of the helpers                                 *)
(* --------------------------------------------------------------------- *)

(** The sizes of a value when it is a tensor with sizes. *)
Definition sizesOf (v : Value) : option (list Z) :=
  match getType v with
  | ValueTensorTy t => getOptionalSizes t
  | _ => None
  end.

Definition dtypeOf (v : Value) : option Dtype :=
  match getType v with
  | ValueTensorTy t => getOptionalDtype t
  | _ => None
  end.

Definition resultAt (n : nat) (ty : Ty) : Value := mkValue (ResultOf n) ty.

(** The per-tensor check: every size of the scale or zero point is 1
    (rank 0, or a single element). *)
Definition isPerTensor (v : Value) : bool :=
  match sizesOf v with
  | Some sizes => forallb (fun d => d =? 1) sizes
  | None => false
  end.

(** Reading the scalar out of a per-tensor argument: a reshape to rank 0
    when the tensor has dimensions, then [AtenItemOp]. *)
Definition extractScalar (emptyList v : Value) (extractTy : Ty) (n : nat)
    : Value * list Operation :=
  match sizesOf v with
  | Some (_ :: _) =>
      let vTy := ValueTensorTy (mkVTT (Some []) (dtypeOf v)) in
      (resultAt (S n) extractTy,
       [mkOp AtenReshapeOp vTy [v; emptyList] [] 0;
        mkOp AtenItemOp extractTy [resultAt n vTy] [] 0])
  | _ => (resultAt n extractTy, [mkOp AtenItemOp extractTy [v] [] 0])
  end.

(** Modelled from the spec: [extractPerTensorQuantizationArguments], whose
    definition is missing.  The scale and the zero point must be rank-0 or
    single-element tensors, otherwise the helper fails; on success it
    yields the scale as a float scalar and the zero point as an integer
    scalar. *)
Definition spec_extractPerTensorQuantizationArguments
    (inScale inZeroPoint : Value) : Builder (option (Value * Value)) :=
  fun n =>
    if isPerTensor inScale && isPerTensor inZeroPoint then
      let emptyList := resultAt n listOfInt in
      let '(outScale, ops1) :=
        extractScalar emptyList inScale FloatType (S n) in
      let '(outZeroPoint, ops2) :=
        extractScalar emptyList inZeroPoint IntType (S n + length ops1) in
      Some (Some (outScale, outZeroPoint),
            mkOp PrimListConstructOp listOfInt [] [] 0 :: ops1 ++ ops2)
    else Some (None, []).

(** Modelled from the spec: [getQTorchTypeFromTorchIntType], whose
    definition is missing: the quantized counterpart of an integer tensor
    type, used for "the target bit-width and signedness taken from the
    declared result type". *)
Definition spec_getQTorchTypeFromTorchIntType (t : ValueTensorType)
    : option ValueTensorType :=
  match getOptionalDtype t with
  | None => None
  | Some d =>
      let q := match d with
               | UnsignedInt 8 => QUInt8Type
               | SignedInt 8 => QInt8Type
               | SignedInt 16 => QInt16Type
               | SignedInt 32 => QInt32Type
               | _ => d
               end in
      Some (mkVTT (getOptionalSizes t) (Some q))
  end.

(** Modelled from the spec: [createDequantizeTensor], whose definition is
    missing.  It fails on an input without sizes ("because of missing
    sizes") and otherwise creates the dequantization of the input to a
    32-bit float tensor of the same sizes. *)
Definition spec_createDequantizeTensor (input scale zeroPoint : Value)
    : Builder (option Value) :=
  fun n =>
    match getType input with
    | ValueTensorTy inputTy =>
        match getOptionalSizes inputTy,
              spec_getQTorchTypeFromTorchIntType inputTy with
        | Some sizes, Some makeTensorTy =>
            let q := resultAt n (ValueTensorTy makeTensorTy) in
            let resultTy := ValueTensorTy (mkVTT (Some sizes) (Some f32)) in
            Some (Some (resultAt (S n) resultTy),
                  [mkOp Aten_MakePerTensorQuantizedTensorOp
                        (ValueTensorTy makeTensorTy)
                        [input; scale; zeroPoint] [] 0;
                   mkOp AtenDequantizeSelfOp resultTy [q] [] 0])
        | Some _, None => None
        | None, _ => Some (None, [])
        end
    | _ => Some (None, [])
    end.

(** Swapping two positions of a size list; a position out of range has no
    defined result. *)
Definition swapSizes (sizes : list Z) (a b : nat) : option (list Z) :=
  match nth_error sizes a, nth_error sizes b with
  | Some va, Some vb =>
      Some (map (fun p => if (fst p =? a)%nat then vb
                          else if (fst p =? b)%nat then va
                          else snd p)
                (combine (seq 0 (length sizes)) sizes))
  | _, _ => None
  end.

(** Modelled from the spec: [createTorchTransposeOp], whose definition is
    missing: "transpose the last two dimensions of either operand" is the
    transposition of dimensions [dimA] and [dimB] of the input. *)
Definition spec_createTorchTransposeOp (input : Value) (dimA dimB : Z)
    : Builder (option Value) :=
  fun n =>
    match getType input with
    | ValueTensorTy inTy =>
        match getOptionalSizes inTy with
        | None => Some (None, [])
        | Some sizes =>
            match swapSizes sizes (Z.to_nat dimA) (Z.to_nat dimB) with
            | None => None
            | Some swapped =>
                let ty := ValueTensorTy
                            (mkVTT (Some swapped) (getOptionalDtype inTy)) in
                Some (Some (resultAt (S (S n)) ty),
                      [mkOp ConstantIntOp IntType []
                            [("value", getI64IntegerAttr dimA)] 0;
                       mkOp ConstantIntOp IntType []
                            [("value", getI64IntegerAttr dimB)] 0;
                       mkOp AtenTransposeIntOp ty
                            [input; resultAt n IntType;
                             resultAt (S n) IntType] [] 0])
            end
        end
    | _ => None
    end.

(** Modelled from the spec: [Torch::getScalarTypeForType], whose
    definition is missing; the numbering of [torch_upstream::ScalarType]. *)
Definition spec_getScalarTypeForType (d : Dtype) : Z :=
  match d with
  | UnsignedInt 8 => 0
  | SignedInt 8 => 1
  | SignedInt 16 => 2
  | SignedInt 32 => 3
  | SignedInt 64 => 4
  | FloatTy 16 => 5
  | FloatTy 32 => 6
  | FloatTy 64 => 7
  | SignlessInt 1 => 11
  | QInt8Type => 12
  | QUInt8Type => 13
  | QInt32Type => 14
  | _ => -1
  end.

Definition specUtils : Utils :=
  mkUtils spec_extractPerTensorQuantizationArguments
          spec_createDequantizeTensor
          spec_createTorchTransposeOp
          spec_getQTorchTypeFromTorchIntType
          spec_getScalarTypeForType.

(** Tensor types used in examples. *)
Definition tensorTy (sizes : list Z) (d : Dtype) : Ty :=
  ValueTensorTy (mkVTT (Some sizes) (Some d)).

Definition s64Attr (name : string) (v : Z) : NamedAttribute :=
  (("torch.onnx." ++ name)%string, IntegerAttr (SignedInt 64) v).

(* ===================================================================== *)
(** * Part III. What the created integer operations compute               *)
(* ===================================================================== *)

(** The rotary position ids of ["GroupQueryAttention"] are computed by
    operations the rule creates.  Their meaning is that of the PyTorch
    operators they denote; a tensor of 64-bit integers (booleans as 0 and
    1) is its shape together with its elements by index. *)
Record Tensor : Type := mkTensor {
  shape : list Z;
  elem : list Z -> Z
}.

Definition numel (sizes : list Z) : Z := fold_right Z.mul 1 sizes.

(** Row-major position of an index, and the index at a position. *)
Definition flatten (sizes idx : list Z) : Z :=
  fold_left (fun acc p => acc * fst p + snd p) (combine sizes idx) 0.

Definition unflatten (sizes : list Z) (k : Z) : list Z :=
  snd (fold_right (fun d p => (fst p / d, (fst p mod d) :: snd p))
                  (k, []) sizes).

(** Broadcasting of two shapes, aligned at the last dimension. *)
Definition broadcastDim (a b : Z) : option Z :=
  if b =? 1 then Some a
  else if a =? 1 then Some b
  else if a =? b then Some a
  else None.

Fixpoint broadcastRev (a b : list Z) : option (list Z) :=
  match a, b with
  | [], _ => Some b
  | _, [] => Some a
  | x :: a', y :: b' =>
      match broadcastDim x y, broadcastRev a' b' with
      | Some d, Some r => Some (d :: r)
      | _, _ => None
      end
  end.

Definition broadcastShapes (a b : list Z) : option (list Z) :=
  option_map (@rev Z) (broadcastRev (rev a) (rev b)).

(** The index into an operand of shape [sizes] for an index of the
    broadcast result. *)
Definition bindex (sizes idx : list Z) : list Z :=
  map (fun p => if fst p =? 1 then 0 else snd p)
      (combine sizes (skipn (length idx - length sizes) idx)).

Definition broadcast2 (f : Z -> Z -> Z) (a b : Tensor) : option Tensor :=
  match broadcastShapes (shape a) (shape b) with
  | Some s =>
      Some (mkTensor s (fun idx => f (elem a (bindex (shape a) idx))
                                     (elem b (bindex (shape b) idx))))
  | None => None
  end.

(** [torch.zeros(size)], [torch.full(size, v)], [torch.arange(n)],
    [torch.tensor(data)]. *)
Definition zerosT (size : list Z) : Tensor := mkTensor size (fun _ => 0).
Definition fullT (size : list Z) (v : Z) : Tensor := mkTensor size (fun _ => v).
Definition arangeT (n : Z) : Tensor := mkTensor [n] (fun idx => hd 0 idx).
Definition tensorT (data : list Z) : Tensor :=
  mkTensor [Z.of_nat (length data)]
           (fun idx => nth (Z.to_nat (hd 0 idx)) data 0).

(** [t.item()]: the single element of a one-element tensor. *)
Definition itemT (t : Tensor) : option Z :=
  if numel (shape t) =? 1 then Some (elem t (map (fun _ => 0) (shape t)))
  else None.

(** [t + other * alpha] and [t - other * alpha] with a scalar. *)
Definition addScalarT (t : Tensor) (other alpha : Z) : Tensor :=
  mkTensor (shape t) (fun idx => wrapS 64 (elem t idx + other * alpha)).
Definition subScalarT (t : Tensor) (other alpha : Z) : Tensor :=
  mkTensor (shape t) (fun idx => wrapS 64 (elem t idx - other * alpha)).

(** [a + alpha * b], [a < b], [torch.where(c, a, b)] with broadcasting. *)
Definition addTensorT (a b : Tensor) (alpha : Z) : option Tensor :=
  broadcast2 (fun x y => wrapS 64 (x + alpha * y)) a b.
Definition ltTensorT (a b : Tensor) : option Tensor :=
  broadcast2 (fun x y => if x <? y then 1 else 0) a b.
Definition whereT (c a b : Tensor) : option Tensor :=
  match broadcastShapes (shape a) (shape b) with
  | Some sab =>
      match broadcastShapes (shape c) sab with
      | Some s =>
          Some (mkTensor s
                  (fun idx => if elem c (bindex (shape c) idx) =? 0
                              then elem b (bindex (shape b) idx)
                              else elem a (bindex (shape a) idx)))
      | None => None
      end
  | None => None
  end.

(** [t.repeat(repeats)]: the shape is padded with leading ones to the
    length of [repeats] and multiplied dimension by dimension. *)
Definition repeatT (t : Tensor) (repeats : list Z) : option Tensor :=
  let pad := (length repeats - length (shape t))%nat in
  if (length (shape t) <=? length repeats)%nat then
    let padded := repeat 1 pad ++ shape t in
    Some (mkTensor
            (map (fun p => fst p * snd p) (combine padded repeats))
            (fun idx =>
               elem t (skipn pad (map (fun p => snd p mod fst p)
                                      (combine padded idx)))))
  else None.

(** The sizes of [t.view(sizes)] for a tensor of [n] elements: at most
    one size may be -1 and is inferred; the sizes must account for exactly
    [n] elements. *)
Definition inferViewSizes (sizes : list Z) (n : Z) : option (list Z) :=
  let known := filter (fun d => negb (d =? -1)) sizes in
  let p := numel known in
  if existsb (fun d => d <? 0) known then None
  else match (length sizes - length known)%nat with
       | O => if p =? n then Some sizes else None
       | S O => if negb (p =? 0) && (n mod p =? 0)
                then Some (map (fun d => if d =? -1 then n / p else d) sizes)
                else None
       | _ => None
       end.

Definition viewT (t : Tensor) (sizes : list Z) : option Tensor :=
  match inferViewSizes sizes (numel (shape t)) with
  | Some s =>
      Some (mkTensor s (fun idx => elem t (unflatten (shape t) (flatten s idx))))
  | None => None
  end.

(** Run-time values.  [ROpaque] stands for the value of an operation this
    model gives no meaning to (floating-point tensors, attention). *)
Inductive RtValue : Type :=
| RInt (z : Z)
| RBool (b : bool)
| RNone
| RIntList (l : list Z)
| RTensor (t : Tensor)
| ROpaque.

(** The result of evaluating an operation: [None] is a run-time error. *)
Definition Evaluated : Type := option RtValue.

Definition isError (v : Evaluated) : bool :=
  match v with None => true | Some _ => false end.

Fixpoint asIntList (args : list Evaluated) : option (list Z) :=
  match args with
  | [] => Some []
  | Some (RInt z) :: rest => option_map (cons z) (asIntList rest)
  | _ => None
  end.

Definition ofTensor (t : option Tensor) : Evaluated := option_map RTensor t.

(** The meaning of one operation, given the values of its operands. *)
Definition evalOp (op : Operation) (args : list Evaluated) : Evaluated :=
  if existsb isError args then None else
  match opName op with
  | ConstantIntOp =>
      match getAttr "value" (opAttrs op) with
      | Some (IntegerAttr _ v) => Some (RInt v)
      | _ => Some ROpaque
      end
  | ConstantBoolOp =>
      match getAttr "value" (opAttrs op) with
      | Some (BoolAttr v) => Some (RBool v)
      | _ => Some ROpaque
      end
  | ConstantNoneOp => Some RNone
  | PrimListConstructOp =>
      match asIntList args with
      | Some l => Some (RIntList l)
      | None => Some ROpaque
      end
  | AtenItemOp =>
      match args with
      | [Some (RTensor t)] => option_map RInt (itemT t)
      | _ => Some ROpaque
      end
  | AtenGtIntOp =>
      match args with
      | [Some (RInt a); Some (RInt b)] => Some (RBool (a >? b))
      | _ => Some ROpaque
      end
  | AtenNeIntOp =>
      match args with
      | [Some (RInt a); Some (RInt b)] => Some (RBool (negb (a =? b)))
      | _ => Some ROpaque
      end
  | Aten__And__BoolOp =>
      match args with
      | [Some (RBool a); Some (RBool b)] => Some (RBool (a && b))
      | _ => Some ROpaque
      end
  | AtenIntBoolOp =>
      match args with
      | [Some (RBool a)] => Some (RInt (if a then 1 else 0))
      | _ => Some ROpaque
      end
  | AtenZerosOp =>
      match args with
      | Some (RIntList size) :: _ => Some (RTensor (zerosT size))
      | _ => Some ROpaque
      end
  | AtenFullOp =>
      match args with
      | Some (RIntList size) :: Some (RInt v) :: Some (RInt dtype) :: _ =>
          Some (RTensor (fullT size (if dtype =? ScalarType_Bool
                                     then (if v =? 0 then 0 else 1)
                                     else v)))
      | _ => Some ROpaque
      end
  | AtenArangeOp =>
      match args with
      | Some (RInt n) :: _ => Some (RTensor (arangeT n))
      | _ => Some ROpaque
      end
  | AtenTensorOp =>
      match args with
      | Some (RIntList data) :: _ => Some (RTensor (tensorT data))
      | _ => Some ROpaque
      end
  | AtenToDtypeOp =>
      match args with
      | Some (RTensor t) :: Some (RInt dtype) :: _ =>
          if dtype =? ScalarType_Long then Some (RTensor t) else Some ROpaque
      | _ => Some ROpaque
      end
  | AtenAddScalarOp =>
      match args with
      | [Some (RTensor t); Some (RInt other); Some (RInt alpha)] =>
          Some (RTensor (addScalarT t other alpha))
      | _ => Some ROpaque
      end
  | AtenSubScalarOp =>
      match args with
      | [Some (RTensor t); Some (RInt other); Some (RInt alpha)] =>
          Some (RTensor (subScalarT t other alpha))
      | _ => Some ROpaque
      end
  | AtenRepeatOp =>
      match args with
      | [Some (RTensor t); Some (RIntList repeats)] =>
          ofTensor (repeatT t repeats)
      | _ => Some ROpaque
      end
  | AtenViewOp =>
      match args with
      | [Some (RTensor t); Some (RIntList sizes)] => ofTensor (viewT t sizes)
      | _ => Some ROpaque
      end
  | AtenAddTensorOp =>
      match args with
      | [Some (RTensor a); Some (RTensor b); Some (RInt alpha)] =>
          ofTensor (addTensorT a b alpha)
      | _ => Some ROpaque
      end
  | AtenLtTensorOp =>
      match args with
      | [Some (RTensor a); Some (RTensor b)] => ofTensor (ltTensorT a b)
      | _ => Some ROpaque
      end
  | AtenWhereSelfOp =>
      match args with
      | [Some (RTensor c); Some (RTensor a); Some (RTensor b)] =>
          ofTensor (whereT c a b)
      | _ => Some ROpaque
      end
  | _ => Some ROpaque
  end.

(** The values of the operands of the rewritten operation, and of the
    results of the operations created so far. *)
Definition lookupValue (operandValues : nat -> Evaluated)
    (results : list Evaluated) (v : Value) : Evaluated :=
  match valueDef v with
  | OperandOf i => operandValues i
  | ResultOf n => nth n results None
  end.

(** Evaluation of the created operations in creation order. *)
Definition evalOps (operandValues : nat -> Evaluated)
    (ops : list Operation) : list Evaluated :=
  fold_left
    (fun results op =>
       results
         ++ [evalOp op (map (lookupValue operandValues results)
                            (opOperands op))])
    ops [].

(** The first created operation of a given kind. *)
Definition findOp (name : OpName) (ops : list Operation) : option Operation :=
  find (fun op => OpName_eqb (opName op) name) ops.

(** The value of operand [i] of the first created operation of a kind. *)
Definition operandValueOf (operandValues : nat -> Evaluated)
    (ops : list Operation) (name : OpName) (i : nat) : Evaluated :=
  match findOp name ops with
  | Some op =>
      match nth_error (opOperands op) i with
      | Some v => lookupValue operandValues (evalOps operandValues ops) v
      | None => None
      end
  | None => None
  end.

(** The position ids handed to the rotary embedding: operand 1 of the
    first [OnnxVariantRotaryEmbeddingOp]. *)
Definition positionIdsValue (operandValues : nat -> Evaluated)
    (ops : list Operation) : Evaluated :=
  operandValueOf operandValues ops OnnxVariantRotaryEmbeddingOp 1.

(** The "continuation" predicate: the scalar filled into the boolean
    tensor of the final select, operand 0 of [AtenIntBoolOp]. *)
Definition isSubsequentPromptValue (operandValues : nat -> Evaluated)
    (ops : list Operation) : Evaluated :=
  operandValueOf operandValues ops AtenIntBoolOp 0.

(** Run-time operands of ["GroupQueryAttention"]: [seqlens_k] (operand 5)
    and [total_sequence_length] (operand 6) are integer tensors, the other
    operands are floating-point tensors. *)
Definition gqaOperandValues (seqlensK : list Z) (totalSequenceLength : Z)
    : nat -> Evaluated :=
  fun i =>
    match i with
    | 5%nat => Some (RTensor (tensorT seqlensK))
    | 6%nat => Some (RTensor (mkTensor [] (fun _ => totalSequenceLength)))
    | _ => Some ROpaque
    end.

(** A tensor as the list of its rows (rank 2). *)
Definition rows (t : Tensor) : list (list Z) :=
  match shape t with
  | [b; s] =>
      map (fun i => map (fun j => elem t [Z.of_nat i; Z.of_nat j])
                        (seq 0 (Z.to_nat s)))
          (seq 0 (Z.to_nat b))
  | _ => []
  end.

(* ===================================================================== *)
(** * Part IV. The quantization numeric contract                          *)
(* ===================================================================== *)

(** Modelled from the spec: the numeric contract of the quantized rules.
    The dequantization and requantization themselves are carried out by
    the operations the rules create ([createDequantizeTensor],
    [AtenQuantizePerTensorOp]), whose definitions are not part of the
    sources at hand; the contract is stated over exact rationals.

    [dequantize(raw, scale, zero_point) = (raw - zero_point) * scale]. *)
Definition dequantize (raw : Z) (scale : Q) (zero_point : Z) : Q :=
  (inject_Z (raw - zero_point) * scale)%Q.

(** Modelled from the spec: [round], to the nearest integer, a tie going
    to the even neighbour. *)
Definition round (v : Q) : Z :=
  let f := Qfloor v in
  match Qcompare (v - inject_Z f) (1 # 2) with
  | Lt => f
  | Gt => f + 1
  | Eq => if Z.even f then f else f + 1
  end.

(** Modelled from the spec: the representable range of a target dtype. *)
Definition dtypeRange (dtype : Dtype) : option (Z * Z) :=
  match dtype with
  | QInt8Type | SignedInt 8 => Some (-128, 127)
  | QUInt8Type | UnsignedInt 8 => Some (0, 255)
  | QInt16Type | SignedInt 16 => Some (-32768, 32767)
  | QInt32Type | SignedInt 32 => Some (-2147483648, 2147483647)
  | _ => None
  end.

Definition representable (dtype : Dtype) (raw : Z) : Prop :=
  match dtypeRange dtype with
  | Some (lo, hi) => lo <= raw <= hi
  | None => False
  end.

(** Modelled from the spec: [clamp_to(dtype)]. *)
Definition clamp_to (dtype : Dtype) (x : Z) : Z :=
  match dtypeRange dtype with
  | Some (lo, hi) => Z.max lo (Z.min hi x)
  | None => x
  end.

(** Modelled from the spec: [quantize(value, scale, zero_point, dtype) =
    clamp_to(dtype)(round(value / scale) + zero_point)]. *)
Definition quantize (value : Q) (scale : Q) (zero_point : Z) (dtype : Dtype)
    : Z :=
  clamp_to dtype (round (value / scale) + zero_point).

(* ===================================================================== *)
(** * Part V. The finalizing backend type conversion pass                 *)
(* ===================================================================== *)

Module BackendTypeConversion.

(** Types at the boundary between the Torch dialect and the backend. *)
Inductive Type_ : Type :=
| TorchValueTensorType
| TorchBoolType
| TorchIntType
| TorchFloatType
| TorchGeneratorType
| BuiltinTensorType
| IntegerType (width : Z)
| FloatType (width : Z)
| OpaqueType (name : string).

Definition Type_eq_dec (a b : Type_) : {a = b} + {a <> b}.
Proof. decide equality; try apply Z.eq_dec; apply string_dec. Defined.

Definition Type_eqb (a b : Type_) : bool :=
  if Type_eq_dec a b then true else false.

(** Operations: the materializations of [TorchConversionOps], the two
    floating-point conversions the cleanup pattern looks at, and any
    other operation by name. *)
Inductive OperationName : Type :=
| ToBuiltinTensorOp | FromBuiltinTensorOp
| FromI1Op | ToI1Op
| FromI64Op | ToI64Op
| FromF64Op | ToF64Op
| I64ToGeneratorOp | GeneratorToI64Op
| ExtFOp | TruncFOp
| OtherOp (name : string).

Definition OperationName_eq_dec (a b : OperationName) : {a = b} + {a <> b}.
Proof. decide equality; apply string_dec. Defined.

Definition OperationName_eqb (a b : OperationName) : bool :=
  if OperationName_eq_dec a b then true else false.

Inductive ValueDef : Type :=
| BlockArgument (index : nat)
| OpResult (opId : nat) (resultIndex : nat).

Record Value : Type := mkValue {
  valueDef : ValueDef;
  getType : Type_
}.

Definition ValueDef_eqb (a b : ValueDef) : bool :=
  match a, b with
  | BlockArgument i, BlockArgument j => (i =? j)%nat
  | OpResult i k, OpResult j l => (i =? j)%nat && (k =? l)%nat
  | _, _ => false
  end.

Record Operation : Type := mkOperation {
  opId : nat;
  opName : OperationName;
  opOperands : list Value;
  opResultTypes : list Type_
}.

(** A function: its attribute dictionary and the operations of its body
    in order. *)
Record FuncOp : Type := mkFunc {
  funcAttrs : list (string * string);
  funcBody : list Operation
}.

(** [value.getDefiningOp()]. *)
Definition getDefiningOp (func : FuncOp) (v : Value) : option Operation :=
  match valueDef v with
  | OpResult id _ => find (fun op => (opId op =? id)%nat) (funcBody func)
  | BlockArgument _ => None
  end.

(** ** Type converter and conversion target *)

(** A [TypeConverter]: its conversion callbacks, the most recently added
    first. *)
Record TypeConverter : Type := mkTypeConverter {
  conversions : list (Type_ -> option Type_)
}.

Definition addConversion (f : Type_ -> option Type_) (tc : TypeConverter)
    : TypeConverter :=
  mkTypeConverter (f :: conversions tc).

Fixpoint tryConversions (fs : list (Type_ -> option Type_)) (t : Type_)
    : option Type_ :=
  match fs with
  | [] => None
  | f :: rest =>
      match f t with
      | Some t' => Some t'
      | None => tryConversions rest t
      end
  end.

Definition convertType (tc : TypeConverter) (t : Type_) : option Type_ :=
  tryConversions (conversions tc) t.

(** [typeConverter.isLegal(type)]: the type converts to itself. *)
Definition isLegalType (tc : TypeConverter) (t : Type_) : bool :=
  match convertType tc t with
  | Some t' => Type_eqb t' t
  | None => false
  end.

(** [typeConverter.isLegal(op)]: all operand and result types are legal. *)
Definition isLegalOp (tc : TypeConverter) (op : Operation) : bool :=
  forallb (fun v => isLegalType tc (getType v)) (opOperands op)
  && forallb (isLegalType tc) (opResultTypes op).

Inductive LegalizationAction : Type :=
| Legal
| Dynamic (callback : Operation -> bool)
| Illegal.

(** A [ConversionTarget]: the actions set for operations by name, the
    most recently set first, and the callback for unknown operations. *)
Record ConversionTarget : Type := mkTarget {
  opActions : list (OperationName * LegalizationAction);
  unknownOpLegality : option (Operation -> bool)
}.

Definition emptyTarget : ConversionTarget := mkTarget [] None.

Definition setOpAction (name : OperationName) (a : LegalizationAction)
    (target : ConversionTarget) : ConversionTarget :=
  mkTarget ((name, a) :: opActions target) (unknownOpLegality target).

Definition addLegalOp (name : OperationName) := setOpAction name Legal.
Definition addIllegalOp (name : OperationName) := setOpAction name Illegal.

Definition markUnknownOpDynamicallyLegal (f : Operation -> bool)
    (target : ConversionTarget) : ConversionTarget :=
  mkTarget (opActions target) (Some f).

Fixpoint lookupAction (name : OperationName)
    (actions : list (OperationName * LegalizationAction))
    : option LegalizationAction :=
  match actions with
  | [] => None
  | (n, a) :: rest =>
      if OperationName_eqb n name then Some a else lookupAction name rest
  end.

Definition getOpAction (target : ConversionTarget) (name : OperationName)
    : option LegalizationAction :=
  lookupAction name (opActions target).

(** [target.isLegal(op)]; an operation with no action and no callback for
    unknown operations is not legal. *)
Definition isLegal (target : ConversionTarget) (op : Operation) : bool :=
  match getOpAction target (opName op) with
  | Some Legal => true
  | Some (Dynamic f) => f op
  | Some Illegal => false
  | None =>
      match unknownOpLegality target with
      | Some f => f op
      | None => false
      end
  end.

(** ** Patterns *)

(** The outcome of [matchAndRewrite]: the matched operation is replaced
    by values, or the pattern does not apply; [Undefined] is C++ behaviour
    without a defined result. *)
Inductive PatternResult : Type :=
| ReplaceOp (values : list Value)
| MatchFailure
| Undefined.

(** A pattern rooted at an operation name; [matchAndRewrite] is given the
    function, the matched operation and its (remapped) operands. *)
Record RewritePattern : Type := mkPattern {
  rootName : OperationName;
  matchAndRewrite : FuncOp -> Operation -> list Value -> PatternResult
}.

(** [ExtFTruncFPattern::matchAndRewrite]. *)
Definition ExtFTruncFPattern_matchAndRewrite (func : FuncOp)
    (truncf : Operation) (_ : list Value) : PatternResult :=
  match opOperands truncf, opResultTypes truncf with
  | [operand], [truncfType] =>
      match getDefiningOp func operand with
      | Some extf =>
          if OperationName_eqb (opName extf) ExtFOp then
            match opOperands extf with
            | [parentOperand] =>
                if negb (Type_eqb truncfType (getType parentOperand)) then
                  MatchFailure
                else ReplaceOp [parentOperand]
            | _ => Undefined
            end
          else MatchFailure
      | None => MatchFailure
      end
  | _, _ => Undefined
  end.

Definition ExtFTruncFPattern : RewritePattern :=
  mkPattern TruncFOp ExtFTruncFPattern_matchAndRewrite.

(** [FinalizeMaterialization<OpTy>::matchAndRewrite]:
    [rewriter.replaceOp(op, adaptor.getOperands()[0])]. *)
Definition FinalizeMaterialization_matchAndRewrite (_ : FuncOp)
    (op : Operation) (adaptorOperands : list Value) : PatternResult :=
  match adaptorOperands with
  | v :: _ => ReplaceOp [v]
  | [] => Undefined
  end.

Definition FinalizeMaterialization (name : OperationName) : RewritePattern :=
  mkPattern name FinalizeMaterialization_matchAndRewrite.

(** [setupFinalization<OpTy, OpTys...>(target, patterns, typeConverter)],
    the variadic recursion taken over the list of operation names. *)
Fixpoint setupFinalization (names : list OperationName)
    (target : ConversionTarget) (patterns : list RewritePattern)
    : ConversionTarget * list RewritePattern :=
  match names with
  | [] => (target, patterns)
  | name :: rest =>
      setupFinalization rest (addIllegalOp name target)
        (patterns ++ [FinalizeMaterialization name])
  end.

(** The materializations finalized by the pass. *)
Definition materializationOps : list OperationName :=
  [ToBuiltinTensorOp; FromBuiltinTensorOp; FromI1Op; ToI1Op; FromI64Op;
   ToI64Op; FromF64Op; ToF64Op; I64ToGeneratorOp; GeneratorToI64Op].

Definition isMaterialization (op : Operation) : bool :=
  existsb (OperationName_eqb (opName op)) materializationOps.

(** [stripTorchAttrs]. Dialect attributes are those whose name has a
    dialect prefix, that is, contains a dot. *)
Fixpoint contains_dot (s : string) : bool :=
  match s with
  | EmptyString => false
  | String c rest => Ascii.eqb c "."%char || contains_dot rest
  end.

Definition isDialectAttr (attr : string * string) : bool :=
  contains_dot (fst attr).

Definition getDialectAttrs (func : FuncOp) : list (string * string) :=
  filter isDialectAttr (funcAttrs func).

(** [func->setDialectAttrs(attrs)]: the dialect attributes are replaced,
    the other attributes are kept. *)
Definition setDialectAttrs (attrs : list (string * string)) (func : FuncOp)
    : FuncOp :=
  mkFunc (attrs ++ filter (fun a => negb (isDialectAttr a)) (funcAttrs func))
         (funcBody func).

Definition starts_with (prefix s : string) : bool := String.prefix prefix s.

Fixpoint stripLoop (attrs : list (string * string)) (modified : bool)
    (newAttrs : list (string * string)) : bool * list (string * string) :=
  match attrs with
  | [] => (modified, newAttrs)
  | attr :: rest =>
      if starts_with "torch." (fst attr) then stripLoop rest true newAttrs
      else stripLoop rest modified (newAttrs ++ [attr])
  end.

Definition stripTorchAttrs (func : FuncOp) : FuncOp :=
  let '(modified, newAttrs) := stripLoop (getDialectAttrs func) false [] in
  if modified then setDialectAttrs newAttrs func else func.

(** ** The pass *)

Record PassResult : Type := mkPassResult {
  passFailed : bool;
  resultFunc : FuncOp
}.

Section Pass.

(** The conversion drivers belong to the MLIR framework and
    [setupBackendTypeConversion] to a file that is not part of the sources
    at hand; the pass is defined over them. *)
Variable setupBackendTypeConversion :
  ConversionTarget -> TypeConverter -> ConversionTarget * TypeConverter.
Variable applyFullConversion :
  FuncOp -> ConversionTarget -> list RewritePattern -> LogicalResult * FuncOp.
Variable applyPatternsGreedily :
  FuncOp -> list RewritePattern -> LogicalResult * FuncOp.

(** The first part of [FinalizingBackendTypeConversionPass::runOnOperation]:
    the type converter, the conversion target and the patterns. *)
Definition finalizingSetup
    : TypeConverter * ConversionTarget * list RewritePattern :=
  let typeConverter := mkTypeConverter [] in
  let patterns := [] in
  let target := emptyTarget in
  let typeConverter := addConversion (fun t => Some t) typeConverter in
  let '(target, typeConverter) :=
    setupBackendTypeConversion target typeConverter in
  (* Mark materializations as illegal in this pass (since we are
     finalizing) and add patterns that eliminate them. *)
  let '(target, patterns) :=
    setupFinalization materializationOps target patterns in
  let target :=
    markUnknownOpDynamicallyLegal (fun op => isLegalOp typeConverter op)
                                  target in
  (typeConverter, target, patterns).

Definition finalizingTarget : ConversionTarget := snd (fst finalizingSetup).
Definition finalizingPatterns : list RewritePattern := snd finalizingSetup.

(** The function as [applyFullConversion] leaves it. *)
Definition convertedFunc (func : FuncOp) : FuncOp :=
  snd (applyFullConversion func finalizingTarget finalizingPatterns).

(** [FinalizingBackendTypeConversionPass::runOnOperation];
    [signalPassFailure()] sets [passFailed]. *)
Definition runOnOperation (func : FuncOp) : PassResult :=
  let '(typeConverter, target, patterns) := finalizingSetup in
  let '(r, func) := applyFullConversion func target patterns in
  let passFailed := failed r in
  let greedyPatterns := [ExtFTruncFPattern] in
  let '(r, func) := applyPatternsGreedily func greedyPatterns in
  let passFailed := passFailed || failed r in
  (* Drop attributes that are no longer used after conversion out of
     Torch. *)
  let func := stripTorchAttrs func in
  mkPassResult passFailed func.

End Pass.

Section StablehloPass.

Variable setupBackendTypeConversionForStablehlo :
  ConversionTarget -> TypeConverter -> ConversionTarget * TypeConverter.
Variable applyFullConversion :
  FuncOp -> ConversionTarget -> list RewritePattern -> LogicalResult * FuncOp.

(** [FinalizingBackendTypeConversionForStablehloPass::runOnOperation]: the
    same type converter, target and patterns over
    [setupBackendTypeConversionForStablehlo], the full conversion, and the
    stripping of the attributes; no cleanup of floating-point conversions. *)
Definition runOnOperationForStablehlo (func : FuncOp) : PassResult :=
  let '(typeConverter, target, patterns) :=
    finalizingSetup setupBackendTypeConversionForStablehlo in
  let '(r, func) := applyFullConversion func target patterns in
  let passFailed := failed r in
  (* Drop attributes that are no longer used after conversion out of
     Torch. *)
  let func := stripTorchAttrs func in
  mkPassResult passFailed func.

End StablehloPass.

(** ** Reference drivers *)

(** Replacement of values: a mapping from replaced definitions to the
    values that stand for them. *)
Definition Mapping : Type := list (ValueDef * Value).

Fixpoint remap (m : Mapping) (v : Value) : Value :=
  match m with
  | [] => v
  | (d, v') :: rest =>
      if ValueDef_eqb d (valueDef v) then v' else remap rest v
  end.

Definition remapOperands (m : Mapping) (op : Operation) : Operation :=
  mkOperation (opId op) (opName op) (map (remap m) (opOperands op))
              (opResultTypes op).

Definition resultsMapping (op : Operation) (values : list Value) : Mapping :=
  map (fun p => (OpResult (opId op) (fst p), snd p))
      (combine (seq 0 (length values)) values).

(** The first pattern rooted at the operation that rewrites it. *)
Fixpoint firstMatch (patterns : list RewritePattern) (func : FuncOp)
    (op : Operation) (operands : list Value) : option (list Value) :=
  match patterns with
  | [] => None
  | p :: rest =>
      if OperationName_eqb (rootName p) (opName op) then
        match matchAndRewrite p func op operands with
        | ReplaceOp values => Some values
        | _ => firstMatch rest func op operands
        end
      else firstMatch rest func op operands
  end.

Fixpoint convertOps (func : FuncOp) (target : ConversionTarget)
    (patterns : list RewritePattern) (ops : list Operation) (m : Mapping)
    (kept : list Operation) : option (list Operation * Mapping) :=
  match ops with
  | [] => Some (kept, m)
  | op :: rest =>
      if isLegal target op then
        convertOps func target patterns rest m (kept ++ [op])
      else
        match firstMatch patterns func op (map (remap m) (opOperands op)) with
        | Some values =>
            convertOps func target patterns rest
                       (m ++ resultsMapping op values) kept
        | None => None
        end
  end.

(** Modelled from the spec: the framework's full conversion.  Every
    operation that is not legal is rewritten by a pattern rooted at it;
    the conversion fails, leaving the function as it was, when an illegal
    operation has no applicable pattern or an operation is illegal in the
    outcome ("fails fatally if any operation remains illegal"). *)
Definition refApplyFullConversion (func : FuncOp) (target : ConversionTarget)
    (patterns : list RewritePattern) : LogicalResult * FuncOp :=
  match convertOps func target patterns (funcBody func) [] [] with
  | Some (kept, m) =>
      let body := map (remapOperands m) kept in
      if forallb (isLegal target) body
      then (success, mkFunc (funcAttrs func) body)
      else (failure, func)
  | None => (failure, func)
  end.

(** The first operation of the body that a pattern rewrites. *)
Fixpoint findRewrite (patterns : list RewritePattern) (func : FuncOp)
    (ops : list Operation) : option (Operation * list Value) :=
  match ops with
  | [] => None
  | op :: rest =>
      match firstMatch patterns func op (opOperands op) with
      | Some values => Some (op, values)
      | None => findRewrite patterns func rest
      end
  end.

Definition replaceInFunc (func : FuncOp) (op : Operation)
    (values : list Value) : FuncOp :=
  mkFunc (funcAttrs func)
         (map (remapOperands (resultsMapping op values))
              (filter (fun o => negb (opId o =? opId op)%nat)
                      (funcBody func))).

Fixpoint greedyLoop (fuel : nat) (patterns : list RewritePattern)
    (func : FuncOp) : FuncOp :=
  match fuel with
  | O => func
  | S fuel' =>
      match findRewrite patterns func (funcBody func) with
      | Some (op, values) =>
          greedyLoop fuel' patterns (replaceInFunc func op values)
      | None => func
      end
  end.

(** Modelled from the spec: the framework's greedy driver, applying the
    given patterns until none applies.  Each application erases the
    rewritten operation, so the length of the body bounds the number of
    applications. *)
Definition refApplyPatternsGreedily (func : FuncOp)
    (patterns : list RewritePattern) : LogicalResult * FuncOp :=
  (success, greedyLoop (length (funcBody func)) patterns func).

(** Modelled from the spec: [setupBackendTypeConversion] for the default
    backend, whose definition is missing: the primitive-type mapping from
    the Torch types to the builtin ones, with the materializations legal
    while conversion is partial. *)
Definition refSetupBackendTypeConversion (target : ConversionTarget)
    (typeConverter : TypeConverter) : ConversionTarget * TypeConverter :=
  (fold_left (fun t name => addLegalOp name t) materializationOps target,
   addConversion
     (fun t => match t with
               | TorchValueTensorType => Some BuiltinTensorType
               | TorchBoolType => Some (IntegerType 1)
               | TorchIntType => Some (IntegerType 64)
               | TorchFloatType => Some (FloatType 64)
               | TorchGeneratorType => Some (IntegerType 64)
               | _ => None
               end)
     typeConverter).

(** The pass over the reference drivers. *)
Definition refRunOnOperation : FuncOp -> PassResult :=
  runOnOperation refSetupBackendTypeConversion refApplyFullConversion
                 refApplyPatternsGreedily.

Definition refTarget : ConversionTarget :=
  finalizingTarget refSetupBackendTypeConversion.

(** ** Example functions and the claim about programs without
    materializations *)

Definition blockArg (i : nat) (t : Type_) : Value := mkValue (BlockArgument i) t.
Definition opResult (id : nat) (t : Type_) : Value := mkValue (OpResult id 0) t.

(** A widening followed by the narrowing back to the original type, and
    a use of the outcome; no materialization. *)
Definition widenThenNarrow : FuncOp :=
  mkFunc [("sym_name", "main")]
    [mkOperation 0 ExtFOp [blockArg 0 (FloatType 16)] [FloatType 32];
     mkOperation 1 TruncFOp [opResult 0 (FloatType 32)] [FloatType 16];
     mkOperation 2 (OtherOp "func.return") [opResult 1 (FloatType 16)] []].

(** A function of legal operations only, with a Torch attribute and two
    other attributes. *)
Definition legalFunc : FuncOp :=
  mkFunc [("torch.assume_strict_symbolic_shapes", "unit");
          ("sym_name", "main"); ("llvm.emit_c_interface", "unit")]
    [mkOperation 0 (OtherOp "arith.addf")
       [blockArg 0 (FloatType 32); blockArg 1 (FloatType 32)] [FloatType 32];
     mkOperation 1 (OtherOp "func.return") [opResult 0 (FloatType 32)] []].

(** A stranded materialization: a Torch operation whose result is still
    of a Torch type, bridged to a builtin tensor. *)
Definition strandedFunc : FuncOp :=
  mkFunc [("sym_name", "main")]
    [mkOperation 0 (OtherOp "torch.aten.relu")
       [blockArg 0 TorchValueTensorType] [TorchValueTensorType];
     mkOperation 1 ToBuiltinTensorOp [opResult 0 TorchValueTensorType]
       [BuiltinTensorType];
     mkOperation 2 (OtherOp "func.return") [opResult 1 BuiltinTensorType] []].

(** A widening to 64 bits followed by a narrowing to 16 bits of a 32-bit
    value: the narrowing does not return to the original type. *)
Definition widenThenNarrowFurther : FuncOp :=
  mkFunc [("sym_name", "main")]
    [mkOperation 0 ExtFOp [blockArg 0 (FloatType 32)] [FloatType 64];
     mkOperation 1 TruncFOp [opResult 0 (FloatType 64)] [FloatType 16];
     mkOperation 2 (OtherOp "func.return") [opResult 1 (FloatType 16)] []].

(** A function with attributes of the ["torch."] namespace, another
    dialect attribute and a plain attribute, and an operation of a Torch
    type. *)
Definition torchFunc : FuncOp :=
  mkFunc [("sym_name", "main"); ("torch.onnx_meta.ir_version", "8");
          ("llvm.emit_c_interface", "unit");
          ("torch.assume_strict_symbolic_shapes", "unit")]
    [mkOperation 0 (OtherOp "torch.aten.relu")
       [blockArg 0 TorchValueTensorType] [TorchValueTensorType];
     mkOperation 1 (OtherOp "func.return")
       [opResult 0 TorchValueTensorType] []].

(** A builtin tensor bridged to the Torch type and back. *)
Definition bridgedFunc : FuncOp :=
  mkFunc [("sym_name", "main")]
    [mkOperation 0 FromBuiltinTensorOp [blockArg 0 BuiltinTensorType]
       [TorchValueTensorType];
     mkOperation 1 ToBuiltinTensorOp [opResult 0 TorchValueTensorType]
       [BuiltinTensorType];
     mkOperation 2 (OtherOp "func.return") [opResult 1 BuiltinTensorType] []].

Definition noMaterializations (func : FuncOp) : bool :=
  forallb (fun op => negb (isMaterialization op)) (funcBody func).

Definition notTorchAttr (attr : string * string) : bool :=
  negb (starts_with "torch." (fst attr)).

(** The claim of the specification: on a function without
    materializations the pass succeeds and leaves the body as it is. *)
Definition bodyUnchangedClaim (func : FuncOp) : Prop :=
  noMaterializations func = true ->
  passFailed (refRunOnOperation func) = false
  /\ funcBody (resultFunc (refRunOnOperation func)) = funcBody func.

End BackendTypeConversion.

(* ===================================================================== *)
(** * Inspecting what a rule has created                                  *)
(* ===================================================================== *)

(** The operation defining a created value. *)
Definition definingOp (ops : list Operation) (v : Value) : option Operation :=
  match valueDef v with
  | ResultOf n => nth_error ops n
  | OperandOf _ => None
  end.

(** The operand of the rewritten operation a value is derived from,
    following the first operand of the defining operations. *)
Fixpoint sourceOperand (fuel : nat) (ops : list Operation) (v : Value)
    : option nat :=
  match valueDef v with
  | OperandOf i => Some i
  | ResultOf n =>
      match fuel with
      | O => None
      | S fuel' =>
          match nth_error ops n with
          | Some op =>
              match opOperands op with
              | first :: _ => sourceOperand fuel' ops first
              | [] => None
              end
          | None => None
          end
      end
  end.

(** [v] is a [ConstantIntOp] of value [z]. *)
Definition isConstantInt (ops : list Operation) (v : Value) (z : Z) : bool :=
  match definingOp ops v with
  | Some op =>
      OpName_eqb (opName op) ConstantIntOp
      && match getAttr "value" (opAttrs op) with
         | Some (IntegerAttr _ x) => x =? z
         | _ => false
         end
  | None => false
  end.

(** [v] is an [AtenCatOp] along dimension [dim] of a list of two values:
    operand [past] of the rewritten operation itself, then a value derived
    from its operand [new]. *)
Definition isConcat (ops : list Operation) (v : Value) (past new : nat)
    (dim : Z) : bool :=
  match definingOp ops v with
  | Some catOp =>
      OpName_eqb (opName catOp) AtenCatOp
      && match opOperands catOp with
         | [list; d] =>
             isConstantInt ops d dim
             && match definingOp ops list with
                | Some listOp =>
                    OpName_eqb (opName listOp) PrimListConstructOp
                    && match opOperands listOp with
                       | [p; n] =>
                           match valueDef p, sourceOperand 3 ops n with
                           | OperandOf i, Some j =>
                               (i =? past)%nat && (j =? new)%nat
                           | _, _ => false
                           end
                       | _ => false
                       end
                | None => false
                end
         | _ => false
         end
  | None => false
  end.

(** The number of created operations of a kind. *)
Definition countOps (name : OpName) (ops : list Operation) : nat :=
  length (filter (fun op => OpName_eqb (opName op) name) ops).

(** The sizes of operand [i] and of result [i] of the rewritten
    operation. *)
Definition operandSizes (b : OpBinder) (i : nat) : option (list Z) :=
  match nth_error (operandTypes b) i with
  | Some (ValueTensorTy t) => getOptionalSizes t
  | _ => None
  end.

Definition resultSizes (b : OpBinder) (i : nat) : option (list Z) :=
  match nth_error (resultTypes b) i with
  | Some (ValueTensorTy t) => getOptionalSizes t
  | _ => None
  end.


(** The values of a list of integer constants built by
    [PrimListConstructOp]. *)
Definition constantIntValue (ops : list Operation) (v : Value) : option Z :=
  match definingOp ops v with
  | Some op =>
      if OpName_eqb (opName op) ConstantIntOp then
        match getAttr "value" (opAttrs op) with
        | Some (IntegerAttr _ x) => Some x
        | _ => None
        end
      else None
  | None => None
  end.

Fixpoint constantIntValues (ops : list Operation) (vs : list Value)
    : option (list Z) :=
  match vs with
  | [] => Some []
  | v :: rest =>
      match constantIntValue ops v, constantIntValues ops rest with
      | Some x, Some xs => Some (x :: xs)
      | _, _ => None
      end
  end.

Definition constantIntList (ops : list Operation) (v : Value)
    : option (list Z) :=
  match definingOp ops v with
  | Some op =>
      if OpName_eqb (opName op) PrimListConstructOp
      then constantIntValues ops (opOperands op)
      else None
  | None => None
  end.

(** The reshape of operand [operand] of the rewritten operation: the
    sizes of the declared result type of the first [AtenReshapeOp] applied
    to it, and the values of the size list it is given. *)
Definition reshapeOf (ops : list Operation) (operand : nat)
    : option (list Z * list Z) :=
  match
    find (fun op =>
            OpName_eqb (opName op) AtenReshapeOp
            && match opOperands op with
               | v :: _ =>
                   match valueDef v with
                   | OperandOf i => (i =? operand)%nat
                   | ResultOf _ => false
                   end
               | [] => false
               end) ops
  with
  | Some op =>
      match opResultType op, opOperands op with
      | ValueTensorTy t, [_; sizeList] =>
          match getOptionalSizes t, constantIntList ops sizeList with
          | Some declared, Some given => Some (declared, given)
          | _, _ => None
          end
      | _, _ => None
      end
  | None => None
  end.

(** The state a rule leaves when run on a fresh rewriter. *)
Definition stateAfter (r : Rewriter LogicalResult) : RewriterState :=
  match r initialState with
  | Some (_, s) => s
  | None => initialState
  end.

(** A grouped-query attention record: [operands] operands, of which the
    query, key and value have sizes [(batch, seqLen, hidden)], the key
    cache sizes [(batch, 2, 4, 4)], [seqlens_k] sizes [(batch)]; the
    present key grows to [(batch, 2, 4 + seqLen, 4)] and the present value
    keeps the sizes of the value cache. *)
Definition gqaRecord (doRotary numHeads batch seqLen hidden : Z)
    (operands : nat) : OpBinder :=
  mkBinder
    (firstn operands
       [tensorTy [batch; seqLen; hidden] f32;
        tensorTy [batch; seqLen; hidden] f32;
        tensorTy [batch; seqLen; hidden] f32;
        tensorTy [batch; 2; 4; 4] f32;
        tensorTy [batch; 2; 4; 4] f32;
        tensorTy [batch] (SignedInt 32);
        tensorTy [] (SignedInt 32);
        tensorTy [16; 2] f32;
        tensorTy [16; 2] f32])
    [s64Attr "do_rotary" doRotary; s64Attr "kv_num_heads" 2;
     s64Attr "num_heads" numHeads]
    [tensorTy [batch; seqLen; hidden] f32;
     tensorTy [batch; 2; 4 + seqLen; 4] f32;
     tensorTy [batch; 2; 4; 4] f32]
    0.

(** A grouped-query attention as [gqaRecord 0 2 1 2 8 7] whose past key
    is an unranked tensor. *)
Definition gqaUnrankedPastKey : OpBinder :=
  mkBinder
    [tensorTy [1; 2; 8] f32;
     tensorTy [1; 2; 8] f32;
     tensorTy [1; 2; 8] f32;
     ValueTensorTy (mkVTT None (Some f32));
     tensorTy [1; 2; 4; 4] f32;
     tensorTy [1] (SignedInt 32);
     tensorTy [] (SignedInt 32)]
    [s64Attr "do_rotary" 0; s64Attr "kv_num_heads" 2;
     s64Attr "num_heads" 2]
    [tensorTy [1; 2; 8] f32;
     tensorTy [1; 2; 6; 4] f32;
     tensorTy [1; 2; 4; 4] f32]
    0.




(** Modelled from the spec: the position ids of a continuation, row by
    row: [past_length = (cache_length + 1) - sequence_length] is added to
    the indices [0 .. sequence_length - 1], and an index that exceeds the
    cache length is replaced by 1. *)
Definition continuationPositionIds (seqlensK : list Z) (seqLen : Z)
    : list (list Z) :=
  map (fun cacheLength =>
         map (fun j =>
                let pastLength := (cacheLength + 1) - seqLen in
                let index := Z.of_nat j + pastLength in
                if index >? cacheLength then 1 else index)
             (seq 0 (Z.to_nat seqLen)))
      seqlensK.




(** What can be observed of a run-time value: a tensor by its shape and
    its elements in row-major order. *)
Inductive Observed : Type :=
| OInt (z : Z)
| OBool (b : bool)
| ONone
| OIntList (l : list Z)
| OTensor (sizes : list Z) (elements : list Z)
| OOpaque
| OError.

Definition elements (t : Tensor) : list Z :=
  map (fun k => elem t (unflatten (shape t) (Z.of_nat k)))
      (seq 0 (Z.to_nat (numel (shape t)))).

Definition observe (v : Evaluated) : Observed :=
  match v with
  | None => OError
  | Some (RInt z) => OInt z
  | Some (RBool b) => OBool b
  | Some RNone => ONone
  | Some (RIntList l) => OIntList l
  | Some (RTensor t) => OTensor (shape t) (elements t)
  | Some ROpaque => OOpaque
  end.





(** A fused matrix multiplication of a vector by a matrix that asks for
    the transposition and the batch transposition of its first operand. *)
Definition fusedMatMulVector : OpBinder :=
  mkBinder
    [tensorTy [4] f32; tensorTy [4; 5] f32]
    [s64Attr "transA" 1; s64Attr "transBatchA" 1]
    [tensorTy [5] f32]
    0.

(** A fused matrix multiplication of a [(2, 4, 3)] by a [(2, 4, 5)]
    tensor with the given flags. *)
Definition fusedMatMul (transA transB transBatchA transBatchB : Z)
    : OpBinder :=
  mkBinder
    [tensorTy [2; 4; 3] f32; tensorTy [2; 4; 5] f32]
    [s64Attr "transA" transA; s64Attr "transB" transB;
     s64Attr "transBatchA" transBatchA; s64Attr "transBatchB" transBatchB]
    [tensorTy [2; 3; 5] f32]
    0.


(* ===================================================================== *)
(** * Part VI. Properties of the rewrite rules                            *)
(* ===================================================================== *)

(** ** What a rewriter computation may do to the state *)

(** [extends s s']: [s'] is [s] with more operations created; the
    replacement of the matched operation is the same. *)
Definition extends (s s' : RewriterState) : Prop :=
  replacement s' = replacement s
  /\ exists ops, created s' = created s ++ ops.

(** A computation that only reads. *)
Definition pureRead {A} (m : Rewriter A) : Prop :=
  forall s a s', m s = Some (a, s') -> s' = s.

(** A computation that only creates operations. *)
Definition appendOnly {A} (m : Rewriter A) : Prop :=
  forall s a s', m s = Some (a, s') -> extends s s'.

(** A computation that, when it returns, returns success. *)
Definition neverFails (m : Rewriter LogicalResult) : Prop :=
  forall s r s', m s = Some (r, s') -> r = Success.

(** A decline leaves the matched operation in place. *)
Definition declinesInPlace (m : Rewriter LogicalResult) : Prop :=
  forall s d s', m s = Some (Failure d, s') -> extends s s'.

(** A decline leaves the state untouched and carries a diagnostic. *)
Definition declinesCleanly (m : Rewriter LogicalResult) : Prop :=
  forall s d s',
    m s = Some (Failure d, s') ->
    s' = s /\ exists msg, d = Some msg /\ msg <> "".

(** ** Example records and the claim about declines *)

(** The claim as the specification states it: a rule that declines has
    left the rewriter state as it was and gives a reason. *)
Definition declineClaim (rule : Rule) : Prop :=
  forall b s d s',
    rule b s = Some (Failure d, s') -> s' = s /\ exists msg, d = Some msg.

(** A quantized global average pool over a rank-2 input: five operands,
    per-tensor scales and zero points, [channels_last] absent. *)
Definition globalAveragePoolRank2 : OpBinder :=
  mkBinder
    [tensorTy [2; 3] (UnsignedInt 8); tensorTy [] f32;
     tensorTy [] (UnsignedInt 8); tensorTy [] f32;
     tensorTy [] (UnsignedInt 8)]
    []
    [tensorTy [2; 3] (UnsignedInt 8)]
    0.

(** A grouped-query attention with eight operands and no rotary
    embedding. *)
Definition groupQueryAttention8 : OpBinder :=
  mkBinder
    (repeat (tensorTy [1; 2; 8] f32) 8)
    [s64Attr "kv_num_heads" 2; s64Attr "num_heads" 2]
    (repeat (tensorTy [1; 2; 8] f32) 3)
    0.

(** A quantized concatenation with three operands: the output scale, the
    output zero point and one input that lacks its scale and zero point. *)
Definition qlinearConcat3 : OpBinder :=
  mkBinder
    [tensorTy [] f32; tensorTy [] (UnsignedInt 8);
     tensorTy [4] (UnsignedInt 8)]
    [s64Attr "axis" 0]
    [tensorTy [4] (UnsignedInt 8)]
    0.

(** ** What a rule leaves behind *)

(** A computation that keeps every operation created before it. *)
Definition grows {A} (m : Rewriter A) : Prop :=
  forall s a s',
    m s = Some (a, s') -> exists ops, created s' = created s ++ ops.

(** What holds of the state a computation leaves whenever it succeeds. *)
Definition onSuccess (P : RewriterState -> Prop)
    (m : Rewriter LogicalResult) : Prop :=
  forall s s', m s = Some (Success, s') -> P s'.

(** The matched operation has been replaced by [n] values. *)
Definition replacedBy (n : nat) (s : RewriterState) : Prop :=
  exists values, replacement s = Some values /\ length values = n.

(** The number of results of the operator a rule rewrites. *)
Definition numResults (name : string) : nat :=
  if String.eqb name "GroupQueryAttention" then 3%nat else 1%nat.

(** The last three operations of a quantized rule and the replacement:
    the constant of the quantized dtype, the quantization to the
    quantized counterpart of the result type, and its integer
    representation, of the result type, which replaces the matched
    operation. *)
Definition quantizedReplacement (U : Utils) (resultType : ValueTensorType)
    (s : RewriterState) : Prop :=
  exists pre y yScale yZp yTy dty,
    getQTorchTypeFromTorchIntType U resultType = Some yTy
    /\ getOptionalDtype yTy = Some dty
    /\ created s
       = pre
         ++ [mkOp ConstantIntOp IntType []
                  [("value", getI64IntegerAttr (getScalarTypeForType U dty))]
                  0;
             mkOp AtenQuantizePerTensorOp (ValueTensorTy yTy)
                  [y; yScale; yZp; mkValue (ResultOf (length pre)) IntType]
                  [] 0;
             mkOp AtenIntReprOp (ValueTensorTy resultType)
                  [mkValue (ResultOf (S (length pre))) (ValueTensorTy yTy)]
                  [] 0]
    /\ replacement s
       = Some [mkValue (ResultOf (S (S (length pre))))
                       (ValueTensorTy resultType)].

(** The kernel sizes of a global pool over static dimensions: input size
    minus result size plus one, as mathematical integers and as the
    64-bit integers of the rule. *)
Definition globalKernelSizes (dims resultDims : list Z) : list Z :=
  map (fun p => fst p - snd p + 1) (combine dims resultDims).

Definition globalKernelSizes64 (dims resultDims : list Z) : list Z :=
  map (fun p => wrapS 64 (wrapS 64 (fst p - snd p) + 1))
      (combine dims resultDims).

(** A value of the range of [int64_t], and the kernel sizes whose
    difference and sum stay in that range. *)
Definition fitsInt64 (z : Z) : bool := (- 2 ^ 63 <=? z) && (z <? 2 ^ 63).

Definition kernelSizesFit (dims resultDims : list Z) : bool :=
  forallb (fun p => fitsInt64 (fst p - snd p)
                    && fitsInt64 (fst p - snd p + 1))
          (combine dims resultDims).

(** The value of a floating-point or boolean constant, and the [None]
    constant. *)
Definition constantFloatValue (ops : list Operation) (v : Value)
    : option APFloat :=
  match definingOp ops v with
  | Some op =>
      if OpName_eqb (opName op) ConstantFloatOp then
        match getAttr "value" (opAttrs op) with
        | Some (FloatAttr x) => Some x
        | _ => None
        end
      else None
  | None => None
  end.

Definition constantBoolValue (ops : list Operation) (v : Value)
    : option bool :=
  match definingOp ops v with
  | Some op =>
      if OpName_eqb (opName op) ConstantBoolOp then
        match getAttr "value" (opAttrs op) with
        | Some (BoolAttr x) => Some x
        | _ => None
        end
      else None
  | None => None
  end.

Definition isConstantNone (ops : list Operation) (v : Value) : bool :=
  match definingOp ops v with
  | Some op => OpName_eqb (opName op) ConstantNoneOp
  | None => false
  end.

(** The attention operation a rule has created. *)
Definition attentionOp (ops : list Operation) : option Operation :=
  find (fun op => OpName_eqb (opName op) AtenScaledDotProductAttentionOp) ops.

(** A rotary embedding with a fifth operand and only [num_heads] given. *)
Definition rotaryEmbeddingRecord : OpBinder :=
  mkBinder
    [tensorTy [1; 2; 8] f32; tensorTy [1; 2] si64; tensorTy [16; 4] f32;
     tensorTy [16; 4] f32; tensorTy [3] f32]
    [s64Attr "num_heads" 2]
    [tensorTy [1; 2; 8] f32]
    0.

(** A quantized unary operator: the input, its scale and zero point, and
    the scale and zero point of the output; an operator name, a
    [ceil_mode] and a [channels_last] attribute, and one region. *)
Definition qlinearUnaryRecord : OpBinder :=
  mkBinder
    [tensorTy [1; 3; 8] (UnsignedInt 8); tensorTy [] f32;
     tensorTy [] (UnsignedInt 8); tensorTy [] f32;
     tensorTy [] (UnsignedInt 8)]
    [("name", StringAttr "onnx.QLinearAveragePool"); s64Attr "ceil_mode" 1;
     s64Attr "channels_last" 0]
    [tensorTy [1; 3; 4] (UnsignedInt 8)]
    1.

(** A quantized binary operator: two inputs and the output, each with its
    scale and zero point. *)
Definition qlinearBinaryRecord : OpBinder :=
  mkBinder
    [tensorTy [2; 3] (UnsignedInt 8); tensorTy [] f32;
     tensorTy [] (UnsignedInt 8);
     tensorTy [2; 3] (UnsignedInt 8); tensorTy [] f32;
     tensorTy [] (UnsignedInt 8);
     tensorTy [] f32; tensorTy [] (UnsignedInt 8)]
    []
    [tensorTy [2; 3] (UnsignedInt 8)]
    0.

(** A quantized concatenation with [n] operands. *)
Definition qlinearConcatOf (n : nat) : OpBinder :=
  mkBinder
    (repeat (tensorTy [4] (UnsignedInt 8)) n)
    [s64Attr "axis" 0]
    [tensorTy [4] (UnsignedInt 8)]
    0.

(** A grouped-query attention whose query has two dimensions. *)
Definition gqaRank2Query : OpBinder :=
  mkBinder
    [tensorTy [2; 8] f32; tensorTy [1; 2; 8] f32; tensorTy [1; 2; 8] f32;
     tensorTy [1; 2; 4; 4] f32; tensorTy [1; 2; 4; 4] f32;
     tensorTy [1] (SignedInt 32); tensorTy [] (SignedInt 32)]
    [s64Attr "kv_num_heads" 2; s64Attr "num_heads" 2]
    [tensorTy [2; 8] f32; tensorTy [1; 2; 6; 4] f32;
     tensorTy [1; 2; 4; 4] f32]
    0.

(** A grouped-query attention as [gqaRecord], with a [scale] attribute
    given by its binary32 bit pattern. *)
Definition gqaScaled (doRotary : Z) (scaleBits : Z) (operands : nat)
    : OpBinder :=
  mkBinder
    (operandTypes (gqaRecord doRotary 2 1 2 8 operands))
    (attrDictionary (gqaRecord doRotary 2 1 2 8 operands)
       ++ [("torch.onnx.scale", FloatAttr (F32Bits scaleBits))])
    (resultTypes (gqaRecord doRotary 2 1 2 8 operands))
    0.

(** A record that passes every check of ["GroupQueryAttention"]. *)
Definition validatedRecord (b : OpBinder) : Prop :=
  exists a sizes,
    bindGQAAttrs b = Some a
    /\ forallb isTensor (operandTypes b) = true
    /\ (length (operandTypes b) = 9%nat
        \/ doRotary a = 0 /\ length (operandTypes b) = 7%nat)
    /\ forallb isTensor (resultTypes b) = true
    /\ length (resultTypes b) = 3%nat
    /\ kvNumHeads a <> 0 /\ numHeads a <> 0
    /\ localWindowSize a = -1 /\ smoothSoftmax a = 0
    /\ f32_ne_zero (softcap a) = false
    /\ operandSizes b 0 = Some sizes
    /\ forallb (fun d => negb (d =? kUnknownSize)) sizes = true
    /\ (3 <= length sizes)%nat.

(** The attention operation among the created operations: its query, key
    and value derive from operands 0, 1 and 2 of the rewritten operation;
    no mask, no dropout, not causal, grouped-query attention enabled, and
    the scale the record gives, or none when that is zero. *)
Definition attentionOperands (a : GQAAttrs) (ops : list Operation) : Prop :=
  exists sdpa q k v mask dropout causal sc gqa,
    attentionOp ops = Some sdpa
    /\ opOperands sdpa = [q; k; v; mask; dropout; causal; sc; gqa]
    /\ sourceOperand 3 ops q = Some 0%nat
    /\ sourceOperand 3 ops k = Some 1%nat
    /\ sourceOperand 3 ops v = Some 2%nat
    /\ isConstantNone ops mask = true
    /\ constantFloatValue ops dropout = Some (F64Lit 0)
    /\ constantBoolValue ops causal = Some false
    /\ constantBoolValue ops gqa = Some true
    /\ (if f32_ne_zero (scale a)
        then constantFloatValue ops sc = Some (F64Ext (scale a))
        else isConstantNone ops sc = true).


(** The pooling operation for an input of the given rank. *)
Definition poolingOpName (rank : nat) : OpName :=
  match rank with
  | 3%nat => AtenAvgPool1dOp
  | 4%nat => AtenAvgPool2dOp
  | _ => AtenAvgPool3dOp
  end.

(** The pooling operation created by ["QLinearGlobalAveragePool"] for an
    input of sizes [inputShape]. *)
Definition globalPoolingOp (b : OpBinder) (inputShape : list Z)
    (pool : Operation) : Prop :=
  opName pool = poolingOpName (length inputShape)
  /\ length (opOperands pool)
     = (if (length inputShape =? 3)%nat then 6 else 7)%nat
  /\ exists resultShape,
       resultSizes b 0 = Some resultShape
       /\ opResultType pool = tensorTy resultShape f32.

(** What every outcome of a computation satisfies. *)
Definition returns {A} (Q : A -> Prop) (m : Rewriter A) : Prop :=
  forall s a s', m s = Some (a, s') -> Q a.

(** A diagnostic handed on by a loop or a block is a failure. *)
Definition handsOnFailure {A} (r : LogicalResult + A) : Prop :=
  forall diag, r = inl diag -> exists d, diag = Failure d.

(** Every third element of a list, from the first. *)
Fixpoint every3 {A} (l : list A) : list A :=
  match l with
  | x :: _ :: _ :: rest => x :: every3 rest
  | x :: _ => [x]
  | [] => []
  end.

(** The operation that carries out the arithmetic of a quantized rule,
    and the number of its operands. *)
Definition arithmeticOp (name : string) : option (OpName * nat) :=
  if String.eqb name "QLinearAdd" then Some (AtenAddTensorOp, 3%nat)
  else if String.eqb name "QLinearMul" then Some (AtenMulTensorOp, 2%nat)
  else if String.eqb name "QLinearLeakyRelu"
       then Some (AtenLeakyReluOp, 2%nat)
  else if String.eqb name "QLinearSigmoid" then Some (AtenSigmoidOp, 1%nat)
  else if String.eqb name "QLinearConcat" then Some (AtenCatOp, 2%nat)
  else None.

(** The two rotary embeddings of ["GroupQueryAttention"]: of the query
    and of the key, over the same position ids, the caches given as
    operands 7 and 8, the [rotary_interleaved] of the record, no packed
    batching, zero for the number of heads and the rotary dimension, and
    scale 1. *)
Definition rotaryEmbeddings (a : GQAAttrs) (ops : list Operation) : Prop :=
  exists q k positionIds cosCache sinCache interleaved zero one,
    map opOperands
        (filter (fun op => OpName_eqb (opName op)
                                      OnnxVariantRotaryEmbeddingOp) ops)
    = [[q; positionIds; cosCache; sinCache; interleaved; zero; zero; zero;
        one];
       [k; positionIds; cosCache; sinCache; interleaved; zero; zero; zero;
        one]]
    /\ sourceOperand 3 ops q = Some 0%nat
    /\ sourceOperand 3 ops k = Some 1%nat
    /\ valueDef cosCache = OperandOf 7
    /\ valueDef sinCache = OperandOf 8
    /\ constantIntValue ops interleaved = Some (rotaryInterleaved a)
    /\ constantIntValue ops zero = Some 0
    /\ constantFloatValue ops one = Some (F64Lit 1).

(** A quantized global average pool over a rank-4 input. *)
Definition globalAveragePoolRank4 : OpBinder :=
  mkBinder
    [tensorTy [1; 3; 7; 5] (UnsignedInt 8); tensorTy [] f32;
     tensorTy [] (UnsignedInt 8); tensorTy [] f32;
     tensorTy [] (UnsignedInt 8)]
    []
    [tensorTy [1; 3; 1; 1] (UnsignedInt 8)]
    0.

Lemma extends_refl s : extends s s.
Proof. split; [reflexivity | exists []; now rewrite app_nil_r]. Qed.

Lemma extends_trans s1 s2 s3 : extends s1 s2 -> extends s2 s3 -> extends s1 s3.
Proof.
  intros [R1 [o1 C1]] [R2 [o2 C2]]. split; [congruence|].
  exists (o1 ++ o2). now rewrite C2, C1, app_assoc.
Qed.

Lemma bind_inv {A B} (m : Rewriter A) (k : A -> Rewriter B) s b s' :
  bind m k s = Some (b, s') ->
  exists a s1, m s = Some (a, s1) /\ k a s1 = Some (b, s').
Proof.
  unfold bind. destruct (m s) as [[a s1]|]; [|discriminate].
  intros H. now exists a, s1.
Qed.

Lemma pureRead_ret {A} (a : A) : pureRead (ret a).
Proof. intros s x s' H. now inversion H. Qed.

Lemma pureRead_abort {A} : pureRead (@abort A).
Proof. intros s x s' H. discriminate. Qed.

Lemma pureRead_orAbort {A} (o : option A) : pureRead (orAbort o).
Proof. destruct o; [apply pureRead_ret | apply pureRead_abort]. Qed.

Lemma pureRead_at {A} (v : list A) i : pureRead (at_ v i).
Proof. apply pureRead_orAbort. Qed.

Lemma pureRead_cast t : pureRead (castValueTensorType t).
Proof. destruct t; first [apply pureRead_ret | apply pureRead_abort]. Qed.

Lemma pureRead_getSizes t : pureRead (getSizes t).
Proof. apply pureRead_orAbort. Qed.

Lemma pureRead_getDtype t : pureRead (getDtype t).
Proof. apply pureRead_orAbort. Qed.

Lemma pureRead_bind {A B} (m : Rewriter A) (k : A -> Rewriter B) :
  pureRead m -> (forall a, pureRead (k a)) -> pureRead (bind m k).
Proof.
  intros Hm Hk s b s' H. apply bind_inv in H as (a & s1 & H1 & H2).
  apply Hm in H1. subst. now apply Hk in H2.
Qed.

Lemma pureRead_getTensorRank v : pureRead (getTensorRank v).
Proof.
  apply pureRead_bind; [apply pureRead_cast | intros; apply pureRead_ret].
Qed.

Lemma pureRead_appendOnly {A} (m : Rewriter A) : pureRead m -> appendOnly m.
Proof. intros H s a s' E. apply H in E. subst. apply extends_refl. Qed.

Lemma appendOnly_createOp name ty operands attrs regions :
  appendOnly (createOp name ty operands attrs regions).
Proof.
  intros s a s' H. inversion H; subst. split; [reflexivity|].
  now eexists.
Qed.

Lemma appendOnly_runBuilder {A} (b : Builder A) : appendOnly (runBuilder b).
Proof.
  intros s a s' H. unfold runBuilder in H.
  destruct (b (length (created s))) as [[x ops]|]; [|discriminate].
  inversion H; subst. split; [reflexivity | now eexists].
Qed.

Lemma appendOnly_bind {A B} (m : Rewriter A) (k : A -> Rewriter B) :
  appendOnly m -> (forall a, appendOnly (k a)) -> appendOnly (bind m k).
Proof.
  intros Hm Hk s b s' H. apply bind_inv in H as (a & s1 & H1 & H2).
  eapply extends_trans; [eapply Hm | eapply Hk]; eassumption.
Qed.

Lemma neverFails_ret_success : neverFails (ret success).
Proof. intros s r s' H. now inversion H. Qed.

Lemma neverFails_bind {A} (m : Rewriter A) (k : A -> Rewriter LogicalResult) :
  (forall a, neverFails (k a)) -> neverFails (bind m k).
Proof.
  intros Hk s r s' H. apply bind_inv in H as (a & s1 & _ & H2).
  now apply Hk in H2.
Qed.

Lemma neverFails_declinesInPlace m : neverFails m -> declinesInPlace m.
Proof. intros H s d s' E. apply H in E. discriminate. Qed.

Lemma neverFails_declinesCleanly m : neverFails m -> declinesCleanly m.
Proof. intros H s d s' E. apply H in E. discriminate. Qed.

Lemma declinesInPlace_ret r : declinesInPlace (ret r).
Proof. intros s d s' H. inversion H; subst. apply extends_refl. Qed.

Lemma declinesInPlace_bind {A} (m : Rewriter A)
    (k : A -> Rewriter LogicalResult) :
  appendOnly m -> (forall a, declinesInPlace (k a)) ->
  declinesInPlace (bind m k).
Proof.
  intros Hm Hk s d s' H. apply bind_inv in H as (a & s1 & H1 & H2).
  eapply extends_trans; [eapply Hm | eapply Hk]; eassumption.
Qed.

Lemma declinesCleanly_notify msg :
  msg <> "" -> declinesCleanly (ret (notifyMatchFailure msg)).
Proof.
  intros Hmsg s d s' H. inversion H; subst. split; [reflexivity|].
  now exists msg.
Qed.

Lemma declinesCleanly_bind {A} (m : Rewriter A)
    (k : A -> Rewriter LogicalResult) :
  pureRead m -> (forall a, declinesCleanly (k a)) ->
  declinesCleanly (bind m k).
Proof.
  intros Hm Hk s d s' H. apply bind_inv in H as (a & s1 & H1 & H2).
  apply Hm in H1. subst. now apply Hk in H2.
Qed.

Create HintDb rewriter.
#[local] Hint Resolve pureRead_ret pureRead_abort pureRead_orAbort pureRead_at
  pureRead_cast pureRead_getSizes pureRead_getDtype pureRead_getTensorRank
  appendOnly_createOp appendOnly_runBuilder neverFails_ret_success
  declinesInPlace_ret : rewriter.

(** Walking through a rule: binds, and case distinctions on what the
    rule inspects. *)
Ltac case_scrutinee :=
  match goal with
  | |- ?P (match ?x with _ => _ end) => destruct x
  | |- ?P (if ?c then _ else _) => destruct c
  end.

Ltac pure_read :=
  repeat first
    [ solve [auto with rewriter]
    | apply pureRead_bind; [|intros]
    | case_scrutinee ].

Ltac append_only :=
  repeat first
    [ solve [auto with rewriter]
    | solve [apply pureRead_appendOnly; auto with rewriter]
    | apply appendOnly_bind; [|intros]
    | case_scrutinee ].

Ltac never_fails :=
  repeat first
    [ apply neverFails_ret_success
    | apply neverFails_bind; intros
    | case_scrutinee ].

Ltac declines_in_place :=
  repeat first
    [ apply declinesInPlace_ret
    | solve [apply neverFails_declinesInPlace; never_fails]
    | apply declinesInPlace_bind; [solve [append_only] | intros]
    | case_scrutinee ].

Section RuleInvariants.

Variable U : Utils.

Lemma appendOnly_extractAt operands i j : appendOnly (extractAt U operands i j).
Proof. unfold extractAt. append_only. Qed.

Lemma appendOnly_dequantizeAt operands i scale zp :
  appendOnly (dequantizeAt U operands i scale zp).
Proof. unfold dequantizeAt. append_only. Qed.

Lemma neverFails_quantizeAndReplace resultType y yScale yZp :
  neverFails (quantizeAndReplace U resultType y yScale yZp).
Proof. unfold quantizeAndReplace, replaceOpWithNewOp. never_fails. Qed.

Lemma pureRead_collectConcatInputs fuel : forall operands i a b c,
  pureRead (collectConcatInputs fuel operands i a b c).
Proof.
  induction fuel as [|fuel IH]; intros; cbn [collectConcatInputs].
  - apply pureRead_ret.
  - destruct (i <? length operands)%nat; [|apply pureRead_ret].
    repeat (apply pureRead_bind; [apply pureRead_at | intros]). apply IH.
Qed.

Lemma appendOnly_dequantizeConcatInputs n : forall i a b c d,
  appendOnly (dequantizeConcatInputs U n i a b c d).
Proof.
  induction n as [|n IH]; intros; cbn [dequantizeConcatInputs].
  - apply pureRead_appendOnly, pureRead_ret.
  - repeat first
      [ apply IH
      | solve [auto with rewriter]
      | solve [apply pureRead_appendOnly; auto with rewriter]
      | apply appendOnly_bind; [|intros]
      | case_scrutinee ].
Qed.

Lemma appendOnly_globalPoolKernel dims : forall i resultShape x z o a b c,
  appendOnly (globalPoolKernel dims i resultShape x z o a b c).
Proof.
  induction dims as [|d dims IH]; intros; cbn [globalPoolKernel].
  - apply pureRead_appendOnly, pureRead_ret.
  - apply appendOnly_bind; [|intros; apply IH].
    unfold createConstantInt, create. append_only.
Qed.

#[local] Hint Resolve appendOnly_extractAt appendOnly_dequantizeAt
  appendOnly_dequantizeConcatInputs appendOnly_globalPoolKernel : rewriter.
#[local] Hint Resolve pureRead_collectConcatInputs : rewriter.
#[local] Hint Unfold createConstantInt createConstantFloat createConstantBool
  createConstantNone create : rewriter.

Ltac quantized_tail :=
  repeat first
    [ apply declinesInPlace_ret
    | solve [apply neverFails_declinesInPlace;
             apply neverFails_quantizeAndReplace]
    | solve [apply neverFails_declinesInPlace; never_fails]
    | apply declinesInPlace_bind;
        [ solve [unfold createConstantInt, createConstantFloat,
                        createConstantBool, createConstantNone, create;
                 append_only]
        | intros ]
    | case_scrutinee ].

Lemma appendOnly_rotaryBlock ri b sl k t c s cb cs cn cf q ki :
  appendOnly (rotaryBlock ri b sl k t c s cb cs cn cf q ki).
Proof.
  unfold rotaryBlock, createConstantInt, createConstantFloat, create.
  append_only.
Qed.

Lemma declinesInPlace_RotaryEmbedding b : declinesInPlace (RotaryEmbedding b).
Proof. unfold RotaryEmbedding, replaceOpWithNewOp. quantized_tail. Qed.

Lemma declinesInPlace_GroupQueryAttention b :
  declinesInPlace (GroupQueryAttention b).
Proof.
  unfold GroupQueryAttention.
  repeat first
    [ apply declinesInPlace_ret
    | solve [apply neverFails_declinesInPlace; never_fails]
    | apply declinesInPlace_bind;
        [ solve [apply appendOnly_rotaryBlock
                | unfold createConstantInt, createConstantFloat,
                         createConstantBool, createConstantNone, create;
                  append_only]
        | intros ]
    | case_scrutinee ].
Qed.

Lemma declinesInPlace_QLinearAdd b : declinesInPlace (QLinearAdd U b).
Proof. unfold QLinearAdd. quantized_tail. Qed.

Lemma declinesInPlace_QLinearLeakyRelu b :
  declinesInPlace (QLinearLeakyRelu U b).
Proof. unfold QLinearLeakyRelu. quantized_tail. Qed.

Lemma declinesInPlace_QLinearConcat b : declinesInPlace (QLinearConcat U b).
Proof. unfold QLinearConcat. quantized_tail. Qed.

Lemma declinesInPlace_QLinearGlobalAveragePool b :
  declinesInPlace (QLinearGlobalAveragePool U b).
Proof. unfold QLinearGlobalAveragePool. quantized_tail. Qed.

Lemma declinesInPlace_QLinearSigmoid b : declinesInPlace (QLinearSigmoid U b).
Proof. unfold QLinearSigmoid. quantized_tail. Qed.

Lemma declinesInPlace_QLinearAveragePool b :
  declinesInPlace (QLinearAveragePool U b).
Proof. unfold QLinearAveragePool. quantized_tail. Qed.

Lemma declinesInPlace_FusedMatMul b : declinesInPlace (FusedMatMul U b).
Proof. unfold FusedMatMul, replaceOpWithNewOp. quantized_tail. Qed.

Lemma declinesInPlace_QLinearMul b : declinesInPlace (QLinearMul U b).
Proof. unfold QLinearMul. quantized_tail. Qed.

End RuleInvariants.

Ltac declines_cleanly :=
  repeat first
    [ apply declinesCleanly_notify; discriminate
    | solve [apply neverFails_declinesCleanly; never_fails]
    | apply declinesCleanly_bind; [solve [pure_read] | intros]
    | case_scrutinee ].

Lemma declinesCleanly_RotaryEmbedding b : declinesCleanly (RotaryEmbedding b).
Proof. unfold RotaryEmbedding, replaceOpWithNewOp. declines_cleanly. Qed.

Lemma declinesCleanly_GroupQueryAttention b :
  declinesCleanly (GroupQueryAttention b).
Proof. unfold GroupQueryAttention. declines_cleanly. Qed.

(** ** Declines (C1) *)

(** The rule declines on [globalAveragePoolRank2] without a diagnostic,
    after it has created operations. *)
Lemma globalAveragePoolRank2_declines :
  exists s',
    QLinearGlobalAveragePool specUtils globalAveragePoolRank2 initialState
      = Some (Failure None, s')
    /\ length (created s') = 15%nat.
Proof. eexists. split; [vm_compute; reflexivity | reflexivity]. Qed.

(** C1, counterexample: the claim "if the rule returns a failure, it has
    emitted zero new operations and the failure carries a reason string"
    is false for the registered ["QLinearGlobalAveragePool"] rule on a
    rank-2 input: the rule declines with a bare [failure()] after fifteen
    operations have been created, seven of them by the rule itself. *)
Lemma decline_claim_counterexample :
  ~ (forall name version rule,
       In (name, version, rule) (populateComMicrosoftDomain specUtils) ->
       declineClaim rule).
Proof.
  intros H.
  destruct globalAveragePoolRank2_declines as (s' & E & L).
  assert (I : In ("QLinearGlobalAveragePool", 1,
                  QLinearGlobalAveragePool specUtils)
                 (populateComMicrosoftDomain specUtils)).
  { unfold populateComMicrosoftDomain. simpl. tauto. }
  destruct (H _ _ _ I _ _ _ _ E) as [Hs _].
  subst s'. discriminate L.
Qed.

(** C1, amended: for every registered rule and every operator record, a
    rule that declines has not replaced the matched operation and has at
    most created further operations; the ["RotaryEmbedding"] and
    ["GroupQueryAttention"] rules decline before they create anything and
    always with a non-empty diagnostic. *)
Theorem decline_leaves_matched_operation :
  forall (U : Utils) name version rule,
    In (name, version, rule) (populateComMicrosoftDomain U) ->
    forall b s d s',
      rule b s = Some (Failure d, s') ->
      extends s s'
      /\ (name = "RotaryEmbedding" \/ name = "GroupQueryAttention" ->
          s' = s /\ exists msg, d = Some msg /\ msg <> "").
Proof.
  intros U name version rule HIn b s d s' H.
  unfold populateComMicrosoftDomain in HIn. simpl in HIn.
  repeat destruct HIn as [HIn | HIn]; try contradiction;
    inversion HIn; subst; clear HIn; split;
    try (intros [N | N]; discriminate N).
  - eapply declinesInPlace_RotaryEmbedding; eassumption.
  - intros _. eapply declinesCleanly_RotaryEmbedding; eassumption.
  - eapply declinesInPlace_GroupQueryAttention; eassumption.
  - intros _. eapply declinesCleanly_GroupQueryAttention; eassumption.
  - eapply declinesInPlace_QLinearAdd; eassumption.
  - eapply declinesInPlace_QLinearLeakyRelu; eassumption.
  - eapply declinesInPlace_QLinearConcat; eassumption.
  - eapply declinesInPlace_QLinearGlobalAveragePool; eassumption.
  - eapply declinesInPlace_QLinearSigmoid; eassumption.
  - eapply declinesInPlace_QLinearAveragePool; eassumption.
  - eapply declinesInPlace_FusedMatMul; eassumption.
  - eapply declinesInPlace_QLinearMul; eassumption.
Qed.

Lemma decline_leaves_matched_operation_witness :
  extends initialState initialState
  /\ ("GroupQueryAttention" = "RotaryEmbedding"
      \/ "GroupQueryAttention" = "GroupQueryAttention" ->
      initialState = initialState
      /\ exists msg,
           Some "Unimplemented:  excepted input operands to be either 7 or 9 based on the `do_rotary` attribute"
             = Some msg /\ msg <> "").
Proof.
  apply (decline_leaves_matched_operation specUtils "GroupQueryAttention" 1
           GroupQueryAttention
           (or_intror (or_introl eq_refl))
           groupQueryAttention8 initialState _ initialState).
  reflexivity.
Defined.

(** ** Operand counts (C2) *)

Lemma length_operandsFrom tys : forall i,
  length (operandsFrom i tys) = length tys.
Proof. induction tys; intros; simpl; [reflexivity | now rewrite IHtys]. Qed.

Lemma tensorOperandsList_length b operands :
  tensorOperandsList b = Some operands ->
  length operands = length (operandTypes b).
Proof.
  unfold tensorOperandsList, getOperands.
  destruct (forallb isTensor (operandTypes b)); [|discriminate].
  intros H. inversion H. apply length_operandsFrom.
Qed.

Lemma bindGQAAttrs_doRotary b a :
  bindGQAAttrs b = Some a ->
  s64IntegerAttr b "do_rotary" 0 = Some (doRotary a).
Proof.
  unfold bindGQAAttrs.
  repeat match goal with
         | |- match ?x with _ => _ end = _ -> _ => destruct x; [|discriminate]
         end.
  intros H. now inversion H.
Qed.

(** X9: ["GroupQueryAttention"] declines, without creating anything,
    every record whose operand count is neither 9 nor, with [do_rotary]
    false, 7. *)
Lemma GroupQueryAttention_arity b s :
  length (operandTypes b) <> 9%nat ->
  (length (operandTypes b) = 7%nat ->
   s64IntegerAttr b "do_rotary" 0 <> Some 0) ->
  exists d, GroupQueryAttention b s = Some (Failure d, s).
Proof.
  intros H9 H7. unfold GroupQueryAttention.
  destruct (tensorOperandsList b) as [operands|] eqn:EO; [|now eexists].
  apply tensorOperandsList_length in EO.
  destruct (tensorResultTypes b) as [rts|]; [|now eexists].
  destruct (negb (length rts =? 3)%nat); [now eexists|].
  destruct (bindGQAAttrs b) as [a|] eqn:EA; [|now eexists].
  apply bindGQAAttrs_doRotary in EA.
  assert (E : ((length operands =? 9)%nat
               || ((doRotary a =? 0) && (length operands =? 7)%nat)) = false).
  { rewrite EO. apply orb_false_iff. split.
    - now apply Nat.eqb_neq.
    - apply andb_false_iff.
      destruct (Nat.eq_dec (length (operandTypes b)) 7) as [E7|N7].
      + left. apply Z.eqb_neq. intros Z0. apply (H7 E7). now rewrite EA, Z0.
      + right. now apply Nat.eqb_neq. }
  rewrite E. now eexists.
Qed.

Lemma GroupQueryAttention_arity_witness :
  exists d,
    GroupQueryAttention (gqaRecord 1 2 1 2 8 7) initialState
    = Some (Failure d, initialState).
Proof.
  apply (GroupQueryAttention_arity (gqaRecord 1 2 1 2 8 7) initialState).
  - simpl. discriminate.
  - intros _. simpl. discriminate.
Defined.

Ltac arity_decline b n :=
  let EO := fresh "EO" in
  let operands := fresh "operands" in
  destruct (tensorOperandsList b) as [operands|] eqn:EO;
  [ apply tensorOperandsList_length in EO | now eexists ];
  destruct (tensorResultType b); [|now eexists];
  try (destruct (f32FloatAttr b "alpha" f32_zero); [|now eexists]);
  try (destruct (s64IntegerAttr b "channels_last" 0) as [c|];
       [destruct (negb (c =? 0)); [now eexists|] | now eexists]);
  cbn beta iota;
  replace (length operands =? n)%nat with false
    by (symmetry; apply Nat.eqb_neq; congruence);
  now eexists.

(** X10: the rules with a fixed operand count, eight for ["QLinearAdd"]
    and ["QLinearMul"], five for ["QLinearLeakyRelu"], ["QLinearSigmoid"]
    and ["QLinearAveragePool"], decline every other count without
    creating anything. *)
Lemma fixed_arity_rules_decline (U : Utils) b s :
  (length (operandTypes b) <> 8%nat ->
   (exists d, QLinearAdd U b s = Some (Failure d, s))
   /\ (exists d, QLinearMul U b s = Some (Failure d, s)))
  /\ (length (operandTypes b) <> 5%nat ->
      (exists d, QLinearLeakyRelu U b s = Some (Failure d, s))
      /\ (exists d, QLinearSigmoid U b s = Some (Failure d, s))
      /\ (exists d, QLinearAveragePool U b s = Some (Failure d, s))).
Proof.
  split; intros N; repeat split.
  - unfold QLinearAdd. arity_decline b 8%nat.
  - unfold QLinearMul. arity_decline b 8%nat.
  - unfold QLinearLeakyRelu. arity_decline b 5%nat.
  - unfold QLinearSigmoid. arity_decline b 5%nat.
  - unfold QLinearAveragePool. arity_decline b 5%nat.
Qed.

Lemma fixed_arity_rules_decline_witness :
  (exists d,
     QLinearAdd specUtils qlinearUnaryRecord initialState
     = Some (Failure d, initialState))
  /\ (exists d,
        QLinearMul specUtils qlinearUnaryRecord initialState
        = Some (Failure d, initialState)).
Proof.
  apply (proj1 (fixed_arity_rules_decline specUtils qlinearUnaryRecord
                  initialState)).
  simpl. discriminate.
Defined.

(** C2: every record whose operand count lies outside the supported set
    is to be declined.  On a ["QLinearConcat"] with three operands, a
    count that is not 2 plus 3 per input, the rule does not decline: its
    first loop reads [operands[3]] and [operands[4]] past the end of the
    operand list before the count is checked, whatever the helpers do. *)
Theorem QLinearConcat_three_operands_reads_past_end :
  forall U : Utils, QLinearConcat U qlinearConcat3 initialState = None.
Proof. intros U. reflexivity. Qed.

(** ** Successful runs of ["GroupQueryAttention"] *)

Lemma forallb_isTensor_inv ts :
  forallb isTensor ts = true -> exists vts, ts = map ValueTensorTy vts.
Proof.
  induction ts as [|t ts IH]; simpl; intros H.
  - now exists [].
  - apply andb_true_iff in H as [H1 H2]. destruct t; try discriminate.
    destruct (IH H2) as [vts ->]. now exists (t :: vts).
Qed.

Lemma tensorOperandsList_inv b operands :
  tensorOperandsList b = Some operands ->
  exists vts, operandTypes b = map ValueTensorTy vts
              /\ operands = operandsFrom 0 (map ValueTensorTy vts).
Proof.
  unfold tensorOperandsList, getOperands.
  destruct (forallb isTensor (operandTypes b)) eqn:E; [|discriminate].
  intros H. inversion H. apply forallb_isTensor_inv in E as [vts E].
  exists vts. now rewrite E.
Qed.

Lemma tensorResultTypes_inv b rts :
  tensorResultTypes b = Some rts ->
  exists vts, resultTypes b = map ValueTensorTy vts
              /\ rts = map ValueTensorTy vts.
Proof.
  unfold tensorResultTypes.
  destruct (forallb isTensor (resultTypes b)) eqn:E; [|discriminate].
  intros H. inversion H. apply forallb_isTensor_inv in E as [vts E].
  exists vts. now rewrite E.
Qed.

Ltac list_of_length l n :=
  match n with
  | O => destruct l; [|discriminate]
  | S ?m => let x := fresh "t" in destruct l as [|x l]; [discriminate|];
            list_of_length l m
  end.

(** From a run [H] of the rule that did not decline: the validation
    checks passed, and the operands and results are tensors, nine of
    them, or seven without rotary embedding, and three. *)
Ltac gqa_validated H a EA EOT ERT :=
  unfold GroupQueryAttention in H;
  let EO := fresh "EO" in let ER := fresh "ER" in
  let operands := fresh "operands" in let rts := fresh "rts" in
  let ots := fresh "ots" in let rvts := fresh "rvts" in
  let E3 := fresh "E3" in let Earity := fresh "Earity" in
  let Erot := fresh "Erot" in
  destruct (tensorOperandsList _) as [operands|] eqn:EO in H; [|discriminate];
  destruct (tensorResultTypes _) as [rts|] eqn:ER in H; [|discriminate];
  destruct (negb (length rts =? 3)%nat) eqn:E3 in H; [discriminate|];
  destruct (bindGQAAttrs _) as [a|] eqn:EA in H; [|discriminate];
  destruct (negb _) eqn:Earity in H; [discriminate|];
  destruct (kvNumHeads a =? 0) eqn:Ekv in H; [discriminate|];
  destruct (negb (localWindowSize a =? -1)) eqn:Elw in H; [discriminate|];
  destruct (numHeads a =? 0) eqn:Enh in H; [discriminate|];
  destruct (negb (smoothSoftmax a =? 0)) eqn:Ess in H; [discriminate|];
  destruct (f32_ne_zero (softcap a)) eqn:Esc in H; [discriminate|];
  apply tensorOperandsList_inv in EO as (ots & EOT & ->);
  apply tensorResultTypes_inv in ER as (rvts & ERT & ->);
  rewrite length_map in E3; apply negb_false_iff, Nat.eqb_eq in E3;
  list_of_length rvts 3%nat;
  rewrite length_operandsFrom, length_map in Earity;
  apply negb_false_iff, orb_true_iff in Earity;
  destruct Earity as [Earity | Earity];
  [ apply Nat.eqb_eq in Earity; list_of_length ots 9%nat;
    destruct (negb (doRotary a =? 0)) eqn:Erot
  | apply andb_true_iff in Earity as [Erot Earity];
    apply Nat.eqb_eq in Earity; list_of_length ots 7%nat;
    rewrite Erot in H ];
  destruct (f32_ne_zero (scale a)) eqn:Escale.

(** The run itself, once validation has passed: the sizes of the query
    and of the caches are read, the operations are created, and the two
    shape comparisons are decided. *)
Ltac gqa_eval H := cbv -[equal Z.quot] in H.

(** A branch that cannot be: the run contradicts its outcome, or the
    sizes read contradict what is known of the record. *)
Ltac gqa_dead H :=
  first
    [ discriminate H
    | match goal with
      | Hx : @eq (option (list Z)) _ _ |- _ => cbn in Hx; discriminate Hx
      end ].

Ltac gqa_sizes H o := destruct o; [|gqa_eval H; gqa_dead H].

Ltac gqa_compare H E :=
  match type of H with
  | context [equal ?x ?y] => destruct (equal x y) eqn:E in H
  end.

Ltac gqa_created H EOT ERT Ek Ev :=
  let pks := fresh "pks" in let pvs := fresh "pvs" in
  let rks := fresh "rks" in let rvs := fresh "rvs" in
  let pkdt := fresh "pkdt" in let pvdt := fresh "pvdt" in
  let rkdt := fresh "rkdt" in let rvdt := fresh "rvdt" in
  match type of EOT with
  | _ = map ValueTensorTy (?q :: _ :: _ :: ?pk :: ?pv :: _) =>
      destruct q as [[?qd|] ?qdt]; [|cbn in H; gqa_dead H];
      destruct pk as [pks pkdt]; destruct pv as [pvs pvdt]
  end;
  match type of ERT with
  | _ = map ValueTensorTy [_; ?r1; ?r2] =>
      destruct r1 as [rks rkdt]; destruct r2 as [rvs rvdt]
  end;
  cbn in H;
  match type of H with
  | context [forallb ?f ?qd] =>
      let Eknown := fresh "Eknown" in
      destruct (forallb f qd) eqn:Eknown in H; [|gqa_dead H];
      destruct qd as [|?batch [|?seqLen [|?hidden ?rest]]];
      [cbn in H; gqa_dead H .. |]
  end;
  gqa_sizes H pks; gqa_sizes H rks; gqa_eval H; gqa_compare H Ek;
  gqa_sizes H pvs; gqa_sizes H rvs; gqa_eval H; gqa_compare H Ev;
  gqa_eval H; inversion H; subst; clear H.

(** ** Present key and value (C8) *)

(** C8: in the ["GroupQueryAttention"] rewrite, when the declared sizes of
    the present-key (present-value) result equal the sizes of the
    past-key (past-value) operand, that output is the past cache operand
    itself and no concatenation is created for it; when the sizes differ,
    the output is the concatenation, along dimension 2, of the past cache
    and the new key (value). *)
Theorem present_cache_outputs :
  forall b s' pk pv rk rv,
    GroupQueryAttention b initialState = Some (Success, s') ->
    operandSizes b 3 = Some pk -> operandSizes b 4 = Some pv ->
    resultSizes b 1 = Some rk -> resultSizes b 2 = Some rv ->
    exists attention presentKey presentValue,
      replacement s' = Some [attention; presentKey; presentValue]
      /\ (if equal pk rk
          then nth_error (getOperands b) 3 = Some presentKey
          else isConcat (created s') presentKey 3 1 2 = true)
      /\ (if equal pv rv
          then nth_error (getOperands b) 4 = Some presentValue
          else isConcat (created s') presentValue 4 2 2 = true)
      /\ countOps AtenCatOp (created s')
         = ((if equal pk rk then 0 else 1)
            + (if equal pv rv then 0 else 1))%nat.
Proof.
  intros b s' pk pv rk rv H Hpk Hpv Hrk Hrv.
  gqa_validated H a EA EOT ERT.
  all: gqa_created H EOT ERT Ek Ev.
  all: unfold operandSizes, resultSizes, getOperands in *;
       rewrite EOT in *; rewrite ERT in *;
       cbn in Hpk, Hpv, Hrk, Hrv;
       inversion Hpk; inversion Hpv; inversion Hrk; inversion Hrv; subst;
       rewrite Ek, Ev.
  all: do 3 eexists; repeat split.
Qed.

Lemma present_cache_outputs_witness :
  exists attention presentKey presentValue,
    replacement (stateAfter (GroupQueryAttention (gqaRecord 0 2 1 2 8 7)))
      = Some [attention; presentKey; presentValue]
    /\ (if equal [1; 2; 4; 4] [1; 2; 6; 4]
        then nth_error (getOperands (gqaRecord 0 2 1 2 8 7)) 3
             = Some presentKey
        else isConcat
               (created (stateAfter
                           (GroupQueryAttention (gqaRecord 0 2 1 2 8 7))))
               presentKey 3 1 2 = true)
    /\ (if equal [1; 2; 4; 4] [1; 2; 4; 4]
        then nth_error (getOperands (gqaRecord 0 2 1 2 8 7)) 4
             = Some presentValue
        else isConcat
               (created (stateAfter
                           (GroupQueryAttention (gqaRecord 0 2 1 2 8 7))))
               presentValue 4 2 2 = true)
    /\ countOps AtenCatOp
         (created (stateAfter (GroupQueryAttention (gqaRecord 0 2 1 2 8 7))))
       = ((if equal [1; 2; 4; 4]%Z [1; 2; 6; 4]%Z then 0 else 1)
          + (if equal [1; 2; 4; 4]%Z [1; 2; 4; 4]%Z then 0 else 1))%nat.
Proof.
  apply (present_cache_outputs (gqaRecord 0 2 1 2 8 7)
           (stateAfter (GroupQueryAttention (gqaRecord 0 2 1 2 8 7)))
           [1; 2; 4; 4] [1; 2; 4; 4] [1; 2; 6; 4] [1; 2; 4; 4]);
    vm_compute; reflexivity.
Defined.

(** ** Head size (C10) *)




(** A record that passes the validation and whose past key is unranked:
    the rule reads the sizes of the past key and has no defined result. *)
Lemma unranked_past_key_no_result :
  GroupQueryAttention gqaUnrankedPastKey initialState = None.
Proof. vm_compute. reflexivity. Qed.



(** ** Position ids of the rotary embedding (C3, C4) *)












(** A fresh prompt of three tokens in two batch rows: the continuation
    predicate is false, and the position ids have no value. *)
Lemma prompt_position_ids_two_rows :
  exists s',
    GroupQueryAttention (gqaRecord 1 2 2 3 8 9) initialState
      = Some (Success, s')
    /\ isSubsequentPromptValue (gqaOperandValues [2; 2] 3) (created s')
       = Some (RBool false)
    /\ positionIdsValue (gqaOperandValues [2; 2] 3) (created s') = None.
Proof.
  eexists. split; [vm_compute; reflexivity|].
  split; vm_compute; reflexivity.
Qed.



(** A continuation in one batch row: three new tokens after a cache that
    then holds six tokens ([seqlens_k = [5]]); the position ids are the
    ones the specification describes. *)
Lemma continuation_position_ids_one_row :
  exists s',
    GroupQueryAttention (gqaRecord 1 2 1 3 8 9) initialState
      = Some (Success, s')
    /\ observe (isSubsequentPromptValue (gqaOperandValues [5] 6) (created s'))
       = OBool true
    /\ observe (positionIdsValue (gqaOperandValues [5] 6) (created s'))
       = OTensor [1; 3] (concat (continuationPositionIds [5] 3)).
Proof.
  eexists. split; [vm_compute; reflexivity|].
  split; vm_compute; reflexivity.
Qed.

(** C4: the position ids of a continuation are to be computed row by
    row, adding each row's [past_length].  With two batch rows
    ([seqlens_k = [5; 7]], three new tokens) the created operations do not
    compute them: the [AtenViewOp] applied to the past lengths [[3; 5]] is
    given the size list [[1; 1]] (its first constant, named
    [cstIntMinusOne] in the rule, has the value 1), which is not a view
    of a tensor of two elements, so the position ids handed to the rotary
    embedding have no value.  The specification describes
    [[3; 4; 5]; [5; 6; 7]]. *)
Theorem continuation_two_rows_view_fails :
  exists s',
    GroupQueryAttention (gqaRecord 1 2 2 3 8 9) initialState
      = Some (Success, s')
    /\ observe (isSubsequentPromptValue (gqaOperandValues [5; 7] 8)
                                        (created s'))
       = OBool true
    /\ observe (operandValueOf (gqaOperandValues [5; 7] 8) (created s')
                               AtenViewOp 0)
       = OTensor [2] [3; 5]
    /\ observe (operandValueOf (gqaOperandValues [5; 7] 8) (created s')
                               AtenViewOp 1)
       = OIntList [1; 1]
    /\ inferViewSizes [1; 1] (numel [2]) = None
    /\ inferViewSizes [-1; 1] (numel [2]) = Some [2; 1]
    /\ observe (positionIdsValue (gqaOperandValues [5; 7] 8) (created s'))
       = OError
    /\ continuationPositionIds [5; 7] 3 = [[3; 4; 5]; [5; 6; 7]].
Proof.
  eexists. split; [vm_compute; reflexivity|].
  repeat (split; [vm_compute; reflexivity|]).
  vm_compute; reflexivity.
Qed.

(** ** Fused matrix multiplication (C9) *)




Lemma wrapU_small w x : 0 <= x < 2 ^ w -> wrapU w x = x.
Proof. intros H. unfold wrapU. now apply Z.mod_small. Qed.






(** A transposition requested for a ranked lhs on which the helper has
    no defined result: the rule has none either. *)
Lemma FusedMatMul_lhs_transposition_no_result (U : Utils) b s lhs rhs transA
      transB transBatchA transBatchB resultType sizes :
  bindFusedMatMul b
    = Some (lhs, rhs, transA, transB, transBatchA, transBatchB, resultType) ->
  transA <> 0 ->
  sizesOf lhs = Some sizes ->
  createTorchTransposeOp U lhs (wrapU 32 (Z.of_nat (length sizes) - 2))
                         (wrapU 32 (Z.of_nat (length sizes) - 1))
                         (length (created s))
    = None ->
  FusedMatMul U b s = None.
Proof.
  intros HB HA HS HC. unfold FusedMatMul. rewrite HB.
  apply Z.eqb_neq in HA.
  unfold bind at 1. rewrite HA. cbn [negb].
  unfold sizesOf in HS.
  unfold getTensorRank, bind, castValueTensorType, ret, runBuilder.
  destruct (getType lhs) as [vt| | | | | |]; try discriminate HS.
  cbn [option_map]. rewrite HS. cbn [option_map].
  now rewrite HC.
Qed.

Lemma swapSizes_out_of_range sizes a b :
  (length sizes <= a)%nat -> swapSizes sizes a b = None.
Proof.
  intros H. unfold swapSizes. apply nth_error_None in H. now rewrite H.
Qed.

(** A vector as the lhs, with [transA] and [transBatchA] set: the
    dimension [rank - 2] wraps around in [unsigned] arithmetic, the
    helper modelled from the specification has no defined result, and
    neither has the rule. *)
Lemma fused_matmul_vector_no_result :
  FusedMatMul specUtils fusedMatMulVector initialState = None.
Proof.
  apply (FusedMatMul_lhs_transposition_no_result specUtils fusedMatMulVector
           initialState
           (mkValue (OperandOf 0) (tensorTy [4] f32))
           (mkValue (OperandOf 1) (tensorTy [4; 5] f32))
           1 0 1 0 (mkVTT (Some [5]) (Some f32)) [4]).
  - reflexivity.
  - discriminate.
  - reflexivity.
  - change (createTorchTransposeOp specUtils) with spec_createTorchTransposeOp.
    unfold spec_createTorchTransposeOp.
    cbn [getType tensorTy getOptionalSizes].
    rewrite swapSizes_out_of_range; [reflexivity|].
    cbn [length]. apply Nat2Z.inj_le.
    rewrite Z2Nat.id by (vm_compute; discriminate).
    vm_compute. discriminate.
Qed.



(** With [transBatchA] set and a transposition of the lhs requested, the
    rule has created the transposition before it declines. *)
Lemma fused_matmul_trans_batch_after_transpose :
  exists s',
    FusedMatMul specUtils (fusedMatMul 1 0 1 0) initialState
      = Some (notifyMatchFailure
                "Unimplemented: support not present for transBatchA and transBatchB attribute",
              s')
    /\ map opName (created s')
       = [ConstantIntOp; ConstantIntOp; AtenTransposeIntOp]
    /\ replacement s' = None.
Proof. eexists. split; [vm_compute; reflexivity|]. split; reflexivity. Qed.

(** ** The quantization round trip (C5) *)

Lemma round_inject_Z n : round (inject_Z n) = n.
Proof.
  unfold round. rewrite Qfloor_Z.
  replace (Qcompare (inject_Z n - inject_Z n) (1 # 2)) with Lt; [reflexivity|].
  symmetry. unfold Qcompare, Qminus, Qplus, Qopp, inject_Z. simpl.
  apply Z.compare_lt_iff. lia.
Qed.

Lemma round_comp x y : (x == y)%Q -> round x = round y.
Proof.
  intros E. unfold round. rewrite (Qfloor_comp _ _ E).
  assert (E' : (x - inject_Z (Qfloor y) == y - inject_Z (Qfloor y))%Q)
    by now rewrite E.
  now rewrite (Qcompare_comp _ _ E' (1 # 2) (1 # 2) (Qeq_refl _)).
Qed.

Lemma clamp_to_representable dtype raw :
  representable dtype raw -> clamp_to dtype raw = raw.
Proof.
  unfold representable, clamp_to.
  destruct (dtypeRange dtype) as [[lo hi]|]; [lia | contradiction].
Qed.

(** C5: for every raw value representable in the target dtype,
    requantizing its dequantization with the same non-zero scale and the
    same zero point gives the raw value back:
    [quantize(dequantize(raw, s, z), s, z, dtype) = raw]. *)
Theorem quantize_dequantize_round_trip :
  forall raw (s : Q) z dtype,
    representable dtype raw ->
    ~ (s == 0)%Q ->
    quantize (dequantize raw s z) s z dtype = raw.
Proof.
  intros raw s z dtype HR HS. unfold quantize, dequantize.
  rewrite (round_comp _ (inject_Z (raw - z))) by now apply Qdiv_mult_l.
  rewrite round_inject_Z.
  replace (raw - z + z) with raw by lia.
  now apply clamp_to_representable.
Qed.

Lemma quantize_dequantize_round_trip_witness :
  quantize (dequantize 200 (1 # 2) 3) (1 # 2) 3 QUInt8Type = 200.
Proof.
  apply (quantize_dequantize_round_trip 200 (1 # 2) 3 QUInt8Type).
  - unfold representable. simpl. lia.
  - discriminate.
Defined.

(* ===================================================================== *)
(** * Part VII. Properties of the finalizing pass                         *)
(* ===================================================================== *)

Module BackendTypeConversionProperties.

Import BackendTypeConversion.


Lemma OperationName_eqb_eq a b : OperationName_eqb a b = true -> a = b.
Proof.
  unfold OperationName_eqb. now destruct (OperationName_eq_dec a b).
Qed.

(** ** What [setupFinalization] sets up *)

Lemma setupFinalization_patterns names : forall target patterns,
  snd (setupFinalization names target patterns)
  = patterns ++ map FinalizeMaterialization names.
Proof.
  induction names as [|n names IH]; intros; simpl.
  - now rewrite app_nil_r.
  - rewrite IH, <- app_assoc. reflexivity.
Qed.

Lemma setupFinalization_unknown names : forall target patterns,
  unknownOpLegality (fst (setupFinalization names target patterns))
  = unknownOpLegality target.
Proof.
  induction names as [|n names IH]; intros; simpl; [reflexivity|].
  now rewrite IH.
Qed.

Lemma setupFinalization_action names name : forall target patterns,
  getOpAction (fst (setupFinalization names target patterns)) name
  = if existsb (OperationName_eqb name) names then Some Illegal
    else getOpAction target name.
Proof.
  induction names as [|n names IH]; intros; simpl; [reflexivity|].
  rewrite IH. destruct (existsb (OperationName_eqb name) names).
  - now rewrite orb_true_r.
  - rewrite orb_false_r. unfold getOpAction, addIllegalOp, setOpAction.
    simpl. unfold OperationName_eqb.
    destruct (OperationName_eq_dec n name), (OperationName_eq_dec name n);
      congruence.
Qed.

Lemma runOnOperation_result
    setupBackendTypeConversion applyFullConversion applyPatternsGreedily
    func :
  resultFunc (runOnOperation setupBackendTypeConversion applyFullConversion
                applyPatternsGreedily func)
  = stripTorchAttrs
      (snd (applyPatternsGreedily
              (convertedFunc setupBackendTypeConversion applyFullConversion
                             func)
              [ExtFTruncFPattern])).
Proof.
  unfold runOnOperation, convertedFunc, finalizingTarget, finalizingPatterns.
  destruct (finalizingSetup setupBackendTypeConversion) as [[tc t] ps].
  cbn [fst snd].
  destruct (applyFullConversion func t ps) as [r f1]. cbn [fst snd].
  destruct (applyPatternsGreedily f1 [ExtFTruncFPattern]) as [r2 f2].
  reflexivity.
Qed.

Section PassProperties.

Variable setupBackendTypeConversion :
  ConversionTarget -> TypeConverter -> ConversionTarget * TypeConverter.
Variable applyFullConversion :
  FuncOp -> ConversionTarget -> list RewritePattern -> LogicalResult * FuncOp.
Variable applyPatternsGreedily :
  FuncOp -> list RewritePattern -> LogicalResult * FuncOp.

Local Abbreviation target := (finalizingTarget setupBackendTypeConversion).
Local Abbreviation patterns :=
  (finalizingPatterns setupBackendTypeConversion).
Local Abbreviation run :=
  (runOnOperation setupBackendTypeConversion applyFullConversion
                  applyPatternsGreedily).

Lemma finalizingTarget_action name :
  getOpAction target name
  = if existsb (OperationName_eqb name) materializationOps then Some Illegal
    else getOpAction
           (fst (setupBackendTypeConversion emptyTarget
                   (addConversion (fun t => Some t) (mkTypeConverter []))))
           name.
Proof.
  unfold finalizingTarget, finalizingSetup.
  destruct (setupBackendTypeConversion _ _) as [t0 tc].
  destruct (setupFinalization materializationOps t0 []) as [t1 ps] eqn:E.
  cbn [fst snd]. unfold getOpAction, markUnknownOpDynamicallyLegal.
  cbn [opActions].
  change t1 with (fst (t1, ps)). rewrite <- E.
  apply (setupFinalization_action materializationOps name t0 []).
Qed.


(** Every materialization is illegal for the finalizing target, whatever
    [setupBackendTypeConversion] has declared. *)
Lemma materialization_is_illegal op :
  isMaterialization op = true -> isLegal target op = false.
Proof.
  intros H. unfold isLegal. rewrite finalizingTarget_action.
  unfold isMaterialization in H. now rewrite H.
Qed.

Lemma runOnOperation_failed func :
  passFailed (run func)
  = failed (fst (applyFullConversion func target patterns))
    || failed (fst (applyPatternsGreedily
                      (convertedFunc setupBackendTypeConversion
                                     applyFullConversion func)
                      [ExtFTruncFPattern])).
Proof.
  unfold runOnOperation, convertedFunc, finalizingTarget, finalizingPatterns.
  destruct (finalizingSetup setupBackendTypeConversion) as [[tc t] ps].
  cbn [fst snd].
  destruct (applyFullConversion func t ps) as [r f1]. cbn [fst snd].
  destruct (applyPatternsGreedily f1 [ExtFTruncFPattern]) as [r2 f2].
  reflexivity.
Qed.

(** ** [stripTorchAttrs] *)

Lemma stripLoop_spec attrs : forall modified newAttrs,
  stripLoop attrs modified newAttrs
  = (modified || existsb (fun a => starts_with "torch." (fst a)) attrs,
     newAttrs ++ filter notTorchAttr attrs).
Proof.
  induction attrs as [|a attrs IH]; intros; cbn [stripLoop existsb filter].
  - now rewrite orb_false_r, app_nil_r.
  - unfold notTorchAttr at 1.
    destruct (starts_with "torch." (fst a)); cbn [negb orb].
    + rewrite IH. now rewrite orb_true_r.
    + rewrite IH, <- app_assoc. reflexivity.
Qed.

Lemma filter_idem {A} (f : A -> bool) l : filter f (filter f l) = filter f l.
Proof.
  induction l as [|x l IH]; simpl; [reflexivity|].
  destruct (f x) eqn:E; simpl; [rewrite E|]; now rewrite IH.
Qed.

Lemma filter_none {A} (f g : A -> bool) l :
  (forall x, g x = true -> f x = false) -> filter f (filter g l) = [].
Proof.
  intros H. induction l as [|x l IH]; simpl; [reflexivity|].
  destruct (g x) eqn:E; simpl; [rewrite (H x E)|]; exact IH.
Qed.

Lemma filter_all {A} (f : A -> bool) l :
  existsb (fun x => negb (f x)) l = false -> filter f l = l.
Proof.
  induction l as [|x l IH]; simpl; [reflexivity|].
  intros H. apply orb_false_iff in H as [H1 H2].
  apply negb_false_iff in H1. rewrite H1. now rewrite IH.
Qed.

Lemma filter_comm {A} (f g : A -> bool) l :
  filter f (filter g l) = filter g (filter f l).
Proof.
  induction l as [|x l IH]; simpl; [reflexivity|].
  destruct (f x) eqn:Ef, (g x) eqn:Eg; simpl;
    rewrite ?Ef, ?Eg; now rewrite IH.
Qed.

(** [stripTorchAttrs] keeps the body, removes exactly the dialect
    attributes in the ["torch."] namespace, and keeps every other
    attribute. *)
Lemma stripTorchAttrs_spec func :
  funcBody (stripTorchAttrs func) = funcBody func
  /\ getDialectAttrs (stripTorchAttrs func)
     = filter notTorchAttr (getDialectAttrs func)
  /\ filter (fun a => negb (isDialectAttr a))
            (funcAttrs (stripTorchAttrs func))
     = filter (fun a => negb (isDialectAttr a)) (funcAttrs func).
Proof.
  unfold stripTorchAttrs. rewrite stripLoop_spec. cbn [orb app].
  destruct (existsb _ (getDialectAttrs func)) eqn:E.
  - unfold setDialectAttrs, getDialectAttrs. cbn [funcBody funcAttrs].
    split; [reflexivity|]. split.
    + rewrite filter_app.
      rewrite (filter_none isDialectAttr (fun a => negb (isDialectAttr a)))
        by (intros x Hx; now apply negb_true_iff in Hx).
      rewrite app_nil_r, filter_comm. now rewrite filter_idem.
    + rewrite filter_app.
      rewrite (filter_comm _ notTorchAttr).
      rewrite (filter_none (fun a => negb (isDialectAttr a)) isDialectAttr)
        by (intros x Hx; now rewrite Hx).
      cbn [filter app]. apply filter_idem.
  - split; [reflexivity|]. split; [|reflexivity].
    symmetry. apply filter_all. rewrite <- E. clear E.
    induction (getDialectAttrs func) as [|a l IH]; [reflexivity|].
    cbn [existsb]. rewrite IH. unfold notTorchAttr.
    now rewrite negb_involutive.
Qed.



(** C7, amended: given a function whose operations are all legal for the
    finalizing target (so it has no materialization) and in which the
    cleanup pattern finds no widening followed by a narrowing back to the
    original type, the pass succeeds and leaves the function as it is
    except for the dialect attributes in the ["torch."] namespace, which
    it removes; the drivers leave alone what is legal and what no pattern
    matches. *)
Theorem finalizing_pass_on_legal_function :
  (forall func t ps,
     (forall op, In op (funcBody func) -> isLegal t op = true) ->
     applyFullConversion func t ps = (success, func)) ->
  (forall func ps,
     (forall op p, In op (funcBody func) -> In p ps ->
                   rootName p = opName op ->
                   matchAndRewrite p func op (opOperands op) = MatchFailure) ->
     applyPatternsGreedily func ps = (success, func)) ->
  forall func,
    (forall op, In op (funcBody func) -> isLegal target op = true) ->
    (forall op, In op (funcBody func) -> opName op = TruncFOp ->
                ExtFTruncFPattern_matchAndRewrite func op (opOperands op)
                = MatchFailure) ->
    noMaterializations func = true
    /\ passFailed (run func) = false
    /\ funcBody (resultFunc (run func)) = funcBody func
    /\ getDialectAttrs (resultFunc (run func))
       = filter notTorchAttr (getDialectAttrs func)
    /\ filter (fun a => negb (isDialectAttr a))
              (funcAttrs (resultFunc (run func)))
       = filter (fun a => negb (isDialectAttr a)) (funcAttrs func).
Proof.
  intros FullId GreedyId func HLegal HNoPair.
  split.
  - unfold noMaterializations. apply forallb_forall. intros op HIn.
    destruct (isMaterialization op) eqn:E; [|reflexivity].
    pose proof (HLegal op HIn) as L.
    rewrite (materialization_is_illegal op E) in L. discriminate L.
  - assert (E : run func = mkPassResult false (stripTorchAttrs func)).
    { unfold runOnOperation.
      pose proof (FullId func target patterns HLegal) as E1.
      unfold finalizingTarget, finalizingPatterns in E1.
      destruct (finalizingSetup setupBackendTypeConversion) as [[tc t] ps].
      cbn [fst snd] in E1. rewrite E1.
      rewrite (GreedyId func [ExtFTruncFPattern]); [reflexivity|].
      intros op p HIn [<- | []] HRoot. cbn [rootName] in HRoot.
      apply HNoPair; [exact HIn | now symmetry]. }
    rewrite E. cbn [passFailed resultFunc].
    split; [reflexivity|]. apply stripTorchAttrs_spec.
Qed.

End PassProperties.

(** ** The reference drivers *)

Lemma remap_nil v : remap [] v = v.
Proof. reflexivity. Qed.

Lemma remapOperands_nil op : remapOperands [] op = op.
Proof.
  destruct op as [id n ops rts]. unfold remapOperands. cbn.
  f_equal. induction ops as [|v ops IH]; simpl; [reflexivity|].
  now rewrite IH.
Qed.

Lemma map_remapOperands_nil ops : map (remapOperands []) ops = ops.
Proof.
  induction ops as [|op ops IH]; simpl; [reflexivity|].
  now rewrite remapOperands_nil, IH.
Qed.

Lemma convertOps_legal func t ps ops : forall m kept,
  (forall op, In op ops -> isLegal t op = true) ->
  convertOps func t ps ops m kept = Some (kept ++ ops, m).
Proof.
  induction ops as [|op ops IH]; intros m kept H; simpl.
  - now rewrite app_nil_r.
  - rewrite (H op (or_introl eq_refl)).
    rewrite IH by (intros o Ho; apply H; now right).
    now rewrite <- app_assoc.
Qed.

Lemma refApplyFullConversion_sound func t ps func' :
  refApplyFullConversion func t ps = (Success, func') ->
  forall op, In op (funcBody func') -> isLegal t op = true.
Proof.
  unfold refApplyFullConversion.
  destruct (convertOps func t ps (funcBody func) [] []) as [[kept m]|];
    [|discriminate].
  destruct (forallb (isLegal t) (map (remapOperands m) kept)) eqn:E;
    [|discriminate].
  intros H op HIn. inversion H; subst. cbn [funcBody] in HIn.
  now apply (proj1 (forallb_forall _ _) E).
Qed.

Lemma refApplyFullConversion_legal func t ps :
  (forall op, In op (funcBody func) -> isLegal t op = true) ->
  refApplyFullConversion func t ps = (success, func).
Proof.
  intros H. unfold refApplyFullConversion.
  rewrite (convertOps_legal func t ps (funcBody func) [] [] H).
  cbn [app]. rewrite map_remapOperands_nil.
  replace (forallb (isLegal t) (funcBody func)) with true
    by (symmetry; now apply forallb_forall).
  now destruct func.
Qed.

Lemma firstMatch_none ps func op :
  (forall p, In p ps -> rootName p = opName op ->
             matchAndRewrite p func op (opOperands op) = MatchFailure) ->
  firstMatch ps func op (opOperands op) = None.
Proof.
  induction ps as [|p ps IH]; intros H; simpl; [reflexivity|].
  destruct (OperationName_eqb (rootName p) (opName op)) eqn:E.
  - rewrite (H p (or_introl eq_refl) (OperationName_eqb_eq _ _ E)).
    apply IH. intros q Hq. apply H. now right.
  - apply IH. intros q Hq. apply H. now right.
Qed.

Lemma findRewrite_none ps func ops :
  (forall op, In op ops ->
              firstMatch ps func op (opOperands op) = None) ->
  findRewrite ps func ops = None.
Proof.
  induction ops as [|op ops IH]; intros H; simpl; [reflexivity|].
  rewrite (H op (or_introl eq_refl)). apply IH.
  intros o Ho. apply H. now right.
Qed.

Lemma refApplyPatternsGreedily_no_match func ps :
  (forall op p, In op (funcBody func) -> In p ps ->
                rootName p = opName op ->
                matchAndRewrite p func op (opOperands op) = MatchFailure) ->
  refApplyPatternsGreedily func ps = (success, func).
Proof.
  intros H. unfold refApplyPatternsGreedily. f_equal.
  destruct (length (funcBody func)); [reflexivity|].
  cbn [greedyLoop]. rewrite findRewrite_none; [reflexivity|].
  intros op HIn. apply firstMatch_none. intros p Hp. now apply H.
Qed.

Lemma greedyLoop_names fuel : forall ps func op',
  In op' (funcBody (greedyLoop fuel ps func)) ->
  exists op, In op (funcBody func) /\ opName op = opName op'.
Proof.
  induction fuel as [|fuel IH]; intros ps func op' HIn.
  - now exists op'.
  - cbn [greedyLoop] in HIn.
    destruct (findRewrite ps func (funcBody func)) as [[o values]|].
    + destruct (IH _ _ _ HIn) as (op1 & HIn1 & HN1).
      unfold replaceInFunc in HIn1. cbn [funcBody] in HIn1.
      apply in_map_iff in HIn1 as (op0 & <- & HIn0).
      apply filter_In in HIn0 as [HIn0 _].
      exists op0. split; [exact HIn0 | exact HN1].
    + now exists op'.
Qed.

Lemma refApplyPatternsGreedily_names func ps r func' :
  refApplyPatternsGreedily func ps = (r, func') ->
  forall op', In op' (funcBody func') ->
              exists op, In op (funcBody func) /\ opName op = opName op'.
Proof.
  unfold refApplyPatternsGreedily. intros H. inversion H; subst.
  apply greedyLoop_names.
Qed.

(** C7, counterexample: a function without any materialization, a
    widening followed by the narrowing back, is not left as it is: the
    cleanup pattern replaces the narrowing by the original operand. *)
Lemma body_unchanged_counterexample : ~ bodyUnchangedClaim widenThenNarrow.
Proof.
  intros C. destruct (C eq_refl) as [_ B]. vm_compute in B. discriminate B.
Qed.

(** The stranded materialization of [strandedFunc] is still in the
    function the pass returns, and the pass has signalled failure. *)
Lemma stranded_materialization_is_kept :
  In (mkOperation 1 ToBuiltinTensorOp [opResult 0 TorchValueTensorType]
                  [BuiltinTensorType])
     (funcBody (resultFunc (refRunOnOperation strandedFunc)))
  /\ passFailed (refRunOnOperation strandedFunc) = true.
Proof.
  split; [|reflexivity]. vm_compute. right. left. reflexivity.
Qed.


Lemma finalizing_pass_on_legal_function_witness :
  noMaterializations legalFunc = true
  /\ passFailed (refRunOnOperation legalFunc) = false
  /\ funcBody (resultFunc (refRunOnOperation legalFunc)) = funcBody legalFunc
  /\ getDialectAttrs (resultFunc (refRunOnOperation legalFunc))
     = filter notTorchAttr (getDialectAttrs legalFunc)
  /\ filter (fun a => negb (isDialectAttr a))
            (funcAttrs (resultFunc (refRunOnOperation legalFunc)))
     = filter (fun a => negb (isDialectAttr a)) (funcAttrs legalFunc).
Proof.
  apply (finalizing_pass_on_legal_function
           refSetupBackendTypeConversion
           refApplyFullConversion refApplyPatternsGreedily
           refApplyFullConversion_legal
           refApplyPatternsGreedily_no_match legalFunc).
  - intros op HIn. simpl in HIn.
    destruct HIn as [<- | [<- | []]]; reflexivity.
  - intros op HIn. simpl in HIn.
    destruct HIn as [<- | [<- | []]]; discriminate.
Defined.

(** ** Further properties of the pass *)

Lemma starts_with_torch_contains_dot s :
  starts_with "torch." s = true -> contains_dot s = true.
Proof.
  unfold starts_with. intros H.
  do 6 (destruct s as [|? s]; [discriminate H|];
        cbn [String.prefix] in H;
        match type of H with
        | (if ?d then _ else _) = true =>
            destruct d as [<-|]; [|discriminate H]
        end).
  reflexivity.
Qed.

Lemma existsb_filter_none {A} (f g : A -> bool) l :
  (forall x, f x = true -> g x = false) -> existsb f (filter g l) = false.
Proof.
  intros H. induction l as [|x l IH]; simpl; [reflexivity|].
  destruct (g x) eqn:G; simpl; [|exact IH].
  destruct (f x) eqn:F; [|exact IH]. rewrite (H x F) in G. discriminate G.
Qed.

Lemma existsb_filter_all {A} (f g : A -> bool) l :
  (forall x, f x = true -> g x = true) ->
  existsb f (filter g l) = existsb f l.
Proof.
  intros H. induction l as [|x l IH]; simpl; [reflexivity|].
  destruct (g x) eqn:G; simpl; [now rewrite IH|].
  destruct (f x) eqn:F; [|exact IH]. rewrite (H x F) in G. discriminate G.
Qed.

Lemma torch_attr_is_dialect_attr (a : string * string) :
  starts_with "torch." (fst a) = true -> isDialectAttr a = true.
Proof. apply starts_with_torch_contains_dot. Qed.

Lemma stripTorchAttrs_unchanged func :
  existsb (fun a => starts_with "torch." (fst a)) (funcAttrs func) = false ->
  stripTorchAttrs func = func.
Proof.
  intros H. unfold stripTorchAttrs. rewrite stripLoop_spec. cbn [orb].
  unfold getDialectAttrs.
  rewrite existsb_filter_all by apply torch_attr_is_dialect_attr.
  now rewrite H.
Qed.

Lemma stripTorchAttrs_no_torch func :
  existsb (fun a => starts_with "torch." (fst a))
          (funcAttrs (stripTorchAttrs func)) = false.
Proof.
  unfold stripTorchAttrs. rewrite stripLoop_spec. cbn [orb app].
  destruct (existsb _ (getDialectAttrs func)) eqn:E.
  - unfold setDialectAttrs. cbn [funcAttrs]. rewrite existsb_app.
    apply orb_false_iff. split; apply existsb_filter_none; intros x Hx.
    + unfold notTorchAttr. now rewrite Hx.
    + now rewrite (torch_attr_is_dialect_attr x Hx).
  - unfold getDialectAttrs in E.
    now rewrite existsb_filter_all in E by apply torch_attr_is_dialect_attr.
Qed.

(** X1: [stripTorchAttrs] leaves the body of the function alone, leaves
    no attribute whose name starts with ["torch."], and keeps every other
    attribute of the function, dialect attribute or not. *)
Theorem stripTorchAttrs_removes_torch_namespace func :
  funcBody (stripTorchAttrs func) = funcBody func
  /\ existsb (fun a => starts_with "torch." (fst a))
             (funcAttrs (stripTorchAttrs func)) = false
  /\ forall a,
       starts_with "torch." (fst a) = false ->
       (In a (funcAttrs (stripTorchAttrs func)) <-> In a (funcAttrs func)).
Proof.
  split; [apply stripTorchAttrs_spec|].
  split; [apply stripTorchAttrs_no_torch|].
  intros a Ha. unfold stripTorchAttrs. rewrite stripLoop_spec.
  cbn [orb app].
  destruct (existsb _ (getDialectAttrs func)); [|reflexivity].
  unfold setDialectAttrs, getDialectAttrs. cbn [funcAttrs].
  rewrite in_app_iff, !filter_In. unfold notTorchAttr. rewrite Ha.
  destruct (isDialectAttr a); cbn [negb]; intuition congruence.
Qed.

(** X2: a function without any attribute in the ["torch."] namespace is
    returned as it is, the order of its attributes included; so
    [stripTorchAttrs] is idempotent. *)
Theorem stripTorchAttrs_idempotent func :
  (existsb (fun a => starts_with "torch." (fst a)) (funcAttrs func) = false ->
   stripTorchAttrs func = func)
  /\ stripTorchAttrs (stripTorchAttrs func) = stripTorchAttrs func.
Proof.
  split; [apply stripTorchAttrs_unchanged|].
  apply stripTorchAttrs_unchanged, stripTorchAttrs_no_torch.
Qed.

Lemma stripTorchAttrs_removes_torch_namespace_witness :
  In ("llvm.emit_c_interface", "unit") (funcAttrs (stripTorchAttrs torchFunc))
  <-> In ("llvm.emit_c_interface", "unit") (funcAttrs torchFunc).
Proof.
  apply (proj2 (proj2 (stripTorchAttrs_removes_torch_namespace torchFunc))
           ("llvm.emit_c_interface", "unit")).
  reflexivity.
Defined.

Lemma stripTorchAttrs_idempotent_witness :
  stripTorchAttrs widenThenNarrow = widenThenNarrow.
Proof.
  apply (proj1 (stripTorchAttrs_idempotent widenThenNarrow)).
  reflexivity.
Defined.

Lemma Type_eqb_eq a b : Type_eqb a b = true <-> a = b.
Proof.
  unfold Type_eqb. destruct (Type_eq_dec a b); split; congruence.
Qed.

(** X3: [ExtFTruncFPattern] replaces a narrowing exactly when its operand
    is the result of a widening whose own operand has the type of the
    narrowing's result; the narrowing is then replaced by that one value,
    so the replacement has the type of what it replaces. *)
Theorem ExtFTruncFPattern_rewrites_iff func truncf operands values :
  ExtFTruncFPattern_matchAndRewrite func truncf operands = ReplaceOp values
  <-> exists operand extf parentOperand,
        opOperands truncf = [operand]
        /\ opResultTypes truncf = [getType parentOperand]
        /\ getDefiningOp func operand = Some extf
        /\ opName extf = ExtFOp
        /\ opOperands extf = [parentOperand]
        /\ values = [parentOperand].
Proof.
  unfold ExtFTruncFPattern_matchAndRewrite. split.
  - destruct (opOperands truncf) as [|operand [|]]; try discriminate.
    destruct (opResultTypes truncf) as [|t [|]]; try discriminate.
    destruct (getDefiningOp func operand) as [extf|] eqn:ED; [|discriminate].
    destruct (OperationName_eqb (opName extf) ExtFOp) eqn:EN;
      [|discriminate].
    destruct (opOperands extf) as [|p [|]] eqn:EP; try discriminate.
    destruct (Type_eqb t (getType p)) eqn:ET; cbn [negb]; [|discriminate].
    intros H. inversion H; subst.
    apply Type_eqb_eq in ET. subst t.
    apply OperationName_eqb_eq in EN.
    exists operand, extf, p. auto 10.
  - intros (operand & extf & p & -> & -> & -> & EN & -> & ->).
    rewrite EN. cbn.
    now rewrite (proj2 (Type_eqb_eq (getType p) (getType p)) eq_refl).
Qed.

(** X4: [setupFinalization] makes every listed operation illegal, also
    one that was legal before, leaves the action of every other
    operation and the legality of unknown operations as they were, and
    appends one [FinalizeMaterialization] pattern per listed operation,
    in order, after the patterns already there. *)
Theorem setupFinalization_effect names target patterns :
  (forall name,
     getOpAction (fst (setupFinalization names target patterns)) name
     = if existsb (OperationName_eqb name) names then Some Illegal
       else getOpAction target name)
  /\ unknownOpLegality (fst (setupFinalization names target patterns))
     = unknownOpLegality target
  /\ snd (setupFinalization names target patterns)
     = patterns ++ map FinalizeMaterialization names.
Proof.
  split; [intros name; apply setupFinalization_action|].
  split; [apply setupFinalization_unknown|apply setupFinalization_patterns].
Qed.

(** X5: whatever the conversion drivers do, and also when the pass has
    signalled failure, the function the finalizing pass leaves has no
    attribute in the ["torch."] namespace: the pass does not return after
    a failure. *)
Theorem finalizing_pass_always_strips_torch_attrs
    setupBackendTypeConversion applyFullConversion applyPatternsGreedily
    func :
  existsb (fun a => starts_with "torch." (fst a))
          (funcAttrs
             (resultFunc
                (runOnOperation setupBackendTypeConversion
                   applyFullConversion applyPatternsGreedily func)))
  = false.
Proof.
  unfold runOnOperation.
  destruct (finalizingSetup setupBackendTypeConversion) as [[tc t] ps].
  destruct (applyFullConversion func t ps) as [r f1].
  destruct (applyPatternsGreedily f1 [ExtFTruncFPattern]) as [r2 f2].
  cbn [resultFunc]. apply stripTorchAttrs_no_torch.
Qed.

(** X6: the finalizing pass for Stablehlo, with a full conversion that
    leaves alone what is legal: a function whose operations are all
    legal for the finalizing target passes, its body is unchanged, a
    widening followed by a narrowing included, since this pass has no
    cleanup of floating-point conversions, and its ["torch."] attributes
    are removed. *)
Theorem stablehlo_finalizing_pass_on_legal_function
    setupBackendTypeConversionForStablehlo applyFullConversion :
  (forall func t ps,
     (forall op, In op (funcBody func) -> isLegal t op = true) ->
     applyFullConversion func t ps = (success, func)) ->
  forall func,
    (forall op,
       In op (funcBody func) ->
       isLegal (finalizingTarget setupBackendTypeConversionForStablehlo) op
       = true) ->
    passFailed (runOnOperationForStablehlo
                  setupBackendTypeConversionForStablehlo
                  applyFullConversion func) = false
    /\ resultFunc (runOnOperationForStablehlo
                     setupBackendTypeConversionForStablehlo
                     applyFullConversion func)
       = stripTorchAttrs func.
Proof.
  intros FullId func HLegal. unfold runOnOperationForStablehlo.
  pose proof (FullId func
                (finalizingTarget setupBackendTypeConversionForStablehlo)
                (finalizingPatterns setupBackendTypeConversionForStablehlo)
                HLegal) as E.
  unfold finalizingTarget, finalizingPatterns in E.
  destruct (finalizingSetup setupBackendTypeConversionForStablehlo)
    as [[tc t] ps].
  cbn [fst snd] in E. rewrite E. split; reflexivity.
Qed.

Lemma stablehlo_finalizing_pass_on_legal_function_witness :
  passFailed (runOnOperationForStablehlo refSetupBackendTypeConversion
                refApplyFullConversion widenThenNarrow) = false
  /\ resultFunc (runOnOperationForStablehlo refSetupBackendTypeConversion
                   refApplyFullConversion widenThenNarrow)
     = stripTorchAttrs widenThenNarrow.
Proof.
  apply (stablehlo_finalizing_pass_on_legal_function
           refSetupBackendTypeConversion refApplyFullConversion
           refApplyFullConversion_legal widenThenNarrow).
  intros op HIn. simpl in HIn.
  destruct HIn as [<- | [<- | [<- | []]]]; reflexivity.
Defined.

(** X21: with a full conversion that succeeds only when every operation
    it leaves is legal, and a greedy driver that introduces no operation
    of a new name: a function on which the finalizing pass has not
    signalled failure contains no materialization any more. *)
Theorem finalizing_pass_success_leaves_no_materialization
    setupBackendTypeConversion applyFullConversion applyPatternsGreedily :
  (forall func t ps func',
     applyFullConversion func t ps = (Success, func') ->
     forall op, In op (funcBody func') -> isLegal t op = true) ->
  (forall func ps r func',
     applyPatternsGreedily func ps = (r, func') ->
     forall op', In op' (funcBody func') ->
                 exists op, In op (funcBody func) /\ opName op = opName op') ->
  forall func,
    passFailed (runOnOperation setupBackendTypeConversion applyFullConversion
                  applyPatternsGreedily func) = false ->
    noMaterializations
      (resultFunc (runOnOperation setupBackendTypeConversion
                     applyFullConversion applyPatternsGreedily func))
    = true.
Proof.
  intros Sound Names func HP.
  rewrite runOnOperation_failed in HP. rewrite runOnOperation_result.
  apply orb_false_iff in HP as [HF _].
  unfold noMaterializations.
  rewrite (proj1 (stripTorchAttrs_spec _)).
  unfold convertedFunc in *.
  destruct (applyFullConversion func
              (finalizingTarget setupBackendTypeConversion)
              (finalizingPatterns setupBackendTypeConversion))
    as [[|d] f1] eqn:E; [|discriminate HF].
  cbn [fst snd] in *.
  destruct (applyPatternsGreedily f1 [ExtFTruncFPattern]) as [r2 f2] eqn:G.
  cbn [snd]. apply forallb_forall. intros op' HIn.
  destruct (Names _ _ _ _ G op' HIn) as (op & HIn1 & HN).
  pose proof (Sound _ _ _ _ E op HIn1) as L.
  destruct (isMaterialization op') eqn:M; [|reflexivity].
  assert (M1 : isMaterialization op = true)
    by (unfold isMaterialization in *; now rewrite HN).
  rewrite (materialization_is_illegal _ op M1) in L. discriminate L.
Qed.

Lemma finalizing_pass_success_leaves_no_materialization_witness :
  noMaterializations (resultFunc (refRunOnOperation bridgedFunc)) = true.
Proof.
  apply (finalizing_pass_success_leaves_no_materialization
           refSetupBackendTypeConversion refApplyFullConversion
           refApplyPatternsGreedily refApplyFullConversion_sound
           refApplyPatternsGreedily_names bridgedFunc).
  vm_compute. reflexivity.
Defined.

End BackendTypeConversionProperties.

(* ===================================================================== *)
(** * Part VIII. Further properties of the rewrite rules                  *)
(* ===================================================================== *)

(** ** Operations are only ever appended *)

Lemma grows_appendOnly {A} (m : Rewriter A) : appendOnly m -> grows m.
Proof. intros H s a s' E. now destruct (H s a s' E) as [_ X]. Qed.

Lemma grows_replaceOp values : grows (replaceOp values).
Proof.
  intros s a s' H. inversion H; subst. exists []. cbn.
  now rewrite app_nil_r.
Qed.

Lemma grows_bind {A B} (m : Rewriter A) (k : A -> Rewriter B) :
  grows m -> (forall a, grows (k a)) -> grows (bind m k).
Proof.
  intros Hm Hk s b s' H. apply bind_inv in H as (a & s1 & H1 & H2).
  destruct (Hm _ _ _ H1) as [o1 E1]. destruct (Hk _ _ _ _ H2) as [o2 E2].
  exists (o1 ++ o2). now rewrite E2, E1, app_assoc.
Qed.

Ltac grows_step :=
  first
    [ apply grows_replaceOp
    | apply grows_appendOnly;
      first
        [ apply appendOnly_extractAt
        | apply appendOnly_dequantizeAt
        | apply appendOnly_dequantizeConcatInputs
        | apply appendOnly_globalPoolKernel
        | apply appendOnly_rotaryBlock
        | apply appendOnly_createOp
        | apply appendOnly_runBuilder
        | apply pureRead_appendOnly;
          first [ apply pureRead_collectConcatInputs
                | apply pureRead_ret | apply pureRead_at
                | apply pureRead_cast | apply pureRead_getSizes
                | apply pureRead_getDtype | apply pureRead_getTensorRank
                | apply pureRead_orAbort | apply pureRead_abort ] ]
    | apply grows_bind; [|intros]
    | case_scrutinee ].

Ltac grows_rule :=
  unfold createConstantInt, createConstantFloat, createConstantBool,
         createConstantNone, create, replaceOpWithNewOp, quantizeAndReplace;
  repeat grows_step.

Lemma grows_rules (U : Utils) name version rule :
  In (name, version, rule) (populateComMicrosoftDomain U) ->
  forall b, grows (rule b).
Proof.
  intros HIn b. unfold populateComMicrosoftDomain in HIn. simpl in HIn.
  repeat destruct HIn as [HIn | HIn]; try contradiction;
    inversion HIn; subst; clear HIn.
  - unfold RotaryEmbedding. grows_rule.
  - unfold GroupQueryAttention. grows_rule.
  - unfold QLinearAdd. grows_rule.
  - unfold QLinearLeakyRelu. grows_rule.
  - unfold QLinearConcat. grows_rule.
  - unfold QLinearGlobalAveragePool. grows_rule.
  - unfold QLinearSigmoid. grows_rule.
  - unfold QLinearAveragePool. grows_rule.
  - unfold FusedMatMul. grows_rule.
  - unfold QLinearMul. grows_rule.
Qed.

(** ** What a successful rule has done *)

Lemma onSuccess_failure P d : onSuccess P (ret (Failure d)).
Proof. intros s s' H. discriminate H. Qed.

Lemma onSuccess_bind {A} P (m : Rewriter A) (k : A -> Rewriter LogicalResult) :
  (forall a, onSuccess P (k a)) -> onSuccess P (bind m k).
Proof.
  intros Hk s s' H. apply bind_inv in H as (a & s1 & _ & H2).
  now apply Hk in H2.
Qed.

Lemma onSuccess_bind_returns {A} P (Q : A -> Prop) (m : Rewriter A)
    (k : A -> Rewriter LogicalResult) :
  returns Q m ->
  (forall a, Q a -> onSuccess P (k a)) -> onSuccess P (bind m k).
Proof.
  intros Hm Hk s s' H. apply bind_inv in H as (a & s1 & H1 & H2).
  exact (Hk a (Hm _ _ _ H1) _ _ H2).
Qed.

Lemma onSuccess_replaceOp values :
  onSuccess (replacedBy (length values))
            (bind (replaceOp values) (fun _ => ret success)).
Proof.
  intros s s' H. inversion H; subst. now exists values.
Qed.

Lemma onSuccess_replaceOpWithNewOp name ty operands :
  onSuccess (replacedBy 1)
            (bind (replaceOpWithNewOp name ty operands)
                  (fun _ => ret success)).
Proof.
  intros s s' H. inversion H; subst. now eexists.
Qed.



Lemma returns_ret {A} (Q : A -> Prop) a : Q a -> returns Q (ret a).
Proof. intros H s x s' E. now inversion E; subst. Qed.

Lemma returns_bind {A B} (Q : B -> Prop) (m : Rewriter A)
    (k : A -> Rewriter B) :
  (forall a, returns Q (k a)) -> returns Q (bind m k).
Proof.
  intros Hk s b s' H. apply bind_inv in H as (a & s1 & _ & H2).
  now apply Hk in H2.
Qed.

Lemma handsOnFailure_inr {A} (a : A) : handsOnFailure (inr a).
Proof. intros diag E. discriminate E. Qed.

Lemma handsOnFailure_notify {A} msg :
  @handsOnFailure A (inl (notifyMatchFailure msg)).
Proof. intros diag E. inversion E. now eexists. Qed.

Ltac hands_on_failure :=
  repeat first
    [ apply returns_ret;
      first [apply handsOnFailure_inr | apply handsOnFailure_notify]
    | apply returns_bind; intros
    | case_scrutinee ].

Lemma returns_dequantizeConcatInputs U n : forall i a b c d,
  returns handsOnFailure (dequantizeConcatInputs U n i a b c d).
Proof.
  induction n as [|n IH]; intros; cbn [dequantizeConcatInputs].
  - apply returns_ret, handsOnFailure_inr.
  - repeat first
      [ apply IH
      | apply returns_ret; apply handsOnFailure_notify
      | apply returns_bind; intros
      | case_scrutinee ].
Qed.

(** A block that hands on a diagnostic or a value: the diagnostic is a
    failure, so the rule cannot succeed through it. *)
Ltac through_block :=
  apply (onSuccess_bind_returns _ (@handsOnFailure _));
  [ first [apply returns_dequantizeConcatInputs | solve [hands_on_failure]]
  | let r := fresh "r" in let Hr := fresh "Hr" in
    let d := fresh "d" in
    intros r Hr; destruct r as [?diag|?x];
    [ destruct (Hr _ eq_refl) as [d ->]; apply onSuccess_failure
    | clear Hr ] ].

Lemma onSuccess_replaceOp3 a b c :
  onSuccess (replacedBy 3)
            (bind (replaceOp [a; b; c]) (fun _ => ret success)).
Proof. apply (onSuccess_replaceOp [a; b; c]). Qed.

Lemma quantizeAndReplace_success U resultType y yScale yZp :
  onSuccess (quantizedReplacement U resultType)
            (quantizeAndReplace U resultType y yScale yZp).
Proof.
  intros s s' H.
  unfold quantizeAndReplace, replaceOpWithNewOp, create, createConstantInt,
         createOp, replaceOp, getDtype, orAbort, bind, ret, abort in H.
  destruct (getQTorchTypeFromTorchIntType U resultType) as [yTy|] eqn:EQ;
    [|discriminate H].
  destruct (getOptionalDtype yTy) as [dty|] eqn:ED; [|discriminate H].
  cbn in H. inversion H; subst; clear H.
  exists (created s), y, yScale, yZp, yTy, dty.
  split; [exact EQ|]. split; [exact ED|].
  cbn [created replacement].
  rewrite !length_app. cbn [length]. rewrite <- !app_assoc. cbn [app].
  rewrite !Nat.add_1_r. split; reflexivity.
Qed.

Lemma quantizeAndReplace_replaced U resultType y yScale yZp :
  onSuccess (replacedBy 1) (quantizeAndReplace U resultType y yScale yZp).
Proof.
  intros s s' H. apply quantizeAndReplace_success in H.
  destruct H as (pre & ? & ? & ? & ? & ? & _ & _ & _ & R).
  eexists. split; [exact R | reflexivity].
Qed.

(** Binding the operands, the attributes and the result type. *)
Ltac bind_record :=
  repeat match goal with
         | |- onSuccess _ (match match ?x with _ => _ end with _ => _ end) =>
             destruct x; cbn beta iota; [|solve [apply onSuccess_failure]]
         end;
  cbn beta iota.

Ltac replaced_step :=
  first
    [ apply onSuccess_failure
    | apply onSuccess_replaceOp3
    | apply onSuccess_replaceOpWithNewOp
    | apply quantizeAndReplace_replaced
    | through_block
    | apply onSuccess_bind; intros
    | case_scrutinee ].

Lemma rules_replace (U : Utils) name version rule :
  In (name, version, rule) (populateComMicrosoftDomain U) ->
  forall b, onSuccess (replacedBy (numResults name)) (rule b).
Proof.
  intros HIn b. unfold populateComMicrosoftDomain in HIn. simpl in HIn.
  repeat destruct HIn as [HIn | HIn]; try contradiction;
    inversion HIn; subst; clear HIn;
    match goal with
    | |- onSuccess (replacedBy ?n) _ =>
        let n' := eval cbv in n in change n with n'
    end.
  - unfold RotaryEmbedding. repeat replaced_step.
  - unfold GroupQueryAttention. repeat replaced_step.
  - unfold QLinearAdd. repeat replaced_step.
  - unfold QLinearLeakyRelu. repeat replaced_step.
  - unfold QLinearConcat. repeat replaced_step.
  - unfold QLinearGlobalAveragePool. repeat replaced_step.
  - unfold QLinearSigmoid. repeat replaced_step.
  - unfold QLinearAveragePool. repeat replaced_step.
  - unfold FusedMatMul. repeat replaced_step.
  - unfold QLinearMul. repeat replaced_step.
Qed.

(** X7: every registered rule only appends to the operations created so
    far, whatever its outcome; and a rule that succeeds has replaced the
    matched operation by as many values as the operator has results:
    three for ["GroupQueryAttention"], one for every other operator. *)
Theorem successful_rule_replaces_matched_operation :
  forall (U : Utils) name version rule,
    In (name, version, rule) (populateComMicrosoftDomain U) ->
    forall b s r s',
      rule b s = Some (r, s') ->
      (exists ops, created s' = created s ++ ops)
      /\ (r = Success ->
          exists values,
            replacement s' = Some values
            /\ length values = numResults name).
Proof.
  intros U name version rule HIn b s r s' H. split.
  - exact (grows_rules U name version rule HIn b s r s' H).
  - intros ->. exact (rules_replace U name version rule HIn b s s' H).
Qed.

Lemma successful_rule_replaces_matched_operation_witness :
  (exists ops,
     created (stateAfter (GroupQueryAttention (gqaRecord 0 2 1 2 8 7)))
     = created initialState ++ ops)
  /\ (Success = Success ->
      exists values,
        replacement (stateAfter (GroupQueryAttention (gqaRecord 0 2 1 2 8 7)))
        = Some values
        /\ length values = numResults "GroupQueryAttention").
Proof.
  apply (successful_rule_replaces_matched_operation specUtils
           "GroupQueryAttention" 1 GroupQueryAttention
           (or_intror (or_introl eq_refl))
           (gqaRecord 0 2 1 2 8 7) initialState Success).
  vm_compute. reflexivity.
Defined.

Ltac quantized_step U :=
  first
    [ apply onSuccess_failure
    | solve [ let s := fresh "s" in let s' := fresh "s'" in
              let H := fresh "H" in
              intros s s' H; eexists; split;
              [ reflexivity
              | eapply quantizeAndReplace_success; eassumption ] ]
    | through_block
    | apply onSuccess_bind; intros
    | case_scrutinee ].

(** X8: every quantized rule that succeeds ends in the same way: the
    constant of the quantized dtype, [AtenQuantizePerTensorOp] to the
    quantized counterpart of the declared result type, and
    [AtenIntReprOp] of the declared result type, whose result replaces the
    matched operation. *)
Theorem quantized_rules_end_in_int_repr :
  forall (U : Utils) name version rule,
    In (name, version, rule) (populateComMicrosoftDomain U) ->
    String.prefix "QLinear" name = true ->
    forall b s s',
      rule b s = Some (Success, s') ->
      exists resultType,
        tensorResultType b = Some resultType
        /\ quantizedReplacement U resultType s'.
Proof.
  intros U name version rule HIn HQ b.
  change (onSuccess
            (fun s' => exists resultType,
                         tensorResultType b = Some resultType
                         /\ quantizedReplacement U resultType s')
            (rule b)).
  unfold populateComMicrosoftDomain in HIn. simpl in HIn.
  repeat destruct HIn as [HIn | HIn]; try contradiction;
    inversion HIn; subst; clear HIn; try discriminate HQ; clear HQ.
  - unfold QLinearAdd. bind_record. repeat quantized_step U.
  - unfold QLinearLeakyRelu. bind_record. repeat quantized_step U.
  - unfold QLinearConcat. bind_record. repeat quantized_step U.
  - unfold QLinearGlobalAveragePool. bind_record. repeat quantized_step U.
  - unfold QLinearSigmoid. bind_record. repeat quantized_step U.
  - unfold QLinearAveragePool. bind_record. repeat quantized_step U.
  - unfold QLinearMul. bind_record. repeat quantized_step U.
Qed.

Lemma quantized_rules_end_in_int_repr_witness :
  exists resultType,
    tensorResultType qlinearBinaryRecord = Some resultType
    /\ quantizedReplacement specUtils resultType
         (stateAfter (QLinearMul specUtils qlinearBinaryRecord)).
Proof.
  apply (quantized_rules_end_in_int_repr specUtils "QLinearMul" 1
           (QLinearMul specUtils)
           ltac:(unfold populateComMicrosoftDomain; simpl; tauto)
           eq_refl qlinearBinaryRecord initialState).
  vm_compute. reflexivity.
Defined.

(** ** Operand counts of ["QLinearConcat"] *)

Lemma collectConcatInputs_aborts fuel : forall operands i a b c s,
  (length operands - i <= fuel)%nat ->
  collectConcatInputs fuel operands i a b c s = None
  <-> (i < length operands)%nat
      /\ ((length operands - i) mod 3 <> 0)%nat.
Proof.
  induction fuel as [|fuel IH]; intros operands i a b c s Hfuel.
  - cbn. split; [discriminate | intros [Hlt _]; lia].
  - cbn [collectConcatInputs].
    destruct (i <? length operands)%nat eqn:E.
    + apply Nat.ltb_lt in E. unfold at_, orAbort, bind.
      destruct (nth_error operands i) as [x0|] eqn:E0;
        [|apply nth_error_None in E0; lia].
      cbn [ret].
      destruct (nth_error operands (i + 1)) as [x1|] eqn:E1.
      * cbn [ret].
        destruct (nth_error operands (i + 2)) as [x2|] eqn:E2.
        -- cbn [ret].
           assert (L2 : (i + 2 < length operands)%nat)
             by (apply nth_error_Some; congruence).
           rewrite IH by lia.
           replace (length operands - i)%nat
             with (length operands - (i + 3) + 1 * 3)%nat by lia.
           rewrite Nat.Div0.mod_add.
           split; intros [H1 H2]; split; auto; try lia.
           destruct (Nat.eq_dec (i + 3) (length operands)) as [Eq|]; [|lia].
           exfalso. apply H2. rewrite <- Eq.
           now replace (i + 3 - (i + 3))%nat with 0%nat by lia.
        -- apply nth_error_None in E2.
           assert (L1 : (i + 1 < length operands)%nat)
             by (apply nth_error_Some; congruence).
           cbn [abort]. split; [intros _ | reflexivity].
           split; [exact E|].
           replace (length operands - i)%nat with 2%nat by lia.
           discriminate.
      * apply nth_error_None in E1. cbn [abort].
        split; [intros _ | reflexivity].
        split; [exact E|].
        replace (length operands - i)%nat with 1%nat by lia.
        discriminate.
    + apply Nat.ltb_ge in E. cbn.
      split; [discriminate | intros [Hlt _]; lia].
Qed.

(** X11: ["QLinearConcat"] on a record that binds, by the number of its
    operands: with fewer than two, the count check declines (the
    subtraction of 2 wraps around); with exactly two, no input at all,
    the check passes and the rule reads the first of an empty list of
    dequantized inputs; with three or more that are not 2 plus a multiple
    of 3, the first loop reads past the end of the operands.  In the last
    two cases the rule has no defined result. *)
Theorem QLinearConcat_operand_counts :
  forall (U : Utils) b s operands axis resultType,
    tensorOperandsList b = Some operands ->
    s64IntegerAttr b "axis" 0 = Some axis ->
    tensorResultType b = Some resultType ->
    ((length operands <= 1)%nat ->
     QLinearConcat U b s
     = Some (notifyMatchFailure
               "Incompatible number of input operands, scales and/or zero-points",
             s))
    /\ (length operands = 2%nat -> QLinearConcat U b s = None)
    /\ ((3 <= length operands)%nat ->
        ((length operands - 2) mod 3 <> 0)%nat ->
        QLinearConcat U b s = None).
Proof.
  intros U b s operands axis resultType EO EA ER.
  unfold QLinearConcat. rewrite EO, EA, ER. cbn beta iota.
  split; [|split].
  - intros L. destruct operands as [|x [|y operands]]; [| |simpl in L; lia];
      reflexivity.
  - intros L. destruct operands as [|x [|y [|z operands]]];
      try discriminate L. reflexivity.
  - intros L3 M. unfold bind at 1.
    assert (F : (length operands - 2 <= length operands)%nat) by lia.
    assert (L2 : (2 < length operands)%nat) by lia.
    now rewrite (proj2 (collectConcatInputs_aborts (length operands) operands
                          2 [] [] [] s F) (conj L2 M)).
Qed.

Lemma QLinearConcat_operand_counts_witness :
  QLinearConcat specUtils (qlinearConcatOf 6) initialState = None.
Proof.
  apply (proj2 (proj2 (QLinearConcat_operand_counts specUtils
                         (qlinearConcatOf 6) initialState
                         (getOperands (qlinearConcatOf 6)) 0
                         (mkVTT (Some [4]) (Some (UnsignedInt 8)))
                         eq_refl eq_refl eq_refl))).
  - simpl. lia.
  - simpl. discriminate.
Defined.

(** ** The kernel of ["QLinearGlobalAveragePool"] *)

Lemma definingOp_app ops more v op :
  definingOp ops v = Some op -> definingOp (ops ++ more) v = Some op.
Proof.
  unfold definingOp. destruct (valueDef v) as [|n]; [discriminate|].
  intros H. rewrite nth_error_app1; [exact H|].
  apply nth_error_Some. congruence.
Qed.

Lemma constantIntValue_app ops more v x :
  constantIntValue ops v = Some x ->
  constantIntValue (ops ++ more) v = Some x.
Proof.
  unfold constantIntValue.
  destruct (definingOp ops v) as [op|] eqn:E; [|discriminate].
  now rewrite (definingOp_app ops more v op E).
Qed.

Lemma constantIntValues_app ops more vs : forall xs,
  constantIntValues ops vs = Some xs ->
  constantIntValues (ops ++ more) vs = Some xs.
Proof.
  induction vs as [|v vs IH]; intros xs; cbn [constantIntValues];
    [auto|].
  destruct (constantIntValue ops v) as [x|] eqn:E; [|discriminate].
  destruct (constantIntValues ops vs) as [xs'|]; [|discriminate].
  intros H. rewrite (constantIntValue_app ops more v x E).
  now rewrite (IH xs' eq_refl).
Qed.

Lemma skipn_nth_error {A} (l : list A) : forall i x,
  nth_error l i = Some x -> skipn i l = x :: skipn (S i) l.
Proof.
  induction l as [|y l IH]; intros [|i] x H; try discriminate.
  - now inversion H.
  - cbn [skipn]. apply (IH i x H).
Qed.

Lemma wrapS64_small x : fitsInt64 x = true -> wrapS 64 x = x.
Proof.
  unfold fitsInt64, wrapS. intros H.
  apply andb_true_iff in H as [L U].
  apply Z.leb_le in L. apply Z.ltb_lt in U.
  change (2 ^ (64 - 1)) with (2 ^ 63).
  change (2 ^ 64) with (2 * 2 ^ 63).
  rewrite Z.mod_small; lia.
Qed.

Lemma globalKernelSizes64_fit dims : forall resultDims,
  kernelSizesFit dims resultDims = true ->
  globalKernelSizes64 dims resultDims = globalKernelSizes dims resultDims.
Proof.
  unfold kernelSizesFit, globalKernelSizes64, globalKernelSizes.
  induction dims as [|d dims IH]; intros [|r rs] F; try reflexivity.
  cbn [combine forallb map fst snd] in *.
  apply andb_true_iff in F as [Fd F].
  apply andb_true_iff in Fd as [F1 F2].
  rewrite (wrapS64_small _ F1), (wrapS64_small _ F2).
  now rewrite (IH rs F).
Qed.

Lemma globalPoolKernel_static dims : forall i resultShape x z o k p st s
                                            k' p' st' s',
  globalPoolKernel dims i resultShape x z o k p st s
    = Some ((k', p', st'), s') ->
  forallb (fun d => negb (d =? kUnknownSize)) dims = true ->
  exists newK,
    k' = k ++ newK
    /\ constantIntValues (created s') newK
       = Some (globalKernelSizes64 dims (skipn i resultShape)).
Proof.
  induction dims as [|d dims IH]; intros i rs x z o k p st s k' p' st' s' H St.
  - inversion H; subst. exists []. now rewrite app_nil_r.
  - cbn [globalPoolKernel] in H. cbn [forallb] in St.
    apply andb_true_iff in St as [Sd St]. apply negb_true_iff in Sd.
    rewrite Sd in H.
    apply bind_inv in H as (kv & s1 & H1 & H2).
    unfold at_, orAbort, bind in H1.
    destruct (nth_error rs i) as [r|] eqn:ER; [|discriminate H1].
    cbn -[wrapS] in H1. inversion H1; subst; clear H1.
    pose proof (appendOnly_globalPoolKernel _ _ _ _ _ _ _ _ _ _ _ _ H2)
      as [_ [more G]].
    destruct (IH _ _ _ _ _ _ _ _ _ _ _ _ _ H2 St) as (newK & -> & V).
    eexists (_ :: newK). split; [now rewrite <- app_assoc|].
    cbn [constantIntValues]. rewrite V.
    rewrite (skipn_nth_error rs i r ER). unfold globalKernelSizes64 at 1.
    cbn [combine map fst snd].
    replace (constantIntValue (created s') _)
      with (Some (wrapS 64 (wrapS 64 (d - r) + 1)));
      [reflexivity|].
    symmetry. rewrite G. apply constantIntValue_app.
    unfold constantIntValue, definingOp. cbn [valueDef created].
    rewrite nth_error_app2 by lia. rewrite Nat.sub_diag. reflexivity.
Qed.

Lemma globalPoolKernel_lists dims : forall i resultShape x z o k p st s
                                           k' p' st' s',
  globalPoolKernel dims i resultShape x z o k p st s
    = Some ((k', p', st'), s') ->
  length k' = (length k + length dims)%nat
  /\ p' = p ++ repeat z (length dims)
  /\ st' = st ++ repeat o (length dims).
Proof.
  induction dims as [|d dims IH]; intros i rs x z o k p st s k' p' st' s' H.
  - inversion H; subst. cbn. rewrite !app_nil_r. auto.
  - cbn [globalPoolKernel] in H.
    apply bind_inv in H as (kv & s1 & _ & H2).
    apply IH in H2 as (L & -> & ->).
    rewrite length_app in L. cbn [length repeat] in *.
    rewrite <- !app_assoc. cbn [app]. repeat split; auto. lia.
Qed.

(** The largest input size against a result size of -1: the difference
    wraps around, and the kernel size created is negative. *)
Lemma globalPoolKernel_kernel_size_wraps :
  exists k s',
    globalPoolKernel [2 ^ 63 - 1] 2 [1; 1; -1]
      (mkValue (OperandOf 0) (tensorTy [1; 1; 2 ^ 63 - 1] f32))
      (resultAt 0 IntType) (resultAt 1 IntType) [] [] [] initialState
    = Some (([k], [resultAt 0 IntType], [resultAt 1 IntType]), s')
    /\ constantIntValue (created s') k = Some (- 2 ^ 63 + 1).
Proof.
  do 2 eexists. split; vm_compute; reflexivity.
Qed.

(** X12: the kernel loop of ["QLinearGlobalAveragePool"] adds one kernel
    size, one padding and one stride per spatial dimension; every
    padding is the zero constant and every stride the one constant; and
    for static spatial dimensions the kernel sizes are new integer
    constants whose value is input size minus result size plus one
    computed in 64-bit integers, which is the mathematical value
    whenever the difference and the sum stay in the 64-bit range. *)
Theorem globalPoolKernel_kernel_padding_strides :
  forall dims i resultShape x cstZero cstOne s cstKernel cstPadding
         cstStrides s',
    globalPoolKernel dims i resultShape x cstZero cstOne [] [] [] s
      = Some ((cstKernel, cstPadding, cstStrides), s') ->
    length cstKernel = length dims
    /\ cstPadding = repeat cstZero (length dims)
    /\ cstStrides = repeat cstOne (length dims)
    /\ (forallb (fun d => negb (d =? kUnknownSize)) dims = true ->
        constantIntValues (created s') cstKernel
        = Some (globalKernelSizes64 dims (skipn i resultShape))
        /\ (kernelSizesFit dims (skipn i resultShape) = true ->
            constantIntValues (created s') cstKernel
            = Some (globalKernelSizes dims (skipn i resultShape)))).
Proof.
  intros dims i rs x z o s k' p' st' s' H.
  destruct (globalPoolKernel_lists _ _ _ _ _ _ _ _ _ _ _ _ _ _ H)
    as (L & P & Q).
  split; [exact L|]. split; [exact P|]. split; [exact Q|].
  intros St.
  destruct (globalPoolKernel_static _ _ _ _ _ _ _ _ _ _ _ _ _ _ H St)
    as (newK & -> & V).
  split; [exact V|].
  intros F. now rewrite <- (globalKernelSizes64_fit _ _ F).
Qed.

Lemma globalPoolKernel_kernel_padding_strides_witness :
  length [resultAt 0 IntType; resultAt 1 IntType] = length [7; 5]
  /\ [resultAt 0 IntType; resultAt 0 IntType]
     = repeat (resultAt 0 IntType) (length [7; 5])
  /\ [resultAt 1 IntType; resultAt 1 IntType]
     = repeat (resultAt 1 IntType) (length [7; 5])
  /\ (forallb (fun d => negb (d =? kUnknownSize)) [7; 5] = true ->
      constantIntValues
        [mkOp ConstantIntOp IntType [] [("value", getI64IntegerAttr 7)] 0;
         mkOp ConstantIntOp IntType [] [("value", getI64IntegerAttr 5)] 0]
        [resultAt 0 IntType; resultAt 1 IntType]
      = Some (globalKernelSizes64 [7; 5] (skipn 2 [1; 3; 1; 1]))
      /\ (kernelSizesFit [7; 5] (skipn 2 [1; 3; 1; 1]) = true ->
          constantIntValues
            [mkOp ConstantIntOp IntType [] [("value", getI64IntegerAttr 7)] 0;
             mkOp ConstantIntOp IntType [] [("value", getI64IntegerAttr 5)] 0]
            [resultAt 0 IntType; resultAt 1 IntType]
          = Some (globalKernelSizes [7; 5] (skipn 2 [1; 3; 1; 1])))).
Proof.
  apply (globalPoolKernel_kernel_padding_strides [7; 5] 2 [1; 3; 1; 1]
           (mkValue (OperandOf 0) (tensorTy [1; 3; 7; 5] f32))
           (resultAt 0 IntType) (resultAt 1 IntType) initialState
           [resultAt 0 IntType; resultAt 1 IntType]
           [resultAt 0 IntType; resultAt 0 IntType]
           [resultAt 1 IntType; resultAt 1 IntType]
           (mkState
              [mkOp ConstantIntOp IntType []
                    [("value", getI64IntegerAttr 7)] 0;
               mkOp ConstantIntOp IntType []
                    [("value", getI64IntegerAttr 5)] 0]
              None)).
  vm_compute. reflexivity.
Defined.

(** X13: the kernel loop reads the result shape at the index of every
    static spatial dimension without a check of the result's rank: over
    static dimensions it has no defined result exactly when the result
    shape is shorter than the input shape. *)
Theorem globalPoolKernel_reads_result_shape :
  forall dims i resultShape x cstZero cstOne cstKernel cstPadding
         cstStrides s,
    forallb (fun d => negb (d =? kUnknownSize)) dims = true ->
    globalPoolKernel dims i resultShape x cstZero cstOne cstKernel
                     cstPadding cstStrides s = None
    <-> dims <> [] /\ (length resultShape < i + length dims)%nat.
Proof.
  induction dims as [|d dims IH]; intros i rs x z o k p st s St.
  - cbn. split; [discriminate | intros [N _]; contradiction].
  - cbn [forallb] in St. apply andb_true_iff in St as [Sd St].
    apply negb_true_iff in Sd.
    cbn [globalPoolKernel]. rewrite Sd.
    unfold bind at 1 2. unfold at_, orAbort.
    destruct (nth_error rs i) as [r|] eqn:ER.
    + cbn [ret createConstantInt createOp].
      assert (Li : (i < length rs)%nat) by (apply nth_error_Some; congruence).
      rewrite (IH (S i) rs x z o _ _ _ _ St). cbn [length].
      split.
      * intros [N L]. split; [discriminate | lia].
      * intros [_ L]. split; [|lia].
        intros ->. cbn [length] in L. lia.
    + apply nth_error_None in ER. cbn [abort length].
      split; [intros _ | reflexivity].
      split; [discriminate | lia].
Qed.

Lemma globalPoolKernel_reads_result_shape_witness :
  globalPoolKernel [7; 5] 2 [1; 3]
    (mkValue (OperandOf 0) (tensorTy [1; 3; 7; 5] f32))
    (resultAt 0 IntType) (resultAt 1 IntType) [] [] [] initialState
  = None.
Proof.
  apply (proj2 (globalPoolKernel_reads_result_shape [7; 5] 2 [1; 3]
                  (mkValue (OperandOf 0) (tensorTy [1; 3; 7; 5] f32))
                  (resultAt 0 IntType) (resultAt 1 IntType) [] [] []
                  initialState eq_refl)).
  split; [discriminate | simpl; lia].
Defined.

(** ** Validation and shape of ["GroupQueryAttention"] *)

Lemma GroupQueryAttention_validated b s s' :
  GroupQueryAttention b s = Some (Success, s') -> validatedRecord b.
Proof.
  intros H. unfold validatedRecord.
  gqa_validated H a EA EOT ERT.
  all: match type of EOT with
       | _ = map ValueTensorTy (?q :: _) =>
           destruct q as [[?qd|] ?qdt]; [|cbn in H; gqa_dead H]
       end.
  all: cbn in H.
  all: match type of H with
       | context [forallb ?f ?qd] =>
           destruct (forallb f qd) eqn:Eknown in H; [|gqa_dead H];
           destruct qd as [|?batch [|?seqLen [|?hidden ?rest]]];
           [cbn in H; gqa_dead H .. |]
       end.
  all: clear H.
  all: match type of EOT with
       | _ = map ValueTensorTy (mkVTT (Some ?sizes) _ :: _) =>
           exists a, sizes
       end.
  all: unfold operandSizes; rewrite EOT, ERT.
  all: apply Z.eqb_neq in Ekv, Enh.
  all: apply negb_false_iff, Z.eqb_eq in Elw, Ess.
  all: cbn [map forallb isTensor length nth_error getOptionalSizes andb].
  all: repeat split; auto; try lia.
  all: try (right; split; [now apply Z.eqb_eq | reflexivity]).
  all: try (left; reflexivity).
Qed.

(** X14: a ["GroupQueryAttention"] rewrite that succeeds was given a
    record that passed every check: tensor operands, nine of them or,
    without rotary embedding, seven; three tensor results; non-zero
    [kv_num_heads] and [num_heads]; [local_window_size] -1;
    [smooth_softmax] 0; [softcap] zero; and a query whose sizes are all
    static and at least three in number. *)
Theorem GroupQueryAttention_success_validated :
  forall b s s',
    GroupQueryAttention b s = Some (Success, s') -> validatedRecord b.
Proof. exact GroupQueryAttention_validated. Qed.

Lemma GroupQueryAttention_success_validated_witness :
  validatedRecord (gqaRecord 1 2 1 2 8 9).
Proof.
  apply (GroupQueryAttention_success_validated (gqaRecord 1 2 1 2 8 9)
           initialState
           (stateAfter (GroupQueryAttention (gqaRecord 1 2 1 2 8 9)))).
  vm_compute. reflexivity.
Defined.

(** X15: a ["GroupQueryAttention"] record that passes the checks but
    whose query has fewer than three dimensions: the rule reads the
    batch size, the sequence length and the hidden size at indices 0, 1
    and 2 of the query's sizes without a check of the rank, and has no
    defined result. *)
Theorem GroupQueryAttention_query_rank :
  forall b sizes,
    (forall d s, GroupQueryAttention b initialState <> Some (Failure d, s)) ->
    operandSizes b 0 = Some sizes ->
    (length sizes < 3)%nat ->
    GroupQueryAttention b initialState = None.
Proof.
  intros b sizes Hnd Hs Hl.
  destruct (GroupQueryAttention b initialState) as [[[|d] s']|] eqn:H.
  - exfalso. apply GroupQueryAttention_validated in H.
    destruct H as (a & sizes' & _ & _ & _ & _ & _ & _ & _ & _ & _ & _
                   & E & _ & L).
    rewrite Hs in E. inversion E; subst. lia.
  - exfalso. now apply (Hnd d s').
  - reflexivity.
Qed.

Lemma GroupQueryAttention_query_rank_witness :
  GroupQueryAttention gqaRank2Query initialState = None.
Proof.
  apply (GroupQueryAttention_query_rank gqaRank2Query [2; 8]).
  - intros d s. vm_compute. discriminate.
  - reflexivity.
  - simpl. lia.
Defined.

(** X16: in a successful ["GroupQueryAttention"] rewrite exactly one
    attention operation is created; its query, key and value derive from
    operands 0, 1 and 2; it has no mask, dropout 0, is not causal, has
    grouped-query attention enabled, and its scale is the [scale] of the
    record, or the [None] constant when that is zero.  Two rotary
    embeddings are created when [do_rotary] is set and none otherwise. *)
Theorem GroupQueryAttention_attention :
  forall b s' a,
    GroupQueryAttention b initialState = Some (Success, s') ->
    bindGQAAttrs b = Some a ->
    countOps AtenScaledDotProductAttentionOp (created s') = 1%nat
    /\ countOps OnnxVariantRotaryEmbeddingOp (created s')
       = (if (doRotary a =? 0)%Z then 0 else 2)%nat
    /\ attentionOperands a (created s').
Proof.
  intros b s' a H HA.
  gqa_validated H a' EA EOT ERT.
  all: gqa_created H EOT ERT Ek Ev.
  all: rewrite HA in EA; inversion EA; subst.
  all: unfold attentionOperands; rewrite Escale.
  all: destruct (doRotary a' =? 0); try discriminate.
  all: split; [reflexivity|]; split; [reflexivity|].
  all: do 9 eexists; repeat split.
Qed.

Lemma GroupQueryAttention_attention_witness :
  countOps AtenScaledDotProductAttentionOp
    (created (stateAfter (GroupQueryAttention (gqaScaled 1 1048576000 9))))
  = 1%nat
  /\ countOps OnnxVariantRotaryEmbeddingOp
       (created (stateAfter (GroupQueryAttention (gqaScaled 1 1048576000 9))))
     = (if (doRotary (mkGQAAttrs 1 2 (-1) 2 0 1048576000 0 0) =? 0)%Z
        then 0 else 2)%nat
  /\ attentionOperands (mkGQAAttrs 1 2 (-1) 2 0 1048576000 0 0)
       (created (stateAfter (GroupQueryAttention (gqaScaled 1 1048576000 9)))).
Proof.
  apply (GroupQueryAttention_attention (gqaScaled 1 1048576000 9)
           (stateAfter (GroupQueryAttention (gqaScaled 1 1048576000 9)))
           (mkGQAAttrs 1 2 (-1) 2 0 1048576000 0 0)).
  - vm_compute. reflexivity.
  - reflexivity.
Defined.

(** ** ["RotaryEmbedding"] *)



(** ** ["QLinearAveragePool"] *)


Lemma onSuccess_after_createOp name ty operands attrs regions
    (k : Value -> Rewriter LogicalResult) :
  (forall v, grows (k v)) ->
  onSuccess (fun s' => In (mkOp name ty operands attrs regions) (created s'))
            (bind (createOp name ty operands attrs regions) k).
Proof.
  intros Hk s s' H. apply bind_inv in H as (v & s1 & H1 & H2).
  inversion H1; subst; clear H1.
  destruct (Hk _ _ _ _ H2) as [more ->]. cbn [created].
  apply in_or_app. left. apply in_or_app. right. now left.
Qed.

Lemma grows_quantizeAndReplace U resultType y yScale yZp :
  grows (quantizeAndReplace U resultType y yScale yZp).
Proof. grows_rule. Qed.



(** ** ["FusedMatMul"] without transposition of the lhs *)

(** X19: ["FusedMatMul"] on a record that binds with [transA] and the
    batch transpositions clear.  With [transB] clear it creates the
    matrix multiplication of the two operands and nothing else; with
    [transB] set it transposes the last two dimensions of the rhs and
    multiplies the lhs itself by the transposed rhs; with [transB] set
    and an rhs without sizes it declines, with a diagnostic, before it
    has created anything. *)
Theorem fused_matmul_without_lhs_transposition :
  forall (U : Utils) b s lhs rhs transB resultType,
    bindFusedMatMul b = Some (lhs, rhs, 0, transB, 0, 0, resultType) ->
    (transB = 0 ->
     FusedMatMul U b s
     = Some (success,
             mkState
               (created s
                  ++ [mkOp AtenMatmulOp (ValueTensorTy resultType)
                           [lhs; rhs] [] 0])
               (Some [mkValue (ResultOf (length (created s)))
                              (ValueTensorTy resultType)])))
    /\ (transB <> 0 ->
        forall sizes transposedRhs ops,
          sizesOf rhs = Some sizes ->
          2 <= Z.of_nat (length sizes) < 2 ^ 32 ->
          createTorchTransposeOp U rhs (Z.of_nat (length sizes) - 2)
                                 (Z.of_nat (length sizes) - 1)
                                 (length (created s))
            = Some (Some transposedRhs, ops) ->
          FusedMatMul U b s
            = Some (success,
                    mkState
                      ((created s ++ ops)
                         ++ [mkOp AtenMatmulOp (ValueTensorTy resultType)
                                  [lhs; transposedRhs] [] 0])
                      (Some [mkValue (ResultOf (length (created s ++ ops)))
                                     (ValueTensorTy resultType)])))
    /\ (transB <> 0 ->
        forall t,
          getType rhs = ValueTensorTy t -> getOptionalSizes t = None ->
          FusedMatMul U b s
          = Some (notifyMatchFailure "Unimplemented: unranked rhs tensor",
                  s)).
Proof.
  intros U b s lhs rhs transB resultType HB.
  unfold FusedMatMul. rewrite HB. cbn [Z.eqb negb].
  split; [|split].
  - intros ->. reflexivity.
  - intros HT sizes transposedRhs ops HS HR HC.
    apply Z.eqb_neq in HT.
    unfold bind at 1. cbn [ret]. unfold bind at 1. rewrite HT. cbn [negb].
    unfold sizesOf in HS.
    unfold getTensorRank, bind, castValueTensorType, ret, runBuilder.
    destruct (getType rhs) as [vt| | | | | |]; try discriminate HS.
    cbn [option_map]. rewrite HS. cbn [option_map].
    rewrite !wrapU_small by lia.
    rewrite HC. cbn.
    reflexivity.
  - intros HT t Ht Hs.
    apply Z.eqb_neq in HT.
    unfold bind at 1. cbn [ret]. unfold bind at 1. rewrite HT. cbn [negb].
    unfold getTensorRank, bind, castValueTensorType, ret.
    rewrite Ht, Hs. reflexivity.
Qed.

Lemma fused_matmul_without_lhs_transposition_witness :
  FusedMatMul specUtils (fusedMatMul 0 0 0 0) initialState
  = Some (success,
          mkState
            (created initialState
               ++ [mkOp AtenMatmulOp
                        (ValueTensorTy (mkVTT (Some [2; 3; 5]) (Some f32)))
                        [mkValue (OperandOf 0) (tensorTy [2; 4; 3] f32);
                         mkValue (OperandOf 1) (tensorTy [2; 4; 5] f32)]
                        [] 0])
            (Some [mkValue (ResultOf (length (created initialState)))
                           (ValueTensorTy
                              (mkVTT (Some [2; 3; 5]) (Some f32)))])).
Proof.
  apply (proj1 (fused_matmul_without_lhs_transposition specUtils
                  (fusedMatMul 0 0 0 0) initialState
                  (mkValue (OperandOf 0) (tensorTy [2; 4; 3] f32))
                  (mkValue (OperandOf 1) (tensorTy [2; 4; 5] f32))
                  0 (mkVTT (Some [2; 3; 5]) (Some f32)) eq_refl)).
  reflexivity.
Defined.

(** ** Successful runs of ["QLinearGlobalAveragePool"] *)

Lemma tensorOperands_inv b n operands :
  tensorOperands b n = Some operands ->
  operands = getOperands b /\ length (operandTypes b) = n.
Proof.
  unfold tensorOperands, tensorOperandsList.
  destruct (length (operandTypes b) =? n)%nat eqn:E; [|discriminate].
  apply Nat.eqb_eq in E.
  destruct (forallb isTensor (operandTypes b)); [|discriminate].
  intros H. inversion H. auto.
Qed.

Lemma getOperands_first b v :
  nth_error (getOperands b) 0 = Some v ->
  nth_error (operandTypes b) 0 = Some (getType v).
Proof.
  unfold getOperands. destruct (operandTypes b) as [|t ts]; [discriminate|].
  cbn. intros H. now inversion H.
Qed.

(** One step back from the outcome of a run: through a bind, or through
    a case distinction of the rule, keeping what was decided. *)
Ltac run_back H :=
  first
    [ lazymatch type of H with
      | bind (createOp AtenAvgPool1dOp _ _ _ _) _ _ = _ => fail
      | bind (createOp AtenAvgPool2dOp _ _ _ _) _ _ = _ => fail
      | bind (createOp AtenAvgPool3dOp _ _ _ _) _ _ = _ => fail
      | _ => apply bind_inv in H as (? & ? & _ & H)
      end
    | match type of H with
      | (match ?x with _ => _ end) _ = _ =>
          destruct x eqn:?; try discriminate H
      | (if ?c then _ else _) _ = _ =>
          destruct c eqn:?; try discriminate H
      end ].

(** X20: a ["QLinearGlobalAveragePool"] rewrite succeeds only on an
    input of rank 3, 4 or 5, and has then created the average pool of
    the matching dimensionality, of six operands for one dimension and
    seven otherwise, whose result is a 32-bit float tensor of the sizes
    of the declared result. *)
Theorem QLinearGlobalAveragePool_success :
  forall (U : Utils) b s s',
    QLinearGlobalAveragePool U b s = Some (Success, s') ->
    exists inputShape pool,
      operandSizes b 0 = Some inputShape
      /\ (3 <= length inputShape <= 5)%nat
      /\ In pool (created s')
      /\ globalPoolingOp b inputShape pool.
Proof.
  intros U b s s' H. unfold QLinearGlobalAveragePool in H.
  destruct (tensorOperands b 5) as [operands|] eqn:EO; [|discriminate H].
  destruct (tensorResultType b) as [resultType|] eqn:ER; [|discriminate H].
  destruct (s64IntegerAttr b "channels_last" 0) as [channelsLast|];
    [|discriminate H].
  cbn beta iota in H.
  destruct (negb (channelsLast =? 0)); [discriminate H|].
  apply bind_inv in H as (operand0 & s0 & H0 & H).
  unfold at_, orAbort in H0.
  destruct (nth_error operands 0) as [v|] eqn:E0; [|discriminate H0].
  inversion H0; subst; clear H0.
  apply tensorOperands_inv in EO as [-> _].
  apply getOperands_first in E0.
  destruct (dyn_castValueTensorType (getType operand0)) as [xTy|] eqn:EX;
    [|discriminate H].
  destruct (getOptionalSizes xTy) as [inputShape|] eqn:ES; [|discriminate H].
  destruct (getOptionalSizes resultType) as [resultShape|] eqn:ERS;
    [|discriminate H].
  unfold create, createConstantInt, createConstantBool, createConstantNone
    in H.
  repeat run_back H.
  all: exists inputShape.
  all: eexists.
  all: unfold globalPoolingOp, operandSizes, resultSizes.
  all: rewrite E0.
  all: destruct (getType operand0) as [t| | | | | |]; try discriminate EX.
  all: inversion EX; subst.
  all: unfold tensorResultType in ER.
  all: destruct (resultTypes b) as [|[rt| | | | | |] [|]]; try discriminate ER.
  all: inversion ER; subst.
  all: repeat match goal with
              | E : (_ =? _)%nat = true |- _ => apply Nat.eqb_eq in E
              end.
  all: split; [exact ES|].
  all: split; [lia|].
  all: split;
       [ eapply onSuccess_after_createOp; [|exact H];
         intros; apply grows_quantizeAndReplace |].
  all: match goal with
       | E : length _ = _ |- _ => rewrite E
       end.
  all: cbn [opName opOperands opResultType length poolingOpName Nat.eqb
            nth_error].
  all: split; [reflexivity|]. all: split; [reflexivity|].
  all: exists resultShape; split; [cbn; exact ERS | reflexivity].
Qed.

Lemma QLinearGlobalAveragePool_success_witness :
  exists inputShape pool,
    operandSizes globalAveragePoolRank4 0 = Some inputShape
    /\ (3 <= length inputShape <= 5)%nat
    /\ In pool (created (stateAfter (QLinearGlobalAveragePool specUtils
                                       globalAveragePoolRank4)))
    /\ globalPoolingOp globalAveragePoolRank4 inputShape pool.
Proof.
  apply (QLinearGlobalAveragePool_success specUtils globalAveragePoolRank4
           initialState).
  vm_compute. reflexivity.
Defined.

(** ** Key and value of ["GroupQueryAttention"] *)

(** X22: in a successful ["GroupQueryAttention"] rewrite the key and the
    value are reshaped to (batch size, [kv_num_heads], sequence length,
    head size), with the batch size, the sequence length and the head
    size of the query: the sizes of the key and of the value themselves
    are not read. *)
Theorem GroupQueryAttention_key_value_reshape :
  forall b s' a batch seqLen hidden rest,
    GroupQueryAttention b initialState = Some (Success, s') ->
    bindGQAAttrs b = Some a ->
    operandSizes b 0 = Some (batch :: seqLen :: hidden :: rest) ->
    let sizes := [batch; kvNumHeads a; seqLen; hidden ÷ numHeads a] in
    reshapeOf (created s') 1 = Some (sizes, sizes)
    /\ reshapeOf (created s') 2 = Some (sizes, sizes).
Proof.
  intros b s' a batch seqLen hidden rest H HA Hq.
  gqa_validated H a' EA EOT ERT.
  all: unfold operandSizes in Hq; rewrite EOT in Hq; cbn in Hq.
  all: gqa_created H EOT ERT Ek Ev.
  all: inversion Hq; subst.
  all: rewrite HA in EA; inversion EA; subst.
  all: cbv -[Z.quot]; split; reflexivity.
Qed.

Lemma GroupQueryAttention_key_value_reshape_witness :
  let sizes := [1; kvNumHeads (mkGQAAttrs 0 2 (-1) 4 0 0 0 0); 2;
                8 ÷ numHeads (mkGQAAttrs 0 2 (-1) 4 0 0 0 0)] in
  reshapeOf (created (stateAfter (GroupQueryAttention
                                    (gqaRecord 0 4 1 2 8 7)))) 1
  = Some (sizes, sizes)
  /\ reshapeOf (created (stateAfter (GroupQueryAttention
                                       (gqaRecord 0 4 1 2 8 7)))) 2
     = Some (sizes, sizes).
Proof.
  apply (GroupQueryAttention_key_value_reshape (gqaRecord 0 4 1 2 8 7)
           (stateAfter (GroupQueryAttention (gqaRecord 0 4 1 2 8 7)))
           (mkGQAAttrs 0 2 (-1) 4 0 0 0 0) 1 2 8 []).
  - vm_compute. reflexivity.
  - reflexivity.
  - reflexivity.
Defined.

(** ** The inputs of ["QLinearConcat"] *)

Lemma every3_skipn {A} (l : list A) x : forall j,
  nth_error l j = Some x ->
  every3 (skipn j l) = x :: every3 (skipn (j + 3) l).
Proof.
  induction l as [|y l IH]; intros [|j] H; try discriminate H.
  - cbn in H. inversion H; subst.
    destruct l as [|y1 [|y2 l]]; reflexivity.
  - cbn [skipn Nat.add]. apply IH. exact H.
Qed.

Lemma collectConcatInputs_collects fuel : forall operands i a b c s,
  (length operands - i <= fuel)%nat ->
  (i <= length operands)%nat ->
  ((length operands - i) mod 3 = 0)%nat ->
  collectConcatInputs fuel operands i a b c s
  = Some ((a ++ every3 (skipn i operands),
           b ++ every3 (skipn (i + 1) operands),
           c ++ every3 (skipn (i + 2) operands)), s).
Proof.
  induction fuel as [|fuel IH]; intros operands i a b c s Hfuel Hi Hm.
  - assert (i = length operands) by lia. subst i.
    rewrite !skipn_all2 by lia. cbn. now rewrite !app_nil_r.
  - cbn [collectConcatInputs].
    destruct (i <? length operands)%nat eqn:E.
    + apply Nat.ltb_lt in E.
      assert (L : (i + 3 <= length operands)%nat).
      { destruct (Nat.eq_dec (length operands - i) 1) as [E1|];
          [rewrite E1 in Hm; discriminate Hm|].
        destruct (Nat.eq_dec (length operands - i) 2) as [E2|];
          [rewrite E2 in Hm; discriminate Hm|].
        lia. }
      unfold at_, orAbort, bind.
      destruct (nth_error operands i) as [x0|] eqn:E0;
        [|apply nth_error_None in E0; lia].
      cbn [ret].
      destruct (nth_error operands (i + 1)) as [x1|] eqn:E1;
        [|apply nth_error_None in E1; lia].
      cbn [ret].
      destruct (nth_error operands (i + 2)) as [x2|] eqn:E2;
        [|apply nth_error_None in E2; lia].
      cbn [ret].
      rewrite IH; try lia.
      * rewrite (every3_skipn operands x0 i E0).
        rewrite (every3_skipn operands x1 (i + 1) E1).
        rewrite (every3_skipn operands x2 (i + 2) E2).
        rewrite <- !app_assoc. cbn [app].
        replace (i + 3 + 1)%nat with (i + 1 + 3)%nat by lia.
        replace (i + 3 + 2)%nat with (i + 2 + 3)%nat by lia.
        reflexivity.
      * replace (length operands - i)%nat
          with (length operands - (i + 3) + 1 * 3)%nat in Hm by lia.
        now rewrite Nat.Div0.mod_add in Hm.
    + apply Nat.ltb_ge in E. assert (i = length operands) by lia. subst i.
      rewrite !skipn_all2 by lia. cbn. now rewrite !app_nil_r.
Qed.

Lemma length_every3 {A} k : forall l : list A,
  length l = (3 * k)%nat -> length (every3 l) = k.
Proof.
  induction k as [|k IH]; intros l H.
  - destruct l; [reflexivity | discriminate H].
  - destruct l as [|x0 [|x1 [|x2 l]]]; cbn [length] in H; try lia.
    cbn [every3 length]. f_equal. apply IH. lia.
Qed.

(** X23: on an operand list of length 2 + 3k the first loop of
    ["QLinearConcat"] reads within bounds and collects k inputs, the
    operands at indices 2, 5, 8, ..., their scales at 3, 6, 9, ... and
    their zero points at 4, 7, 10, ...; and the count computed for the
    check, [(operands.size() - 2) / 3], is k. *)
Theorem QLinearConcat_collects_inputs :
  forall (operands : list Value) k s,
    length operands = (2 + 3 * k)%nat ->
    collectConcatInputs (length operands) operands 2 [] [] [] s
    = Some ((every3 (skipn 2 operands), every3 (skipn 3 operands),
             every3 (skipn 4 operands)), s)
    /\ length (every3 (skipn 2 operands)) = k
    /\ (Z.of_nat (length operands) < 2 ^ 32 ->
        concatNumInputs operands = Z.of_nat k).
Proof.
  intros operands k s L. split; [|split].
  - rewrite (collectConcatInputs_collects (length operands) operands 2
               [] [] [] s); try lia.
    + reflexivity.
    + rewrite L. replace (2 + 3 * k - 2)%nat with (k * 3)%nat by lia.
      apply Nat.Div0.mod_mul.
  - apply length_every3. rewrite length_skipn. lia.
  - intros B. unfold concatNumInputs. rewrite L in *.
    replace (Z.of_nat (2 + 3 * k) - 2) with (Z.of_nat k * 3) by lia.
    rewrite (wrapU_small 64) by lia.
    rewrite Z.div_mul by lia. apply wrapU_small. lia.
Qed.

Lemma QLinearConcat_collects_inputs_witness :
  collectConcatInputs (length (getOperands (qlinearConcatOf 8)))
    (getOperands (qlinearConcatOf 8)) 2 [] [] [] initialState
  = Some ((every3 (skipn 2 (getOperands (qlinearConcatOf 8))),
           every3 (skipn 3 (getOperands (qlinearConcatOf 8))),
           every3 (skipn 4 (getOperands (qlinearConcatOf 8)))),
          initialState)
  /\ length (every3 (skipn 2 (getOperands (qlinearConcatOf 8)))) = 2%nat
  /\ (Z.of_nat (length (getOperands (qlinearConcatOf 8))) < 2 ^ 32 ->
      concatNumInputs (getOperands (qlinearConcatOf 8)) = Z.of_nat 2).
Proof.
  apply (QLinearConcat_collects_inputs (getOperands (qlinearConcatOf 8)) 2
           initialState).
  reflexivity.
Defined.

(** ** The arithmetic of the quantized rules *)

Ltac arithmetic_step :=
  first
    [ apply onSuccess_failure
    | through_block
    | lazymatch goal with
      | |- onSuccess _ (bind (createOp AtenAddTensorOp _ _ _ _) _) => fail
      | |- onSuccess _ (bind (createOp AtenMulTensorOp _ _ _ _) _) => fail
      | |- onSuccess _ (bind (createOp AtenLeakyReluOp _ _ _ _) _) => fail
      | |- onSuccess _ (bind (createOp AtenSigmoidOp _ _ _ _) _) => fail
      | |- onSuccess _ (bind (createOp AtenCatOp _ _ _ _) _) => fail
      | _ => apply onSuccess_bind; intros
      end
    | case_scrutinee ].

Ltac arithmetic_rule :=
  bind_record; unfold create; repeat arithmetic_step;
  let s := fresh "s" in let s' := fresh "s'" in let H := fresh "H" in
  intros s s' H; do 2 eexists; split; [reflexivity|]; split;
  [ eapply onSuccess_after_createOp; [|exact H];
    intros; grows_rule
  | reflexivity ].

(** X24: the quantized rules carry out their arithmetic on 32-bit
    floats of the sizes of the declared result: a successful
    ["QLinearAdd"], ["QLinearMul"], ["QLinearLeakyRelu"],
    ["QLinearSigmoid"] or ["QLinearConcat"] rewrite has created the
    addition, multiplication, leaky rectifier, sigmoid or concatenation
    with a result of that type, whatever the types of the operands. *)
Theorem quantized_rules_compute_in_f32 :
  forall (U : Utils) name version rule opn n,
    In (name, version, rule) (populateComMicrosoftDomain U) ->
    arithmeticOp name = Some (opn, n) ->
    forall b s s',
      rule b s = Some (Success, s') ->
      exists resultType operands,
        tensorResultType b = Some resultType
        /\ In (mkOp opn (f32TensorLike resultType) operands [] 0)
              (created s')
        /\ length operands = n.
Proof.
  intros U name version rule opn n HIn HA b.
  change (onSuccess
            (fun s' => exists resultType operands,
                         tensorResultType b = Some resultType
                         /\ In (mkOp opn (f32TensorLike resultType)
                                     operands [] 0) (created s')
                         /\ length operands = n)
            (rule b)).
  unfold populateComMicrosoftDomain in HIn. simpl in HIn.
  repeat destruct HIn as [HIn | HIn]; try contradiction;
    inversion HIn; subst; clear HIn; try discriminate HA;
    inversion HA; subst; clear HA.
  - unfold QLinearAdd. arithmetic_rule.
  - unfold QLinearLeakyRelu. arithmetic_rule.
  - unfold QLinearConcat. arithmetic_rule.
  - unfold QLinearSigmoid. arithmetic_rule.
  - unfold QLinearMul. arithmetic_rule.
Qed.

Lemma quantized_rules_compute_in_f32_witness :
  exists resultType operands,
    tensorResultType qlinearBinaryRecord = Some resultType
    /\ In (mkOp AtenAddTensorOp (f32TensorLike resultType) operands [] 0)
          (created (stateAfter (QLinearAdd specUtils qlinearBinaryRecord)))
    /\ length operands = 3%nat.
Proof.
  apply (quantized_rules_compute_in_f32 specUtils "QLinearAdd" 1
           (QLinearAdd specUtils) AtenAddTensorOp 3%nat
           ltac:(unfold populateComMicrosoftDomain; simpl; tauto)
           eq_refl qlinearBinaryRecord initialState).
  vm_compute. reflexivity.
Defined.

(** ** The rotary embeddings of ["GroupQueryAttention"] *)

(** X25: a successful ["GroupQueryAttention"] rewrite with [do_rotary]
    set creates the rotary embedding of the query and that of the key
    over the same position ids, with the caches given as operands 7 and
    8, the [rotary_interleaved] of the record, zero for packed batching,
    the number of heads and the rotary dimension, and scale 1. *)
Theorem GroupQueryAttention_rotary_embeddings :
  forall b s' a,
    GroupQueryAttention b initialState = Some (Success, s') ->
    bindGQAAttrs b = Some a ->
    doRotary a <> 0 ->
    rotaryEmbeddings a (created s').
Proof.
  intros b s' a H HA HR.
  gqa_validated H a' EA EOT ERT.
  all: rewrite HA in EA; inversion EA; subst a'.
  all: try (apply negb_false_iff, Z.eqb_eq in Erot; contradiction).
  all: try (apply Z.eqb_eq in Erot; contradiction).
  all: gqa_created H EOT ERT Ek Ev.
  all: unfold rotaryEmbeddings.
  all: do 8 eexists; repeat split.
Qed.

Lemma GroupQueryAttention_rotary_embeddings_witness :
  rotaryEmbeddings (mkGQAAttrs 1 2 (-1) 2 0 0 0 0)
    (created (stateAfter (GroupQueryAttention (gqaRecord 1 2 1 2 8 9)))).
Proof.
  apply (GroupQueryAttention_rotary_embeddings (gqaRecord 1 2 1 2 8 9)
           (stateAfter (GroupQueryAttention (gqaRecord 1 2 1 2 8 9)))
           (mkGQAAttrs 1 2 (-1) 2 0 0 0 0)).
  - vm_compute. reflexivity.
  - reflexivity.
  - discriminate.
Defined.
